(** * Orchestrator and sandbox: plan scheduling, retry accounting, plan
    revision, static validation and shell policies.

    A shallow embedding of [sources/orchestrator.py] and
    [sources/sandbox.py].  Python [str] values are modelled as lists of
    characters whose code points are below 256; Python [int] as [Z];
    durations in seconds as [Q].  Everything the two modules obtain from
    outside (child processes, capability handlers, the clock) is an
    explicit oracle, and every call to the outside is logged in a trace. *)

From Stdlib Require Import Ascii String.
From Stdlib Require Import List ZArith QArith Lia Bool Arith.
From Stdlib Require Import Numbers.DecimalString Numbers.DecimalZ.
Import ListNotations.

Local Open Scope string_scope.
Local Open Scope Q_scope.
Local Open Scope Z_scope.
Local Open Scope nat_scope.
Local Open Scope bool_scope.
Local Open Scope list_scope.

Set Implicit Arguments.

(* ================================================================== *)
(** * Python text                                                      *)
(* ================================================================== *)

Definition str := list ascii.

Coercion list_ascii_of_string : string >-> list.

Module Text.

Definition code (c : ascii) : nat := nat_of_ascii c.

Definition between (lo hi n : nat) : bool := (lo <=? n) && (n <=? hi).

(** [str.isspace] on one character (code points below 256). *)
Definition is_space (c : ascii) : bool :=
  let n := code c in
  between 9 13 n || between 28 32 n || (n =? 133) || (n =? 160).

(** The characters [\w] matches in a [str] pattern: alphanumerics
    and the underscore. *)
Definition is_word (c : ascii) : bool :=
  let n := code c in
  between 48 57 n || between 65 90 n || between 97 122 n || (n =? 95)
  || (n =? 170) || (n =? 178) || (n =? 179) || (n =? 181) || (n =? 185)
  || (n =? 186) || between 188 190 n || between 192 214 n
  || between 216 246 n || between 248 255 n.

Definition is_word_opt (o : option ascii) : bool :=
  match o with Some c => is_word c | None => false end.

Definition lower_char (c : ascii) : ascii :=
  let n := code c in
  if between 65 90 n || between 192 214 n || between 216 222 n
  then ascii_of_nat (n + 32) else c.

(** [s.lower()] *)
Definition lower (s : str) : str := map lower_char s.

Definition eqb (a b : str) : bool :=
  if list_eq_dec ascii_dec a b then true else false.

(** [s.startswith(w)], with the remainder of [s] when it holds. *)
Fixpoint strip_prefix (w s : str) : option str :=
  match w, s with
  | [], _ => Some s
  | x :: w', y :: s' => if Ascii.eqb x y then strip_prefix w' s' else None
  | _ :: _, [] => None
  end.

Definition startswith (s w : str) : bool :=
  match strip_prefix w s with Some _ => true | None => false end.

(** [w in s] *)
Fixpoint contains (w s : str) : bool :=
  startswith s w || match s with [] => false | _ :: s' => contains w s' end.

Fixpoint lstrip (s : str) : str :=
  match s with
  | [] => []
  | c :: t => if is_space c then lstrip t else s
  end.

Fixpoint rstrip (s : str) : str :=
  match s with
  | [] => []
  | c :: t =>
      match rstrip t with
      | [] => if is_space c then [] else [c]
      | t' => c :: t'
      end
  end.

(** [s.strip()] *)
Definition strip (s : str) : str := rstrip (lstrip s).

Definition newline : ascii := ascii_of_nat 10.
Definition tab : ascii := ascii_of_nat 9.

(** [s.split('\n')] *)
Fixpoint split_lines (s : str) : list str :=
  match s with
  | [] => [[]]
  | c :: t =>
      if Ascii.eqb c newline then [] :: split_lines t
      else match split_lines t with
           | l :: ls => (c :: l) :: ls
           | [] => [[c]]
           end
  end.

(** [sep.join(parts)] *)
Fixpoint join (sep : str) (parts : list str) : str :=
  match parts with
  | [] => []
  | p :: rest =>
      match rest with
      | [] => p
      | _ :: _ => p ++ sep ++ join sep rest
      end
  end.

(** [s.replace(old, new)] for a non-empty [old]: the occurrences are
    replaced from the left and do not overlap.  [skip] counts the
    characters of an occurrence still to be dropped. *)
Fixpoint replace_from (old new : str) (skip : nat) (s : str) : str :=
  match s with
  | [] => []
  | c :: t =>
      match skip with
      | S k => replace_from old new k t
      | O =>
          if startswith s old
          then new ++ replace_from old new (length old - 1) t
          else c :: replace_from old new 0 t
      end
  end.

Definition replace (s old new : str) : str := replace_from old new 0 s.

Fixpoint take_while (p : ascii -> bool) (s : str) : str :=
  match s with
  | [] => []
  | c :: t => if p c then c :: take_while p t else []
  end.

(** [str(n)] for an [int]. *)
Definition str_of_Z (z : Z) : str := NilEmpty.string_of_int (Z.to_int z).

Definition str_of_nat (n : nat) : str := str_of_Z (Z.of_nat n).

End Text.

(* ================================================================== *)
(** * The fragment of Python's [re] the two modules use               *)
(* ================================================================== *)

Module Regex.
Import Text.

(** Character classes of the patterns in the source. *)
Inductive cclass :=
| CWord                      (* \w *)
| CSpace                     (* \s *)
| CDot                       (* .  : anything but a newline *)
| COneOf (l : list ascii)    (* [...]  *)
| CNoneOf (l : list ascii).  (* [^...] *)

Definition mem (c : ascii) (l : list ascii) : bool :=
  existsb (Ascii.eqb c) l.

Definition cls (k : cclass) (c : ascii) : bool :=
  match k with
  | CWord => is_word c
  | CSpace => is_space c
  | CDot => negb (Ascii.eqb c newline)
  | COneOf l => mem c l
  | CNoneOf l => negb (mem c l)
  end.

(** Every repetition in the source's patterns is over one character
    class, so repetition is a constructor over classes. *)
Inductive regex :=
| Lit (w : str)              (* literal text *)
| Cls (k : cclass)           (* one character of a class *)
| Star (k : cclass)          (* k*, greedy *)
| Plus (k : cclass)          (* k+, greedy *)
| Opt (k : cclass)           (* k?, greedy *)
| WordB                      (* \b *)
| Seq (r1 r2 : regex)
| Alt (r1 r2 : regex).

(** A position in the subject: the character before it, if any, and
    the text from it on. *)
Definition pos : Type := option ascii * str.

Definition last_of (w : str) (prev : option ascii) : option ascii :=
  match rev w with c :: _ => Some c | [] => prev end.

(** The positions after a greedy run of class [k], longest first. *)
Fixpoint star_run (k : cclass) (prev : option ascii) (s : str) : list pos :=
  match s with
  | c :: t =>
      if cls k c then star_run k (Some c) t ++ [(prev, s)] else [(prev, s)]
  | [] => [(prev, [])]
  end.

(** [run r p]: the positions at which a match of [r] begun at [p] can
    end, in the order a backtracking matcher tries them. *)
Fixpoint run (r : regex) (p : pos) : list pos :=
  match r with
  | Lit w =>
      match strip_prefix w (snd p) with
      | Some rest => [(last_of w (fst p), rest)]
      | None => []
      end
  | Cls k =>
      match snd p with
      | c :: t => if cls k c then [(Some c, t)] else []
      | [] => []
      end
  | Star k => star_run k (fst p) (snd p)
  | Plus k =>
      match snd p with
      | c :: t => if cls k c then star_run k (Some c) t else []
      | [] => []
      end
  | Opt k =>
      match snd p with
      | c :: t => if cls k c then [(Some c, t); p] else [p]
      | [] => [p]
      end
  | WordB =>
      if xorb (is_word_opt (fst p)) (is_word_opt (hd_error (snd p)))
      then [p] else []
  | Seq r1 r2 => flat_map (run r2) (run r1 p)
  | Alt r1 r2 => run r1 p ++ run r2 p
  end.

(** [re.search(r, s)]: the text of the leftmost match ([match.group()]),
    or [None]. *)
Fixpoint search_from (r : regex) (prev : option ascii) (s : str)
  : option str :=
  match run r (prev, s) with
  | (_, rest) :: _ => Some (firstn (length s - length rest) s)
  | [] =>
      match s with
      | [] => None
      | c :: t => search_from r (Some c) t
      end
  end.

Definition re_search (r : regex) (s : str) : option str :=
  search_from r None s.

Definition matches (r : regex) (s : str) : bool :=
  match re_search r s with Some _ => true | None => false end.

(** Concatenation of a list of pieces. *)
Fixpoint cat (rs : list regex) : regex :=
  match rs with
  | [] => Lit []
  | r :: rest =>
      match rest with
      | [] => r
      | _ :: _ => Seq r (cat rest)
      end
  end.

Definition alts (r : regex) (rs : list regex) : regex :=
  fold_left Alt rs r.

End Regex.

(* ================================================================== *)
(** * sources/sandbox.py                                               *)
(* ================================================================== *)

Module Sandbox.
Import Text Regex.

Definition dquote : ascii := ascii_of_nat 34.
Definition squote : ascii := ascii_of_nat 39.
Definition nl : str := [newline].

(** [\bw\b] *)
Definition word (w : str) : regex := cat [WordB; Lit w; WordB].

Definition DANGEROUS_PATTERNS : list regex :=
  [ word "os.system";
    word "os.popen";
    cat [WordB; Lit "os.exec"; Star CWord; WordB];
    cat [WordB; Lit "os.spawn"; Star CWord; WordB];
    word "os.kill";
    word "os.remove";
    word "os.unlink";
    word "os.rmdir";
    cat [WordB; Lit "subprocess."; Plus CWord];
    word "shutil.rmtree";
    word "shutil.move";
    word "__import__";
    word "importlib";
    cat [WordB; Lit "eval"; Star CSpace; Lit "("];
    cat [WordB; Lit "exec"; Star CSpace; Lit "("];
    cat [WordB; Lit "compile"; Star CSpace; Lit "("];
    cat [WordB; Lit "open"; Star CSpace; Lit "("; Star CDot; Lit "/etc/"];
    cat [WordB; Lit "socket."; Plus CWord];
    word "ctypes";
    cat [WordB; Lit "signal.SIG"];
    word "sys.exit";
    word "os._exit";
    word "Pickle";
    word "pickle.loads";
    word "marshall" ].

Definition SERVER_START_PATTERNS : list regex :=
  [ cat [Lit ".run"; Star CSpace; Lit "("];
    cat [Lit "app.run"; Star CSpace; Lit "("];
    cat [Lit "uvicorn.run"; Star CSpace; Lit "("];
    cat [Lit "serve"; Star CSpace; Lit "("; Star CSpace; Lit "app"];
    cat [Lit "httpd.serve_forever"; Star CSpace; Lit "("];
    Lit "socketserver.";
    Lit "http.server";
    cat [Lit "waitress.serve"; Star CSpace; Lit "("];
    Lit "gunicorn";
    cat [Lit "flask"; Plus CSpace; Lit "run"] ].

Definition DANGEROUS_BASH_PATTERNS : list regex :=
  [ cat [WordB; Lit "rm"; Plus CSpace; Lit "-rf"; WordB];
    cat [WordB; Lit "rm"; Plus CSpace; Lit "-fr"; WordB];
    cat [WordB; Lit "rm"; Plus CSpace; Lit "--no-preserve-root"; WordB];
    cat [WordB; Lit "dd"; Plus CSpace];
    word "mkfs";
    word "fdisk";
    word "parted";
    cat [WordB; Lit "chmod"; Plus CSpace; Lit "777"; WordB];
    cat [WordB; Lit "chmod"; Plus CSpace; Lit "-R"; WordB];
    cat [WordB; Lit "chown"; Plus CSpace; Lit "-R"; WordB];
    cat [WordB; Lit ":()"; Star CSpace; Lit "{"; Star CSpace; Lit ":|:";
         Star CSpace; Lit "&"; Star CSpace; Lit "}"; Star CSpace; Lit ";"];
    word "shutdown";
    word "reboot";
    word "halt";
    cat [WordB; Lit "init"; Plus CSpace; Lit "0"; WordB];
    cat [WordB; Lit "systemctl"; Plus CSpace;
         alts (Lit "stop") [Lit "disable"; Lit "mask"]; WordB];
    cat [WordB; Lit "mv"; Plus CSpace; Lit "/"; WordB];
    cat [WordB; Lit ">"; Star CSpace; Lit "/dev/sd"];
    cat [WordB; Lit "curl"; WordB; Star CDot; Lit "|"; Star CSpace; Lit "bash"];
    cat [WordB; Lit "wget"; WordB; Star CDot; Lit "|"; Star CSpace; Lit "bash"];
    cat [WordB; Lit "nc"; Plus CSpace; Lit "-l"];
    word "netcat";
    word "nmap";
    word "iptables";
    word "passwd";
    word "useradd";
    word "userdel";
    word "visudo";
    word "sudo";
    cat [WordB; Lit "su"; Plus CSpace];
    word "chroot" ].

Definition DANGEROUS_JS_PATTERNS : list regex :=
  [ word "child_process";
    cat [WordB; Lit "exec"; Star CSpace; Lit "("];
    word "execSync";
    word "spawn";
    word "spawnSync";
    cat [WordB; Lit "eval"; Star CSpace; Lit "("];
    cat [WordB; Lit "Function"; Star CSpace; Lit "("];
    word "fs.rmSync";
    word "fs.unlinkSync";
    word "process.exit";
    cat [WordB; Lit "require"; Star CSpace; Lit "("; Star CSpace;
         Cls (COneOf [dquote; squote]); Lit "child_process";
         Cls (COneOf [dquote; squote]); Star CSpace; Lit ")"] ].

Record LangConfig := {
  extension : str;
  command : list str;
  patterns : list regex
}.

(** A [dict] literal, in insertion order. *)
Definition LANGUAGE_CONFIG : list (str * LangConfig) :=
  [ ("python" : str,
      {| extension := ".py"; command := ["python3" : str];
         patterns := DANGEROUS_PATTERNS |});
    ("javascript" : str,
      {| extension := ".js"; command := ["node" : str];
         patterns := DANGEROUS_JS_PATTERNS |});
    ("nodejs" : str,
      {| extension := ".js"; command := ["node" : str];
         patterns := DANGEROUS_JS_PATTERNS |});
    ("bash" : str,
      {| extension := ".sh"; command := ["bash" : str];
         patterns := DANGEROUS_BASH_PATTERNS |});
    ("go" : str,
      {| extension := ".go"; command := ["go" : str; "run" : str];
         patterns := [] |}) ].

(** [d.get(key)] on a [dict] given by its items. *)
Fixpoint dict_get {A} (d : list (str * A)) (key : str) : option A :=
  match d with
  | [] => None
  | (k, v) :: rest => if Text.eqb k key then Some v else dict_get rest key
  end.

Definition MAX_OUTPUT_LENGTH : Z := 50000.

Definition RESTRICTED_PATHS : list str :=
  [ "/etc/passwd" : str; "/etc/shadow" : str; "/etc/sudoers" : str;
    "/root" : str; "/proc" : str; "/sys" : str;
    "/home/runner/.config" : str ].

Record SandboxResult := {
  success : bool;
  output : str;
  errors : str;
  execution_time : Q;
  language : str;
  timed_out : bool;
  blocked : bool;
  blocked_reason : str;
  truncated : bool
}.

(** The constructor call with the dataclass defaults. *)
Definition mkResult (success : bool) (output errors : str)
  (execution_time : Q) (language : str) : SandboxResult :=
  {| success := success; output := output; errors := errors;
     execution_time := execution_time; language := language;
     timed_out := false; blocked := false; blocked_reason := [];
     truncated := false |}.

Record SafeExecutor := {
  work_dir : str;
  timeout : Z;
  max_memory_mb : Z;
  block_network : bool;
  isolation_mode : str
}.

(** ** The outside world

    A child process is started by one of three requests; what it does
    is the oracle's answer, which may depend on everything requested
    before. *)
Inductive Event :=
| RunFile (language code : str)   (* temp file written, interpreter run on it *)
| RunShell (command : str)        (* bash -c command *)
| PipInstall (pkg : str).         (* pip install --quiet pkg *)

Inductive ProcOutcome :=
| Exited (returncode : Z) (stdout stderr : str) (elapsed : Q)
| TimedOut (stdout : str) (elapsed : Q)      (* killed at the timeout *)
| SpawnError (msg : str) (elapsed : Q).      (* the call itself raised *)

Definition World : Type := list Event -> Event -> ProcOutcome.

(** A computation that logs its requests and may raise. *)
Inductive outcome (A : Type) :=
| Ok (a : A)
| Raise (msg : str).
Arguments Ok {A} a.
Arguments Raise {A} msg.

Definition M (A : Type) : Type := list Event -> outcome A * list Event.

Definition ret {A} (a : A) : M A := fun tr => (Ok a, tr).

Definition bind {A B} (m : M A) (k : A -> M B) : M B :=
  fun tr =>
    match m tr with
    | (Ok a, tr') => k a tr'
    | (Raise msg, tr') => (Raise msg, tr')
    end.

Definition request (w : World) (e : Event) : M ProcOutcome :=
  fun tr => (Ok (w tr e), tr ++ [e]).

Definition raise {A} (msg : str) : M A := fun tr => (Raise msg, tr).

Notation "x <- m ;; k" := (bind m (fun x => k))
  (at level 61, m at next level, right associativity).

(** ** SafeExecutor *)

Definition _truncate_output (text : str) : str * bool :=
  let n := Z.of_nat (length text) in
  if (n >? MAX_OUTPUT_LENGTH)%Z
  then (firstn (Z.to_nat MAX_OUTPUT_LENGTH) text
          ++ nl ++ nl ++ "... [output truncated, "
          ++ str_of_Z (n - MAX_OUTPUT_LENGTH) ++ " chars omitted]",
        true)
  else (text, false).

Definition _check_path_safety (self : SafeExecutor) (code : str)
  : bool * str :=
  match find (fun restricted => contains restricted code) RESTRICTED_PATHS with
  | Some restricted =>
      (false, "Access to restricted path blocked: " ++ restricted)
  | None =>
      if Text.eqb (isolation_mode self) "workspace"
         && contains "../../../" code
      then (false, "Path traversal beyond workspace detected" : str)
      else (true, [])
  end.

Definition server_indicators : list regex :=
  [ cat [Lit "from"; Plus CSpace; Lit "flask"; Plus CSpace; Lit "import"];
    cat [Lit "from"; Plus CSpace; Lit "fastapi"; Plus CSpace; Lit "import"];
    cat [Lit "import"; Plus CSpace; Lit "flask"];
    cat [Lit "import"; Plus CSpace; Lit "fastapi"];
    cat [Lit "app"; Star CSpace; Lit "="; Star CSpace; Lit "Flask";
         Star CSpace; Lit "("];
    cat [Lit "app"; Star CSpace; Lit "="; Star CSpace; Lit "FastAPI";
         Star CSpace; Lit "("];
    cat [Lit "app.run"; Star CSpace; Lit "("];
    cat [Lit "uvicorn.run"; Star CSpace; Lit "("];
    cat [Lit "@app.route"; Star CSpace; Lit "("];
    cat [Lit "@app.";
         alts (Lit "get") [Lit "post"; Lit "put"; Lit "delete"; Lit "patch"];
         Star CSpace; Lit "("] ].

Definition _is_server_code (code : str) : bool :=
  match code with
  | [] => false
  | _ :: _ =>
      let matches_ :=
        length (filter (fun p => matches p code) server_indicators) in
      2 <=? matches_
  end.

(** The loop of [_strip_server_start] over the lines, with its
    [skip_block] flag. *)
Fixpoint strip_lines (skip_block : bool) (lines : list str) : list str :=
  match lines with
  | [] => []
  | line :: rest =>
      let stripped := strip line in
      if existsb (fun pattern => matches pattern stripped)
           SERVER_START_PATTERNS
      then ("# [sandbox] server start removed: " ++ stripped)
             :: strip_lines skip_block rest
      else if startswith stripped "if __name__"
              && contains "__main__" stripped
      then ("# [sandbox] main block removed: " ++ stripped)
             :: strip_lines true rest
      else if skip_block
      then if Text.eqb stripped []
              || Text.eqb (firstn 1 line) " "
              || Text.eqb (firstn 1 line) [tab]
           then ("# [sandbox] " ++ stripped) :: strip_lines true rest
           else line :: strip_lines false rest
      else line :: strip_lines false rest
  end.

Definition _strip_server_start (code language : str) : str :=
  if negb (Text.eqb language "python") then code
  else join nl (strip_lines false (split_lines code)).

Definition validate_code (self : SafeExecutor) (code language : str)
  : bool * str :=
  let (path_safe, path_reason) := _check_path_safety self code in
  if negb path_safe then (false, path_reason)
  else
    match dict_get LANGUAGE_CONFIG language with
    | None => (true, [])
    | Some config =>
        match find (fun pattern => matches pattern code) (patterns config) with
        | Some pattern =>
            (false,
             "Blocked dangerous pattern: "
               ++ match re_search pattern code with
                  | Some m => m
                  | None => []
                  end)
        | None =>
            if block_network self && Text.eqb language "python"
            then
              let network_patterns :=
                [ word "socket"; word "urllib"; word "requests";
                  word "httplib"; word "http" ] in
              match find (fun pattern => matches pattern code)
                      network_patterns with
              | Some pattern =>
                  (false,
                   "Network access blocked: "
                     ++ match re_search pattern code with
                        | Some m => m
                        | None => []
                        end)
              | None => (true, [])
              end
            else (true, [])
        end
    end.

Definition validate_python (self : SafeExecutor) (code : str) :=
  validate_code self code "python".

Definition validate_bash (self : SafeExecutor) (command : str) :=
  validate_code self command "bash".

Definition blocked_result (reason language : str) : SandboxResult :=
  {| success := false; output := []; errors := reason;
     execution_time := 0; language := language;
     timed_out := false; blocked := true; blocked_reason := reason;
     truncated := false |}.

Definition timeout_message (self : SafeExecutor) : str :=
  "Execution timed out after " ++ str_of_Z (timeout self) ++ " seconds".

Section WithWorld.
Variable world : World.

Definition _run_code_subprocess (self : SafeExecutor)
  (code language : str) (config : LangConfig) : M SandboxResult :=
  o <- request world (RunFile language code) ;;
  match o with
  | Exited returncode stdout stderr execution_time =>
      let (output_text, truncated) := _truncate_output stdout in
      ret {| success := (returncode =? 0)%Z;
             output := output_text;
             errors := stderr;
             execution_time := execution_time;
             language := language;
             timed_out := false; blocked := false; blocked_reason := [];
             truncated := truncated |}
  | TimedOut stdout execution_time =>
      ret {| success := false;
             output := stdout;
             errors := timeout_message self;
             execution_time := execution_time;
             language := language;
             timed_out := true; blocked := false; blocked_reason := [];
             truncated := false |}
  | SpawnError msg _ => raise msg
  end.

Definition module_name_pattern : regex :=
  cat [Lit "No module named "; Cls (COneOf [squote; dquote]);
       Plus (CNoneOf [squote; dquote]); Cls (COneOf [squote; dquote])].

Definition pkg_map : list (str * str) :=
  [ ("bs4" : str, "beautifulsoup4" : str);
    ("cv2" : str, "opencv-python" : str);
    ("PIL" : str, "Pillow" : str);
    ("sklearn" : str, "scikit-learn" : str);
    ("yaml" : str, "pyyaml" : str);
    ("dotenv" : str, "python-dotenv" : str);
    ("gi" : str, "PyGObject" : str) ].

Definition _try_auto_install (error_text : str) : M bool :=
  match re_search module_name_pattern error_text with
  | None => ret false
  | Some m =>
      (* group(1): the text between the two quotes *)
      let group1 :=
        take_while (fun c => negb (mem c [squote; dquote])) (skipn 17 m) in
      let module_name :=
        take_while (fun c => negb (Ascii.eqb c ".")) group1 in
      let pkg_name :=
        match dict_get pkg_map module_name with
        | Some pkg => pkg
        | None => module_name
        end in
      o <- request world (PipInstall pkg_name) ;;
      match o with
      | Exited returncode _ _ _ => ret (returncode =? 0)%Z
      | TimedOut _ _ => ret false
      | SpawnError _ _ => ret false
      end
  end.

Definition _execute_shell_raw (self : SafeExecutor) (command : str)
  : M SandboxResult :=
  o <- request world (RunShell command) ;;
  match o with
  | Exited returncode stdout stderr execution_time =>
      let (output_text, truncated) := _truncate_output stdout in
      ret {| success := (returncode =? 0)%Z;
             output := output_text;
             errors := stderr;
             execution_time := execution_time;
             language := "bash";
             timed_out := false; blocked := false; blocked_reason := [];
             truncated := truncated |}
  | TimedOut stdout execution_time =>
      ret {| success := false;
             output := stdout;
             errors := timeout_message self;
             execution_time := execution_time;
             language := "bash";
             timed_out := true; blocked := false; blocked_reason := [];
             truncated := false |}
  | SpawnError msg execution_time =>
      ret (mkResult false [] msg execution_time "bash")
  end.

Definition _is_system_install (command : str) : bool :=
  let cmd_lower := strip (lower command) in
  let system_patterns : list str :=
    [ "apt install" : str; "apt-get install" : str; "apt update" : str;
      "apt-get update" : str; "brew install" : str;
      "conda install" : str ] in
  existsb (fun pattern => contains pattern cmd_lower) system_patterns.

Definition _is_allowed_install (command : str) : bool :=
  let cmd_lower := strip (lower command) in
  let allowed_patterns : list str :=
    [ "pip install" : str; "pip3 install" : str; "npm install" : str;
      "npm i " : str; "yarn add" : str; "yarn install" : str;
      "npx " : str; "npm init" : str; "npm create" : str ] in
  existsb (fun pattern => contains pattern cmd_lower) allowed_patterns.

Definition _execute_shell (self : SafeExecutor) (command : str)
  : M SandboxResult :=
  if _is_system_install command
  then
    ret (mkResult true
           ("[blocked] System package install not allowed: "
              ++ strip command ++ nl
              ++ "Gunakan pip/npm/yarn untuk install packages.")
           [] 0 "bash")
  else if _is_allowed_install command
  then
    let command := replace command " --break-system-packages" [] in
    _execute_shell_raw self command
  else
    let (is_safe, reason) := validate_bash self command in
    if negb is_safe
    then ret (blocked_result reason "bash")
    else _execute_shell_raw self command.

Definition server_code_result (language : str) : SandboxResult :=
  mkResult true
    "[server code] File backend berhasil disimpan. Server tidak dijalankan di sandbox karena port sudah digunakan. File siap digunakan."
    [] 0 language.

Definition _execute_code (self : SafeExecutor) (code language : str)
  : M SandboxResult :=
  if Text.eqb language "python" && _is_server_code code
  then ret (server_code_result language)
  else
    let code := _strip_server_start code language in
    let (is_safe, reason) := validate_code self code language in
    if negb is_safe
    then ret (blocked_result reason language)
    else
      match dict_get LANGUAGE_CONFIG language with
      | None =>
          ret (mkResult false [] ("Unsupported language: " ++ language)
                 0 language)
      | Some config =>
          if Text.eqb language "bash"
          then _execute_shell self code
          else
            (* for attempt in range(2) *)
            result <- _run_code_subprocess self code language config ;;
            if success result then ret result
            else if Text.eqb language "python"
                    && contains "No module named" (errors result)
            then
              installed <- _try_auto_install (errors result) ;;
              if installed
              then _run_code_subprocess self code language config
              else ret result
            else ret result
      end.

Definition execute_python (self : SafeExecutor) (code : str) :=
  _execute_code self code "python".

Definition execute_bash (self : SafeExecutor) (command : str) :=
  _execute_shell self command.

Definition execute_javascript (self : SafeExecutor) (code : str) :=
  _execute_code self code "javascript".

Definition execute_go (self : SafeExecutor) (code : str) :=
  _execute_code self code "go".

(** ** Sandbox *)

Record SandboxObj := {
  executor : SafeExecutor;
  execution_history : list (str * SandboxResult)
}.

Definition record (self : SandboxObj) (language : str)
  (result : SandboxResult) : SandboxObj :=
  {| executor := executor self;
     execution_history := execution_history self ++ [(language, result)] |}.

Definition run_python (self : SandboxObj) (code : str)
  : M (SandboxResult * SandboxObj) :=
  result <- execute_python (executor self) code ;;
  ret (result, record self "python" result).

Definition run_bash (self : SandboxObj) (command : str)
  : M (SandboxResult * SandboxObj) :=
  result <- execute_bash (executor self) command ;;
  ret (result, record self "bash" result).

Definition run_javascript (self : SandboxObj) (code : str)
  : M (SandboxResult * SandboxObj) :=
  result <- execute_javascript (executor self) code ;;
  ret (result, record self "javascript" result).

Definition run_go (self : SandboxObj) (code : str)
  : M (SandboxResult * SandboxObj) :=
  result <- execute_go (executor self) code ;;
  ret (result, record self "go" result).

Definition supported_languages : list str :=
  map fst LANGUAGE_CONFIG.

Definition lang_map
  : list (str * (SandboxObj -> str -> M (SandboxResult * SandboxObj))) :=
  [ ("python" : str, run_python);
    ("bash" : str, run_bash);
    ("javascript" : str, run_javascript);
    ("js" : str, run_javascript);
    ("nodejs" : str, run_javascript);
    ("node" : str, run_javascript);
    ("go" : str, run_go);
    ("golang" : str, run_go) ].

Definition run (self : SandboxObj) (code language : str)
  : M (SandboxResult * SandboxObj) :=
  let language := strip (lower language) in
  match dict_get lang_map language with
  | Some runner => runner self code
  | None =>
      ret (mkResult false []
             ("Unsupported language: " ++ language ++ ". Supported: "
                ++ join ", " supported_languages)
             0 language,
           self)
  end.

End WithWorld.

End Sandbox.

(* ================================================================== *)
(** * sources/orchestrator.py                                          *)
(* ================================================================== *)

Module Orchestrator.
Import Text Regex.

Definition dquote : ascii := ascii_of_nat 34.
Definition squote : ascii := ascii_of_nat 39.
Definition nl : str := [newline].

(** The four values the code gives to [TaskStep.status]. *)
Inductive Status := pending | running | completed | failed.

Definition status_eqb (a b : Status) : bool :=
  match a, b with
  | pending, pending | running, running
  | completed, completed | failed, failed => true
  | _, _ => false
  end.

Record TaskStep := {
  id : Z;
  description : str;
  agent_type : str;
  status : Status;
  result : str;
  error : str;
  attempts : Z;
  max_attempts : Z;
  dependencies : list str
}.

(** The constructor call [TaskStep(id=, description=, agent_type=,
    max_attempts=, dependencies=)] with the dataclass defaults. *)
Definition mkStep (id : Z) (description agent_type : str)
  (max_attempts : Z) (dependencies : list str) : TaskStep :=
  {| id := id; description := description; agent_type := agent_type;
     status := pending; result := []; error := []; attempts := 0;
     max_attempts := max_attempts; dependencies := dependencies |}.

(** [ExecutionPlan]; the fields [current_step], [completed] and
    [start_time] are left out: the first two are never used, the third
    only feeds the rendering of elapsed time. *)
Record ExecutionPlan := {
  goal : str;
  steps : list TaskStep;
  reflection_log : list str
}.

Definition with_steps (plan : ExecutionPlan) (l : list TaskStep)
  : ExecutionPlan :=
  {| goal := goal plan; steps := l; reflection_log := reflection_log plan |}.

(** Field assignments on a step. *)
Definition set_status (st : Status) (s : TaskStep) : TaskStep :=
  {| id := id s; description := description s; agent_type := agent_type s;
     status := st; result := result s; error := error s;
     attempts := attempts s; max_attempts := max_attempts s;
     dependencies := dependencies s |}.

Definition set_result (r : str) (s : TaskStep) : TaskStep :=
  {| id := id s; description := description s; agent_type := agent_type s;
     status := status s; result := r; error := error s;
     attempts := attempts s; max_attempts := max_attempts s;
     dependencies := dependencies s |}.

Definition set_error (e : str) (s : TaskStep) : TaskStep :=
  {| id := id s; description := description s; agent_type := agent_type s;
     status := status s; result := result s; error := e;
     attempts := attempts s; max_attempts := max_attempts s;
     dependencies := dependencies s |}.

Definition set_attempts (n : Z) (s : TaskStep) : TaskStep :=
  {| id := id s; description := description s; agent_type := agent_type s;
     status := status s; result := result s; error := error s;
     attempts := n; max_attempts := max_attempts s;
     dependencies := dependencies s |}.

(** A step object held by the plan is named by its position; an
    assignment to it is an update at that position. *)
Fixpoint update_nth {A} (i : nat) (f : A -> A) (l : list A) : list A :=
  match l, i with
  | [], _ => []
  | x :: t, O => f x :: t
  | x :: t, S j => x :: update_nth j f t
  end.

(** [next((s for s in self.steps if str(s.id) == str(dep_id)), None)] *)
Definition dep_step (all : list TaskStep) (dep_id : str) : option TaskStep :=
  find (fun s => Text.eqb (str_of_Z (id s)) dep_id) all.

Definition deps_met (all : list TaskStep) (step : TaskStep) : bool :=
  forallb
    (fun dep_id =>
       match dep_step all dep_id with
       | Some d => status_eqb (status d) completed
       | None => true
       end)
    (dependencies step).

Definition runnable (all : list TaskStep) (step : TaskStep) : bool :=
  status_eqb (status step) pending && deps_met all step.

Fixpoint first_from (p : TaskStep -> bool) (l : list TaskStep) (i : nat)
  : option (nat * TaskStep) :=
  match l with
  | [] => None
  | step :: rest => if p step then Some (i, step) else first_from p rest (S i)
  end.

(** [get_next_step]: the step object returned, as its position in
    [steps] and its current value. *)
Definition get_next_step (plan : ExecutionPlan) : option (nat * TaskStep) :=
  first_from (runnable (steps plan)) (steps plan) 0.

Fixpoint update_first (p : TaskStep -> bool) (f : TaskStep -> TaskStep)
  (l : list TaskStep) : list TaskStep :=
  match l with
  | [] => []
  | step :: rest => if p step then f step :: rest
                    else step :: update_first p f rest
  end.

Definition mark_step_done (plan : ExecutionPlan) (step_id : Z) (r : str)
  : ExecutionPlan :=
  with_steps plan
    (update_first (fun step => (id step =? step_id)%Z)
       (fun step => set_result r (set_status completed step))
       (steps plan)).

Definition mark_step_failed (plan : ExecutionPlan) (step_id : Z) (e : str)
  : ExecutionPlan :=
  with_steps plan
    (update_first (fun step => (id step =? step_id)%Z)
       (fun step =>
          let step := set_attempts (attempts step + 1) step in
          let step :=
            if (attempts step >=? max_attempts step)%Z
            then set_status failed step
            else set_status pending step in
          set_error e step)
       (steps plan)).

Definition is_final (s : TaskStep) : bool :=
  status_eqb (status s) completed || status_eqb (status s) failed.

Definition is_complete (plan : ExecutionPlan) : bool :=
  forallb is_final (steps plan).

Definition count_status (st : Status) (l : list TaskStep) : nat :=
  length (filter (fun s => status_eqb (status s) st) l).

(** ** AutonomousOrchestrator *)

Inductive Need :=
| NeedAbsent                 (* no 'need' key *)
| NeedStr (s : str)
| NeedList (l : list str).

(** One [(task_name, task_info)] pair of [agent_tasks]. *)
Record AgentTask := {
  task_name : str;
  task : option str;         (* task_info.get('task') *)
  agent : option str;        (* task_info.get('agent') *)
  need : Need
}.

Definition deps_of (n : Need) : list str :=
  match n with
  | NeedAbsent => []
  | NeedStr s => match s with [] => [] | _ :: _ => [s] end
  | NeedList l => l
  end.

Fixpoint steps_from (i : nat) (agent_tasks : list AgentTask)
  : list TaskStep :=
  match agent_tasks with
  | [] => []
  | t :: rest =>
      mkStep (Z.of_nat i + 1)
        (match task t with Some d => d | None => task_name t end)
        (match agent t with Some a => a | None => "coder" : str end)
        3 (deps_of (need t))
      :: steps_from (S i) rest
  end.

Definition create_plan_from_tasks (goal : str) (agent_tasks : list AgentTask)
  : ExecutionPlan :=
  {| goal := goal; steps := steps_from 0 agent_tasks; reflection_log := [] |}.

(** The lookup of the handler in [execute_step]; [None] is the
    [KeyError] of [self.agents[agent_key]]. *)
Definition resolve_agent (agents : list str) (agent_type : str)
  : option str :=
  let agent_key := lower agent_type in
  let agent_key :=
    if existsb (Text.eqb agent_key) agents then agent_key
    else match find (fun key => startswith key (firstn 3 agent_key)) agents with
         | Some key => key
         | None => "coder" : str
         end in
  if existsb (Text.eqb agent_key) agents then Some agent_key else None.

(** [reflect] on the step object: the new step and the reflection line. *)
Definition reflect_step (step : TaskStep) (r : str) (success : bool)
  : TaskStep * str :=
  if success
  then
    (set_result r (set_status completed step),
     "Langkah " ++ str_of_Z (id step) ++ " berhasil: " ++ description step)
  else
    let step := set_attempts (attempts step + 1) step in
    if (attempts step >=? max_attempts step)%Z
    then
      (set_error r (set_status failed step),
       "Langkah " ++ str_of_Z (id step) ++ " gagal setelah "
         ++ str_of_Z (max_attempts step) ++ " percobaan: "
         ++ description step)
    else
      (set_error r (set_status pending step),
       "Langkah " ++ str_of_Z (id step) ++ " gagal (percobaan "
         ++ str_of_Z (attempts step) ++ "/" ++ str_of_Z (max_attempts step)
         ++ "), akan dicoba lagi").

(** [reflect] with [step] the object at position [i] of the plan. *)
Definition reflect (plan : ExecutionPlan) (i : nat) (r : str)
  (success : bool) : ExecutionPlan :=
  match nth_error (steps plan) i with
  | None => plan
  | Some step =>
      let (step', reflection) := reflect_step step r success in
      {| goal := goal plan;
         steps := update_nth i (fun _ => step') (steps plan);
         reflection_log := reflection_log plan ++ [reflection] |}
  end.

Definition module_pattern : regex :=
  cat [Lit "no module named "; Opt (COneOf [squote; dquote]); Plus CWord].

Definition alternative_agents : list (str * str) :=
  [ ("coder" : str, "file" : str);
    ("file" : str, "coder" : str);
    ("web" : str, "casual" : str);
    ("casual" : str, "coder" : str) ].

Fixpoint dict_get {A} (d : list (str * A)) (key : str) : option A :=
  match d with
  | [] => None
  | (k, v) :: rest => if Text.eqb k key then Some v else dict_get rest key
  end.

(** The capability and the strategy text [revise_plan] picks. *)
Definition recovery_choice (failed_step : TaskStep) : str * str :=
  let error_lower := lower (error failed_step) in
  if contains "no module named" error_lower || contains "import" error_lower
  then
    let module_name : str :=
      match re_search module_pattern error_lower with
      | Some m =>
          (* group(1): the match without the literal and the quote *)
          match skipn 16 m with
          | c :: w => if mem c [squote; dquote] then w else c :: w
          | [] => []
          end
      | None => "yang dibutuhkan"
      end in
    (lower (agent_type failed_step),
     "[RECOVERY - INSTALL DEPENDENCY] Install dependency '" ++ module_name
       ++ "' terlebih dahulu menggunakan pip install, lalu ulangi tugas: "
       ++ description failed_step)
  else if contains "permission" error_lower
          || contains "access denied" error_lower
  then
    ("file" : str,
     "[RECOVERY - FIX PERMISSIONS] Perbaiki permission/akses file yang bermasalah, lalu ulangi tugas: "
       ++ description failed_step)
  else if contains "syntax" error_lower || contains "syntaxerror" error_lower
  then
    ("coder" : str,
     "[RECOVERY - FIX SYNTAX] Perbaiki syntax error dalam kode. Baca file yang bermasalah, identifikasi error syntax, dan perbaiki. Tugas asli: "
       ++ description failed_step)
  else if contains "timeout" error_lower || contains "connection" error_lower
  then
    ("web" : str,
     "[RECOVERY - RETRY CONNECTION] Coba lagi dengan query pencarian berbeda atau URL alternatif. Tugas asli: "
       ++ description failed_step)
  else
    (match dict_get alternative_agents (lower (agent_type failed_step)) with
     | Some a => a
     | None => agent_type failed_step
     end,
     "[RECOVERY] Coba lagi dengan pendekatan berbeda: "
       ++ description failed_step).

Definition recovery_instruction : str :=
  nl ++ "INSTRUKSI: Gunakan pendekatan BERBEDA. Jangan ulangi cara yang sama. Kamu dilarang meminta klarifikasi, langsung eksekusi.".

Definition revise_plan (plan : ExecutionPlan) (failed_step : TaskStep)
  : ExecutionPlan :=
  let (recovery_agent, recovery_description) := recovery_choice failed_step in
  let recovery_description :=
    recovery_description ++ nl ++ nl ++ "ERROR SEBELUMNYA:" ++ nl
      ++ firstn 500 (match error failed_step with
                     | [] => "Unknown error" : str
                     | _ :: _ => error failed_step
                     end)
      ++ recovery_instruction in
  let retry_step :=
    mkStep (Z.of_nat (length (steps plan)) + 1)
      recovery_description recovery_agent 2 (dependencies failed_step) in
  with_steps plan (steps plan ++ [retry_step]).

(** ** The control loop *)

(** What a capability handler does with a prompt: it answers with a
    success flag, or raises. *)
Inductive HandlerOutcome :=
| Answered (answer : str) (success : bool)
| Threw (msg : str).

(** The handlers: the outcome of the call may depend on how many calls
    were made before, on the handler's key, and on everything the prompt
    is built from (the plan at the call and the step). *)
Definition Handlers : Type :=
  nat -> str -> ExecutionPlan -> nat -> HandlerOutcome.

Record MemoryEntry := {
  step_id : Z;
  agent_name : str;
  entry_success : bool;
  answer_preview : str
}.

Record LoopState := {
  plan : ExecutionPlan;
  iteration : nat;
  consecutive_failures : nat;
  final_answer : str;
  execution_memory : list MemoryEntry;
  (** every handler invocation so far: the step's id and the key *)
  calls : list (Z * str)
}.

Definition with_plan (st : LoopState) (p : ExecutionPlan) : LoopState :=
  {| plan := p; iteration := iteration st;
     consecutive_failures := consecutive_failures st;
     final_answer := final_answer st;
     execution_memory := execution_memory st; calls := calls st |}.

Definition deadlock_error : str :=
  "Dependency deadlock: langkah yang dibutuhkan gagal".

(** The [for] loop of the deadlock branch. *)
Definition fail_pending (l : list TaskStep) : list TaskStep :=
  map (fun s =>
         if status_eqb (status s) pending
         then set_error deadlock_error (set_status failed s)
         else s)
      l.

Definition has_pending (l : list TaskStep) : bool :=
  existsb (fun s => status_eqb (status s) pending) l.

Inductive BodyExit :=
| Break (st : LoopState)
| Continue (st : LoopState)
| Raised (st : LoopState) (msg : str).

Section WithHandlers.
Variable agents : list str.
Variable handlers : Handlers.

(** One pass through the body of the [while] loop of [run_loop].  The
    prompt handed to the handler ([required_infos], the rich context,
    the previous error, the memory context) is a function of the plan
    and the step, so it is not built here: the handlers are given the
    plan and the position of the step.  Notifications to the observer
    and writes to the persistent memory have no effect on the loop and
    are left out. *)
Definition loop_body (st : LoopState) : BodyExit :=
  match get_next_step (plan st) with
  | None =>
      if has_pending (steps (plan st))
      then Break (with_plan st
                    (with_steps (plan st) (fail_pending (steps (plan st)))))
      else Break st
  | Some (i, step) =>
      let iteration := S (iteration st) in
      (* execute_step *)
      let plan1 :=
        with_steps (plan st)
          (update_nth i (set_status running) (steps (plan st))) in
      match resolve_agent agents (agent_type step) with
      | None =>
          Raised {| plan := plan1; iteration := iteration;
                    consecutive_failures := consecutive_failures st;
                    final_answer := final_answer st;
                    execution_memory := execution_memory st;
                    calls := calls st |}
                 ("KeyError: 'coder'" : str)
      | Some agent_key =>
          let o := handlers (length (calls st)) agent_key plan1 i in
          let calls := calls st ++ [(id step, agent_key)] in
          let '(r, success, memory) :=
            match o with
            | Answered answer success =>
                (answer, success,
                 execution_memory st
                   ++ [{| step_id := id step; agent_name := agent_key;
                          entry_success := success;
                          answer_preview := firstn 200 answer |}])
            | Threw msg => ("Error: " ++ msg, false, execution_memory st)
            end in
          let plan2 := reflect plan1 i r success in
          let consecutive_failures :=
            if success then 0 else S (consecutive_failures st) in
          let plan3 :=
            match nth_error (steps plan2) i with
            | Some step' =>
                if negb success && status_eqb (status step') failed
                then if consecutive_failures <? 3
                     then revise_plan plan2 step'
                     else plan2
                else plan2
            | None => plan2
            end in
          Continue {| plan := plan3; iteration := iteration;
                      consecutive_failures := consecutive_failures;
                      final_answer :=
                        if success then r else final_answer st;
                      execution_memory := memory;
                      calls := calls |}
      end
  end.

Inductive LoopExit :=
| Done (st : LoopState)
| Raise (st : LoopState) (msg : str)
| OutOfFuel.

(** [while not plan.is_complete() and iteration < max_iterations].
    [fuel] bounds the number of passes of the model; [run_loop] gives
    [max_iterations] of it, which is shown never to run out. *)
Fixpoint loop (fuel max_iterations : nat) (st : LoopState) : LoopExit :=
  if negb (is_complete (plan st)) && (iteration st <? max_iterations)
  then
    match fuel with
    | O => OutOfFuel
    | S fuel' =>
        match loop_body st with
        | Break st' => Done st'
        | Continue st' => loop fuel' max_iterations st'
        | Raised st' msg => Raise st' msg
        end
    end
  else Done st.

(** The text [run_loop] returns.  The progress view and the elapsed
    time read the clock; their renderings are parameters. *)
Variable get_progress_text : ExecutionPlan -> str.
Variable elapsed_text : str.

Definition last_n {A} (n : nat) (l : list A) : list A :=
  skipn (length l - n) l.

Definition summary (plan : ExecutionPlan) (final_answer : str) : str :=
  let completed_ := count_status completed (steps plan) in
  let total := length (steps plan) in
  let summary_lines :=
    [ get_progress_text plan; nl ++ "---" ++ nl;
      "**Hasil:** " ++ str_of_nat completed_ ++ "/" ++ str_of_nat total
        ++ " langkah selesai dalam " ++ elapsed_text ++ " detik" ]
    ++ (match reflection_log plan with
        | [] => []
        | _ :: _ =>
            (nl ++ "**Log refleksi:**")
              :: map (fun log_entry => "  - " ++ log_entry)
                   (last_n 5 (reflection_log plan))
        end)
    ++ (match final_answer with
        | [] => []
        | _ :: _ => [nl ++ nl ++ "**Hasil akhir:**" ++ nl ++ final_answer]
        end) in
  join nl summary_lines.

Definition initial_state (goal : str) (agent_tasks : list AgentTask)
  : LoopState :=
  {| plan := create_plan_from_tasks goal agent_tasks;
     iteration := 0; consecutive_failures := 0; final_answer := [];
     execution_memory := []; calls := [] |}.

Inductive RunExit :=
| Returned (st : LoopState) (text : str)
| RaisedOut (st : LoopState) (msg : str)
| Diverged.

Definition run_loop (goal : str) (agent_tasks : list AgentTask) : RunExit :=
  let st := initial_state goal agent_tasks in
  let max_iterations := length (steps (plan st)) * 4 in
  match loop max_iterations max_iterations st with
  | Done st' => Returned st' (summary (plan st') (final_answer st'))
  | Raise st' msg => RaisedOut st' msg
  | OutOfFuel => Diverged
  end.

End WithHandlers.

End Orchestrator.

(* ================================================================== *)
(** * Specification-side definitions and example inputs                *)
(* ================================================================== *)

Module PlanSpec.
Import Text Orchestrator.

(** The dependency test of the specification: every step of the plan
    that carries the id is completed (so an id no step carries passes). *)
Definition dep_satisfied (all : list TaskStep) (dep_id : str) : Prop :=
  forall t, In t all -> str_of_Z (id t) = dep_id -> status t = completed.

Definition spec_runnable (all : list TaskStep) (s : TaskStep) : Prop :=
  status s = pending
  /\ forall dep_id, In dep_id (dependencies s) -> dep_satisfied all dep_id.

(** A plan of two steps, the second waiting for the first. *)
Definition example_plan : ExecutionPlan :=
  {| goal := "demo";
     steps :=
       [ set_status completed (mkStep 1 "write the script" "coder" 3 []);
         mkStep 2 "save the script" "file" 3 ["1" : str] ];
     reflection_log := [] |}.

End PlanSpec.

Module RetrySpec.
Import Text Orchestrator.

(** What recording a failure with message [e] makes of step [s]:
    one more attempt, the message stored, and the status decided by
    the retry budget. *)
Definition failure_recorded (e : str) (s s' : TaskStep) : Prop :=
  attempts s' = (attempts s + 1)%Z
  /\ error s' = e
  /\ status s' =
       (if (attempts s + 1 >=? max_attempts s)%Z then failed else pending)
  /\ id s' = id s /\ description s' = description s
  /\ agent_type s' = agent_type s /\ result s' = result s
  /\ max_attempts s' = max_attempts s /\ dependencies s' = dependencies s.

(** A run of failures of one step, each recorded by [reflect]. *)
Definition fail_times (errs : list str) (s : TaskStep) : TaskStep :=
  fold_left (fun s e => fst (reflect_step s e false)) errs s.

(** The fixed swap table of the default recovery. *)
Definition swap_capability (a : str) : str :=
  if Text.eqb (lower a) "coder" then "file"
  else if Text.eqb (lower a) "file" then "coder"
  else if Text.eqb (lower a) "web" then "casual"
  else if Text.eqb (lower a) "casual" then "coder"
  else a.

(** A step that failed for good on a missing module. *)
Definition example_failed_step : TaskStep :=
  set_error "ModuleNotFoundError: No module named 'requests'"
    (set_attempts 3 (set_status failed
       (mkStep 1 "fetch the page" "Coder" 3 []))).

End RetrySpec.

Module RevisionSpec.
Import Text Orchestrator.

(** The description of a recovery step: the strategy text, then the
    stored error cut to 500 characters, then the instruction. *)
Definition recovery_text (fs : TaskStep) (strategy : str) : str :=
  strategy ++ nl ++ nl ++ "ERROR SEBELUMNYA:" ++ nl
    ++ firstn 500 (match error fs with
                   | [] => "Unknown error" : str
                   | _ :: _ => error fs
                   end)
    ++ recovery_instruction.

(** The stored error mentions [w], whatever the case of its letters. *)
Definition error_mentions (fs : TaskStep) (w : str) : bool :=
  contains w (lower (error fs)).

End RevisionSpec.

Module LoopExamples.
Import Text Orchestrator.

(** The plan of the specification's end-to-end scenario: a coding step,
    then a file step that needs its result. *)
Definition two_tasks : list AgentTask :=
  [ {| task_name := "coder"; task := Some ("write the script" : str);
       agent := Some ("coder" : str); need := NeedList [] |};
    {| task_name := "file"; task := Some ("save the script" : str);
       agent := Some ("file" : str); need := NeedList ["1" : str] |} ].

Definition two_agents : list str := ["coder" : str; "file" : str].

(** Handlers that fail whatever they are asked. *)
Definition always_fail : Handlers := fun _ _ _ _ => Answered "boom" false.

End LoopExamples.

Module LoopInvariant.
Import Text Orchestrator.

(** What the scheduler reads of a step. *)
Definition view (s : TaskStep) : Z * Status * list str :=
  (id s, status s, dependencies s).

(** A step nobody has failed on yet, if it is still to run. *)
Definition fresh (s : TaskStep) : Prop :=
  status s = pending -> attempts s = 0%Z.

(** The handler calls a step accounts for: its failures, and its
    success if it has one. *)
Definition used (s : TaskStep) : nat :=
  Z.to_nat (attempts s)
  + (if status_eqb (status s) completed then 1 else 0).

Definition work (l : list TaskStep) : nat := list_sum (map used l).

Definition step_ok (cf : nat) (s : TaskStep) : Prop :=
  max_attempts s = 3%Z
  /\ status s <> running
  /\ (0 <= attempts s)%Z
  /\ (status s = pending ->
      (attempts s <= 2)%Z /\ (attempts s <= Z.of_nat cf)%Z)
  /\ (status s = completed -> (attempts s <= 2)%Z)
  /\ (status s = failed -> (attempts s <= 3)%Z).

(** The invariant of the loop of [run_loop]: every step has the default
    budget and a count within it; the only step that may be in the
    middle of its retries is the one the scheduler selects next, and its
    failures are all among the latest consecutive ones; and every
    iteration so far is accounted for by a step. *)
Definition Inv (st : LoopState) : Prop :=
  (forall j t, nth_error (steps (plan st)) j = Some t ->
               step_ok (consecutive_failures st) t)
  /\ (forall j t, nth_error (steps (plan st)) j = Some t ->
                  get_next_step (plan st) <> Some (j, t) -> fresh t)
  /\ iteration st = work (steps (plan st)).

(** The effect of the deadlock branch on one step. *)
Definition deadlocked (s s' : TaskStep) : Prop :=
  (status s = pending -> s' = set_error deadlock_error (set_status failed s))
  /\ (status s <> pending -> s' = s).

(** An outcome that is not a success. *)
Definition is_failure (o : HandlerOutcome) : Prop :=
  match o with
  | Answered _ true => False
  | Answered _ false => True
  | Threw _ => True
  end.

End LoopInvariant.

Module SandboxSpec.
Import Text Regex Sandbox.

(** The keys of [lang_map] in [Sandbox.run]. *)
Definition supported_keys : list str :=
  [ "python" : str; "bash" : str; "javascript" : str; "js" : str;
    "nodejs" : str; "node" : str; "go" : str; "golang" : str ].

(** A sandbox with the constructor's defaults and an empty history. *)
Definition default_executor : SafeExecutor :=
  {| work_dir := "/workspace"; timeout := 60; max_memory_mb := 1024;
     block_network := false; isolation_mode := "workspace" |}.

Definition fresh_sandbox : SandboxObj :=
  {| executor := default_executor; execution_history := [] |}.

(** A world in which every process exits with status 1. *)
Definition failing_world : World :=
  fun _ _ => Exited 1 [] "error" 1.

(** A world in which every process succeeds silently. *)
Definition quiet_world : World :=
  fun _ _ => Exited 0 [] [] 1.

End SandboxSpec.

Module ShellSpec.
Import Text Regex Sandbox.

(** The result [_execute_shell_raw] makes of what the shell did. *)
Definition shell_result (self : SafeExecutor) (o : ProcOutcome)
  : SandboxResult :=
  match o with
  | Exited returncode stdout stderr elapsed =>
      {| success := (returncode =? 0)%Z;
         output := fst (_truncate_output stdout);
         errors := stderr;
         execution_time := elapsed;
         language := "bash";
         timed_out := false; blocked := false; blocked_reason := [];
         truncated := snd (_truncate_output stdout) |}
  | TimedOut stdout elapsed =>
      {| success := false; output := stdout;
         errors := timeout_message self;
         execution_time := elapsed; language := "bash";
         timed_out := true; blocked := false; blocked_reason := [];
         truncated := false |}
  | SpawnError msg elapsed => mkResult false [] msg elapsed "bash"
  end.


End ShellSpec.

Module OutputSpec.
Import Text Regex Sandbox.

(** The note that ends a capped text. *)
Definition truncation_note (omitted : Z) : str :=
  nl ++ nl ++ "... [output truncated, " ++ str_of_Z omitted
    ++ " chars omitted]".

(** A world whose processes succeed, print nothing, and write [err] to
    their standard error. *)
Definition stderr_world (err : str) : World :=
  fun _ _ => Exited 0 [] err 1.

(** 50,001 characters. *)
Definition long_text : str := repeat "e"%char (Z.to_nat 50001).

End OutputSpec.

Module ServerSpec.
Import Text Regex Sandbox.

(** How many of the ten indicator patterns a snippet matches. *)
Definition indicator_count (code : str) : nat :=
  length (filter (fun p => matches p code) server_indicators).

(** The indicators that are imports of a web framework. *)
Definition framework_imports : list regex := firstn 4 server_indicators.

(** The indicators that are server-start calls: [app.run(] and
    [uvicorn.run(]. *)
Definition server_start_calls : list regex :=
  firstn 2 (skipn 6 server_indicators).

(** A web-framework import and a [.run(] call on another object. *)
Definition flask_with_run : str := "import flask" ++ nl ++ "server.run()".


End ServerSpec.

Module DenylistSpec.
Import Text Regex Sandbox.

(** The denylist patterns for a direct process spawn: [os.system],
    [os.popen], [os.exec*], [os.spawn*] and [subprocess.*]. *)
Definition spawn_patterns : list regex :=
  [ word "os.system";
    word "os.popen";
    cat [WordB; Lit "os.exec"; Star CWord; WordB];
    cat [WordB; Lit "os.spawn"; Star CWord; WordB];
    cat [WordB; Lit "subprocess."; Plus CWord] ].

(** [w] occurs in [s] between a character that satisfies [pre] and one
    that satisfies [post] (the ends of the text count as no character). *)
Definition occurs (pre : option ascii -> bool) (w : str)
  (post : option ascii -> bool) (s : str) : Prop :=
  exists a b, s = a ++ w ++ b
              /\ pre (last_of a None) = true
              /\ post (hd_error b) = true.

(** A test on a neighbouring character that cannot tell white space from
    the end of the text. *)
Definition blind (q : option ascii -> bool) : Prop :=
  forall c, is_space c = true -> q (Some c) = q None.

(** A text without white space, and not empty. *)
Definition token (w : str) : Prop :=
  w <> [] /\ forallb (fun c => negb (is_space c)) w = true.

Definition not_word (o : option ascii) : bool := negb (is_word_opt o).

Definition anything (o : option ascii) : bool := true.

(** No character, or a white one. *)
Definition spacey (o : option ascii) : Prop :=
  match o with
  | None => True
  | Some c => is_space c = true
  end.

(** The last character of a text is white. *)
Definition ends_white (p : str) : Prop :=
  exists c, last_of p None = Some c /\ is_space c = true.

(** What [_strip_server_start] may put in the place of a line: the line
    itself, or its stripped text after a comment prefix. *)
Definition line_kept (line line' : str) : Prop :=
  line' = line \/ exists p, ends_white p /\ line' = p ++ strip line.

End DenylistSpec.

(* ================================================================== *)
(** * Python lists, words and dictionaries                             *)
(* ================================================================== *)

Module Py.
Import Text.

(** [l[start:]] and [l[:stop]] for a list. *)
Definition slice_from {A} (start : Z) (l : list A) : list A :=
  if (start <? 0)%Z then skipn (length l - Z.to_nat (- start)) l
  else skipn (Z.to_nat start) l.

Definition slice_to {A} (stop : Z) (l : list A) : list A :=
  if (stop <? 0)%Z then firstn (length l - Z.to_nat (- stop)) l
  else firstn (Z.to_nat stop) l.

(** [s.split()]: the words of [s], separated by runs of white space.
    [word] is the word being read. *)
Fixpoint split_from (word s : str) : list str :=
  match s with
  | [] => match word with [] => [] | _ :: _ => [word] end
  | c :: t =>
      if is_space c
      then match word with
           | [] => split_from [] t
           | _ :: _ => word :: split_from [] t
           end
      else split_from (word ++ [c]) t
  end.

Definition split (s : str) : list str := split_from [] s.

(** [d[key] = value] on a [dict] given by its items: the value of a
    key that is there is replaced in place, a new key goes last. *)
Fixpoint dict_set {A} (d : list (str * A)) (key : str) (v : A)
  : list (str * A) :=
  match d with
  | [] => [(key, v)]
  | (k, x) :: rest =>
      if Text.eqb k key then (k, v) :: rest
      else (k, x) :: dict_set rest key v
  end.

Fixpoint dict_get {A} (d : list (str * A)) (key : str) : option A :=
  match d with
  | [] => None
  | (k, v) :: rest => if Text.eqb k key then Some v else dict_get rest key
  end.

End Py.

(* ================================================================== *)
(** * Plans and runs: definitions for the further properties           *)
(* ================================================================== *)

Module PlanShape.
Import Text Orchestrator LoopInvariant.

(** The ids [1 .. n], in order. *)
Definition ids_upto (n : nat) : list Z :=
  map (fun i => (Z.of_nat i + 1)%Z) (seq 0 n).

(** The steps of the plan are numbered [1 .. len] in order: what
    [create_plan_from_tasks] builds and [revise_plan] extends. *)
Definition numbered (p : ExecutionPlan) : Prop :=
  map id (steps p) = ids_upto (length (steps p)).

(** What no pass of the loop changes in a step. *)
Definition frame (s : TaskStep)
  : Z * str * str * Z * list str :=
  (id s, description s, agent_type s, max_attempts s, dependencies s).

(** The number of handler calls made for the step with id [k]. *)
Definition calls_for (k : Z) (calls : list (Z * str)) : nat :=
  length (filter (fun c => (fst c =? k)%Z) calls).

(** What [execute_step] returns for a handler outcome: the answer and
    the handler's flag, or the error text and [False]. *)
Definition outcome_text (o : HandlerOutcome) : str :=
  match o with
  | Answered answer _ => answer
  | Threw msg => "Error: " ++ msg
  end.

Definition outcome_success (o : HandlerOutcome) : bool :=
  match o with
  | Answered _ success => success
  | Threw _ => false
  end.

(** The steps that were run had what they need: every step of [l]
    that names a dependency of a step with a handler call to its account
    is completed. *)
Definition needs_met (l : list TaskStep) : Prop :=
  forall s t,
    In s l -> In t l -> 0 < used s ->
    In (str_of_Z (id t)) (dependencies s) -> status t = completed.

(** Every dependency of a task names an earlier task of the list, or no
    task at all. *)
Definition backward_needs (tasks : list AgentTask) : Prop :=
  forall k t d j,
    nth_error tasks k = Some t -> In d (deps_of (need t)) ->
    j < length tasks -> d = str_of_Z (Z.of_nat j + 1) -> j < k.

(** Handlers that answer every prompt with a success. *)
Definition always_succeed (handlers : Handlers) : Prop :=
  forall n key p i, exists answer, handlers n key p i = Answered answer true.

(** The state of a run in which nothing has failed: the first
    [iteration] steps are completed, in order, the others wait. *)
Definition in_order (tasks : list AgentTask) (st : LoopState) : Prop :=
  Inv st
  /\ map frame (steps (plan st)) = map frame (steps_from 0 tasks)
  /\ iteration st <= length tasks
  /\ (forall j t, nth_error (steps (plan st)) j = Some t ->
                  attempts t = 0%Z
                  /\ status t = (if j <? iteration st then completed
                                 else pending))
  /\ map fst (calls st) = ids_upto (iteration st)
  /\ consecutive_failures st = 0.

(** Three tasks, each needing the ones before it, and handlers that
    answer with their key. *)
Definition three_tasks : list AgentTask :=
  [ {| task_name := "a"; task := Some ("plan the work" : str);
       agent := Some ("coder" : str); need := NeedAbsent |};
    {| task_name := "b"; task := None;
       agent := None; need := NeedStr "1" |};
    {| task_name := "c"; task := Some ("store it" : str);
       agent := Some ("File" : str); need := NeedList ["1" : str; "2" : str] |} ].

Definition echo : Handlers := fun _ key _ _ => Answered key true.

End PlanShape.

(* ================================================================== *)
(** * sources/orchestrator.py: the context handed to a step            *)
(* ================================================================== *)

Module StepContext.
Import Text Py Orchestrator.

(** The dictionary [required_infos] that [run_loop] builds for the step
    it is about to run: the results of the completed steps the step
    depends on, cut to 500 characters; if there is none, the results of
    the completed steps with a smaller id, cut to 300. *)
Definition required_infos (plan : ExecutionPlan) (step : TaskStep)
  : list (str * str) :=
  let required_infos :=
    fold_left
      (fun d prev_step =>
         if existsb (Text.eqb (str_of_Z (id prev_step))) (dependencies step)
            && status_eqb (status prev_step) completed
         then dict_set d (str_of_Z (id prev_step))
                (firstn 500 (result prev_step))
         else d)
      (steps plan) [] in
  match required_infos with
  | _ :: _ => required_infos
  | [] =>
      fold_left
        (fun d prev_step =>
           if (id prev_step <? id step)%Z
              && status_eqb (status prev_step) completed
           then dict_set d (str_of_Z (id prev_step))
                  (firstn 300 (result prev_step))
           else d)
        (steps plan) []
  end.

End StepContext.

(* ================================================================== *)
(** * sources/sandbox.py: history, statistics and reports              *)
(* ================================================================== *)

Module SandboxReport.
Import Text Regex Sandbox.

(** [Sandbox.get_history] *)
Definition get_history (self : SandboxObj) : list (str * SandboxResult) :=
  execution_history self.

(** [Sandbox.clear_history] *)
Definition clear_history (self : SandboxObj) : SandboxObj :=
  {| executor := executor self; execution_history := [] |}.

(** [sum(1 for _, r in self.execution_history if flag(r))] *)
Definition count_results (flag : SandboxResult -> bool)
  (history : list (str * SandboxResult)) : Z :=
  Z.of_nat (length (filter (fun entry => flag (snd entry)) history)).

(** [Sandbox.get_stats]: the five counters of the dictionary, in its
    order.  Its sixth entry, [total_execution_time], is a rounded sum
    of floating-point durations and is not modelled. *)
Definition get_stats (self : SandboxObj) : list (str * Z) :=
  let total := Z.of_nat (length (execution_history self)) in
  let success_ := count_results success (execution_history self) in
  let blocked_ := count_results blocked (execution_history self) in
  let timed_out_ := count_results timed_out (execution_history self) in
  [ ("total_executions" : str, total);
    ("successful" : str, success_);
    ("failed" : str, (total - success_)%Z);
    ("blocked" : str, blocked_);
    ("timed_out" : str, timed_out_) ].

Section WithClock.
(** The rendering [f"{t:.2f}"] of a duration. *)
Variable two_decimals : Q -> str.

(** [Sandbox.format_result] *)
Definition format_result (result : SandboxResult) : str :=
  let lang_info : str :=
    match language result with
    | [] => []
    | _ :: _ => " (" ++ language result ++ ")"
    end in
  if blocked result
  then "[blocked" ++ lang_info ++ "] " ++ blocked_reason result
  else if timed_out result
  then "[timeout" ++ lang_info ++ "] Execution timed out after "
         ++ two_decimals (execution_time result) ++ "s" ++ nl
         ++ "Partial output: " ++ output result
  else
    let truncation_note : str :=
      if truncated result then " [output truncated]" else [] in
    if success result
    then "[success" ++ lang_info ++ "] Execution completed in "
           ++ two_decimals (execution_time result) ++ "s"
           ++ truncation_note ++ nl ++ output result
    else "[failure" ++ lang_info ++ "] Execution failed in "
           ++ two_decimals (execution_time result) ++ "s"
           ++ truncation_note ++ nl ++ "Output: " ++ output result ++ nl
           ++ "Errors: " ++ errors result.

Variable world : World.

(** [CoderAgent.sandbox_execute] of [sources/agents/code_agent.py]:
    [self.sandbox] is [None] when the agent was built without a
    sandbox; the pair [(None, None)] is [None] here. *)
Definition sandbox_execute (sandbox : option SandboxObj)
  (code language : str) : M (option (bool * str) * option SandboxObj) :=
  match sandbox with
  | None => ret (None, None)
  | Some sb =>
      if negb (existsb (Text.eqb language) ["python" : str; "bash" : str])
      then ret (None, sandbox)
      else
        x <- run world sb code language ;;
        let (result, sb') := x in
        let feedback := format_result result in
        ret (Some (success result, feedback), Some sb')
  end.

End WithClock.

End SandboxReport.

(** Definitions for the properties of results, histories and traces. *)
Module ResultSpec.
Import Text Regex Sandbox SandboxReport.

(** The flags of a result agree with each other. *)
Definition well_formed (r : SandboxResult) : Prop :=
  (blocked r = true ->
   success r = false /\ timed_out r = false /\ truncated r = false
   /\ output r = [] /\ errors r = blocked_reason r)
  /\ (timed_out r = true -> success r = false /\ truncated r = false)
  /\ (blocked r = false -> blocked_reason r = []).

(** The name under which [Sandbox.run] runs and records a language:
    the keys of its [lang_map] with the language each runner passes on. *)
Definition canonical (language : str) : option str :=
  dict_get
    [ ("python" : str, "python" : str);
      ("bash" : str, "bash" : str);
      ("javascript" : str, "javascript" : str);
      ("js" : str, "javascript" : str);
      ("nodejs" : str, "javascript" : str);
      ("node" : str, "javascript" : str);
      ("go" : str, "go" : str);
      ("golang" : str, "go" : str) ]
    language.

(** What a request has to do with the language of a run. *)
Definition event_of (lang : str) (e : Event) : Prop :=
  match e with
  | RunFile l _ => l = lang /\ lang <> ("bash" : str)
  | RunShell _ => lang = ("bash" : str)
  | PipInstall _ => lang = ("python" : str)
  end.

Definition is_pip (e : Event) : bool :=
  match e with PipInstall _ => true | _ => false end.

(** What one execution may do: the requests [evs] it adds to the trace
    and the result it gives. *)
Definition run_facts (lang : str) (tr : list Event)
  (o : outcome SandboxResult) (tr' : list Event) : Prop :=
  exists evs,
    tr' = tr ++ evs
    /\ length evs <= 3
    /\ length (filter is_pip evs) <= 1
    /\ Forall (event_of lang) evs
    /\ (lang <> ("python" : str) -> length evs <= 1)
    /\ (lang = ("bash" : str) -> exists r, o = Ok r)
    /\ (forall r, o = Ok r -> well_formed r /\ language r = lang).

(** A line [_strip_server_start] has no reason to touch. *)
Definition plain_line (line : str) : Prop :=
  existsb (fun pattern => matches pattern (strip line))
    SERVER_START_PATTERNS = false
  /\ startswith (strip line) "if __name__"
     && contains "__main__" (strip line) = false.


(** The result of an execution that was killed at the timeout. *)
Definition timeout_result (self : SafeExecutor) (lang out : str) (t : Q)
  : SandboxResult :=
  {| success := false; output := out; errors := timeout_message self;
     execution_time := t; language := lang; timed_out := true;
     blocked := false; blocked_reason := []; truncated := false |}.

(** A world in which the interpreter never comes back in time. *)
Definition hanging_world : World :=
  fun _ _ => TimedOut "partial" 60.

(** A rendering of durations for the examples. *)
Definition whole_seconds (t : Q) : str :=
  str_of_Z (Qnum t / Zpos (Qden t)) ++ ".00".

End ResultSpec.

(* ================================================================== *)
(** * sources/persistent_memory.py                                     *)
(* ================================================================== *)

Module PersistentMemory.
Import Text Py.

(** The dictionaries the store keeps, by their keys. *)
Record Fact := {
  fact_category : str;
  fact_content : str;
  fact_source : str;
  fact_timestamp : str
}.

Record Skill := {
  skill_name : str;
  skill_description : str;
  skill_code_example : str;
  skill_tags : list str;
  skill_timestamp : str
}.

Record Preference := {
  pref_value : str;
  pref_updated_at : str
}.

Record Project := {
  project_name : str;
  project_type : str;
  project_path : str;
  project_description : str;
  project_status : str;
  project_created_at : str
}.

(** The object: its four collections.  Every [store_*] also writes the
    collection to its JSON file and ignores a failure to do so; the
    files are read once, when the object is built. *)
Record Store := {
  facts : list Fact;
  skills : list Skill;
  preferences : list (str * Preference);
  project_history : list Project
}.

(** [store_fact]; [now] is the clock's reading,
    [datetime.now().isoformat()]. *)
Definition store_fact (self : Store) (category content source now : str)
  : Store :=
  let fact := {| fact_category := category; fact_content := content;
                 fact_source := source; fact_timestamp := now |} in
  let facts_ := facts self ++ [fact] in
  let facts_ :=
    if 500 <? length facts_ then slice_from (-500) facts_ else facts_ in
  {| facts := facts_; skills := skills self;
     preferences := preferences self;
     project_history := project_history self |}.

(** [store_skill]; [tags] is [None] when the argument is left out. *)
Definition store_skill (self : Store) (name description code_example : str)
  (tags : option (list str)) (now : str) : Store :=
  let skill :=
    {| skill_name := name; skill_description := description;
       skill_code_example := slice_to 2000 code_example;
       skill_tags := match tags with
                     | Some l => l
                     | None => []
                     end;
       skill_timestamp := now |} in
  let existing :=
    filter (fun s => negb (Text.eqb (skill_name s) name)) (skills self) in
  {| facts := facts self; skills := existing ++ [skill];
     preferences := preferences self;
     project_history := project_history self |}.

Definition store_preference (self : Store) (key value now : str) : Store :=
  {| facts := facts self; skills := skills self;
     preferences :=
       dict_set (preferences self) key
         {| pref_value := value; pref_updated_at := now |};
     project_history := project_history self |}.

Definition store_project (self : Store)
  (name project_type path description status now : str) : Store :=
  let project :=
    {| project_name := name; project_type := project_type;
       project_path := path; project_description := description;
       project_status := status; project_created_at := now |} in
  let history := project_history self ++ [project] in
  let history :=
    if 100 <? length history then slice_from (-100) history else history in
  {| facts := facts self; skills := skills self;
     preferences := preferences self; project_history := history |}.

(** [scored.sort(key=lambda x: x[0], reverse=True)]: by falling score;
    the sort is stable, so entries of equal score keep their order. *)
Fixpoint insert_by_score {A} (x : nat * A) (l : list (nat * A))
  : list (nat * A) :=
  match l with
  | [] => [x]
  | y :: rest =>
      if fst y <=? fst x then x :: l else y :: insert_by_score x rest
  end.

Definition sort_by_score {A} (l : list (nat * A)) : list (nat * A) :=
  fold_right insert_by_score [] l.

(** The score of a fact: the number of words of the query, with
    repetitions, that occur in its content. *)
Definition score (query_lower : str) (fact : Fact) : nat :=
  let content_lower := lower (fact_content fact) in
  length (filter (fun word => contains word content_lower)
            (split query_lower)).

Definition search_facts (self : Store) (query : str) (limit : Z)
  : list Fact :=
  let query_lower := lower query in
  let scored :=
    flat_map (fun fact =>
                let s := score query_lower fact in
                if 0 <? s then [(s, fact)] else [])
      (facts self) in
  map snd (slice_to limit (sort_by_score scored)).

Definition search_skills (self : Store) (query : str) (limit : Z)
  : list Skill :=
  let query_lower := lower query in
  let results :=
    filter (fun skill =>
              let name_lower := lower (skill_name skill) in
              let desc_lower := lower (skill_description skill) in
              let tags_str := lower (join " " (skill_tags skill)) in
              existsb (fun w => contains w name_lower
                                || contains w desc_lower
                                || contains w tags_str)
                (split query_lower))
      (skills self) in
  slice_to limit results.

Definition get_preferences (self : Store) : list (str * str) :=
  map (fun kv => (fst kv, pref_value (snd kv))) (preferences self).

Definition get_recent_projects (self : Store) (limit : Z) : list Project :=
  slice_from (- limit) (project_history self).

(** [extract_and_store_from_conversation]; the three readings of the
    clock are [now1], [now2] and [now3]. *)
Definition extract_and_store_from_conversation (self : Store)
  (user_query agent_response now1 now2 now3 : str) : Store :=
  let query_lower := lower user_query in
  let self :=
    if existsb (fun kw => contains kw query_lower)
         [ "suka" : str; "prefer" : str; "selalu" : str;
           "gunakan" : str; "pakai" : str ]
    then store_fact self "preference"
           ("User: " ++ slice_to 200 user_query) "conversation" now1
    else self in
  let code_keywords : list str :=
    [ "buatkan" : str; "buat" : str; "create" : str; "build" : str;
      "website" : str; "app" : str; "program" : str ] in
  let self :=
    if existsb (fun kw => contains kw query_lower) code_keywords
    then store_fact self "request"
           ("User meminta: " ++ slice_to 200 user_query) "conversation" now2
    else self in
  if contains "berhasil" (lower agent_response)
     || contains "[success]" (lower agent_response)
  then store_fact self "success"
         ("Berhasil: " ++ slice_to 100 user_query) "execution" now3
  else self.

End PersistentMemory.

(** Definitions for the properties of the store, and example stores. *)
Module MemorySpec.
Import Text Py PersistentMemory.

(** A fact mentions a word of the query, whatever the case of the
    letters. *)
Definition mentions (query : str) (fact : Fact) : Prop :=
  exists word,
    In word (split (lower query))
    /\ contains word (lower (fact_content fact)) = true.

(** Scores in the order a search returns them. *)
Fixpoint descending (l : list nat) : Prop :=
  match l with
  | [] => True
  | x :: rest => Forall (fun y => y <= x) rest /\ descending rest
  end.

Definition empty_store : Store :=
  {| facts := []; skills := []; preferences := []; project_history := [] |}.

Definition two_skills : Store :=
  store_skill
    (store_skill empty_store "scrape" "fetch a page" "import requests"
       None "t1")
    "plot" "draw a chart" "import matplotlib" (Some ["chart" : str]) "t2".

End MemorySpec.

(* ================================================================== *)
(** * Facts about text                                                 *)
(* ================================================================== *)

Import Text Regex.

Lemma text_eqb_eq (a b : str) : Text.eqb a b = true <-> a = b.
Proof.
  unfold Text.eqb. destruct (list_eq_dec ascii_dec a b); split; intro H;
    congruence.
Qed.

Lemma text_eqb_refl (a : str) : Text.eqb a a = true.
Proof. apply text_eqb_eq. reflexivity. Qed.

Lemma text_eqb_neq (a b : str) : Text.eqb a b = false <-> a <> b.
Proof.
  unfold Text.eqb. destruct (list_eq_dec ascii_dec a b); split; intro H;
    congruence.
Qed.

Lemma list_ascii_of_string_inj (s t : string) :
  list_ascii_of_string s = list_ascii_of_string t -> s = t.
Proof.
  intro H.
  rewrite <- (string_of_list_ascii_of_string s),
          <- (string_of_list_ascii_of_string t).
  now rewrite H.
Qed.

(** [str] of an integer is injective: distinct ids print differently. *)
Lemma str_of_Z_inj (x y : Z) : str_of_Z x = str_of_Z y -> x = y.
Proof.
  unfold str_of_Z. intro H.
  apply list_ascii_of_string_inj in H.
  apply DecimalZ.to_int_inj.
  assert (E : NilEmpty.int_of_string (NilEmpty.string_of_int (Z.to_int x))
              = NilEmpty.int_of_string (NilEmpty.string_of_int (Z.to_int y)))
    by now rewrite H.
  rewrite !NilEmpty.isi in E. congruence.
Qed.

Lemma ascii_eqb_eq (a b : ascii) : Ascii.eqb a b = true <-> a = b.
Proof. apply Ascii.eqb_eq. Qed.

Lemma strip_prefix_some (w s r : str) :
  strip_prefix w s = Some r <-> s = w ++ r.
Proof.
  revert s. induction w as [|x w IH]; intro s; simpl.
  - split; intro H; congruence.
  - destruct s as [|y s].
    + split; intro H; discriminate.
    + destruct (Ascii.eqb x y) eqn:E.
      * apply Ascii.eqb_eq in E. subst y. rewrite IH.
        split; intro H; congruence.
      * apply Ascii.eqb_neq in E. split; intro H; [discriminate|].
        congruence.
Qed.

Lemma strip_prefix_app (w r : str) : strip_prefix w (w ++ r) = Some r.
Proof. now apply strip_prefix_some. Qed.

Lemma startswith_iff (s w : str) :
  startswith s w = true <-> exists r, s = w ++ r.
Proof.
  unfold startswith. destruct (strip_prefix w s) as [r|] eqn:E.
  - apply strip_prefix_some in E. split; eauto.
  - split; [discriminate|]. intros [r Hr].
    apply strip_prefix_some in Hr. congruence.
Qed.

(** [w in s] holds exactly when [s] splits around an occurrence of [w]. *)
Lemma contains_iff (w s : str) :
  contains w s = true <-> exists a b, s = a ++ w ++ b.
Proof.
  induction s as [|c s IH].
  - simpl. rewrite orb_false_r, startswith_iff. split.
    + intros [r Hr]. exists [], r. exact Hr.
    + intros (a & b & H). destruct a; simpl in H.
      * eauto.
      * discriminate.
  - simpl. rewrite orb_true_iff, startswith_iff, IH. split.
    + intros [[r Hr]|(a & b & H)].
      * exists [], r. exact Hr.
      * exists (c :: a), b. simpl. now rewrite H.
    + intros (a & b & H). destruct a as [|x a]; simpl in H.
      * left. eauto.
      * right. inversion H; subst. eauto.
Qed.

Lemma contains_longer (w1 w2 s : str) :
  contains (w1 ++ w2) s = true -> contains w1 s = true.
Proof.
  rewrite !contains_iff. intros (a & b & H).
  exists a, (w2 ++ b). now rewrite H, <- app_assoc.
Qed.

Lemma text_eqb_sym (a b : str) : Text.eqb a b = Text.eqb b a.
Proof.
  unfold Text.eqb.
  destruct (list_eq_dec ascii_dec a b), (list_eq_dec ascii_dec b a);
    congruence.
Qed.

(* ================================================================== *)
(** * The plan scheduler                                               *)
(* ================================================================== *)

Section PlanScheduler.
Import Orchestrator PlanSpec.

Lemma status_eqb_eq (a b : Status) : status_eqb a b = true <-> a = b.
Proof. destruct a, b; simpl; split; intro H; congruence. Qed.

Lemma status_eqb_neq (a b : Status) : status_eqb a b = false <-> a <> b.
Proof. destruct a, b; simpl; split; intro H; congruence. Qed.

(** The step [first_from] returns splits the list: nothing before it
    passes the test. *)
Lemma first_from_some (p : TaskStep -> bool) (l : list TaskStep) :
  forall k i s,
    first_from p l k = Some (i, s) ->
    exists l1 l2,
      l = l1 ++ s :: l2 /\ i = k + length l1 /\ p s = true
      /\ Forall (fun t => p t = false) l1.
Proof.
  induction l as [|x l IH]; intros k i s H; simpl in H.
  - discriminate.
  - destruct (p x) eqn:Px.
    + inversion H; subst. exists [], l. simpl.
      repeat split; auto; lia.
    + apply IH in H. destruct H as (l1 & l2 & -> & -> & Ps & Hl1).
      exists (x :: l1), l2. simpl. repeat split; auto; lia.
Qed.

Lemma first_from_none (p : TaskStep -> bool) (l : list TaskStep) :
  forall k, first_from p l k = None -> Forall (fun t => p t = false) l.
Proof.
  induction l as [|x l IH]; intros k H; simpl in H.
  - constructor.
  - destruct (p x) eqn:Px; [discriminate|].
    constructor; eauto.
Qed.

Lemma first_from_split (p : TaskStep -> bool) (l1 l2 : list TaskStep)
  (s : TaskStep) (k : nat) :
  Forall (fun t => p t = false) l1 -> p s = true ->
  first_from p (l1 ++ s :: l2) k = Some (k + length l1, s).
Proof.
  revert k. induction l1 as [|x l1 IH]; intros k Hl1 Ps; simpl.
  - rewrite Ps. f_equal. f_equal. lia.
  - inversion Hl1; subst. rewrite H1. rewrite IH; auto.
    f_equal. f_equal. lia.
Qed.

(** In a plan whose ids are unique, a step is determined by its id. *)
Lemma unique_by_id (l : list TaskStep) (s t : TaskStep) :
  NoDup (map id l) -> In s l -> In t l -> id s = id t -> s = t.
Proof.
  induction l as [|x l IH]; simpl; intros ND Hs Ht E.
  - contradiction.
  - inversion ND as [|? ? Hx ND']; subst.
    destruct Hs as [->|Hs], Ht as [->|Ht]; auto.
    + exfalso. apply Hx. rewrite E. now apply in_map.
    + exfalso. apply Hx. rewrite <- E. now apply in_map.
Qed.


Lemma dep_step_satisfied (all : list TaskStep) (dep_id : str) :
  NoDup (map id all) ->
  (match dep_step all dep_id with
   | Some d => status_eqb (status d) completed
   | None => true
   end = true <-> dep_satisfied all dep_id).
Proof.
  intro ND. unfold dep_step, dep_satisfied.
  destruct (find _ all) as [d|] eqn:F.
  - apply find_some in F. destruct F as [Hd Ed].
    apply text_eqb_eq in Ed. rewrite status_eqb_eq. split.
    + intros Hc t Ht Et.
      assert (t = d) as ->; [|assumption].
      apply (unique_by_id all); auto.
      apply str_of_Z_inj. congruence.
    + intros H. now apply H.
  - split; [|reflexivity]. intros _ t Ht Et.
    apply (find_none _ _ F) in Ht. simpl in Ht.
    apply text_eqb_neq in Ht. contradiction.
Qed.

Lemma runnable_spec (all : list TaskStep) (s : TaskStep) :
  NoDup (map id all) ->
  (runnable all s = true <-> spec_runnable all s).
Proof.
  intro ND. unfold runnable, spec_runnable, deps_met.
  rewrite andb_true_iff, status_eqb_eq, forallb_forall.
  split; intros [Hp Hd]; split; auto; intros d Hin.
  - apply dep_step_satisfied; auto.
  - apply dep_step_satisfied; auto.
Qed.

(** C3.  In a plan with unique step ids, [get_next_step] returns the
    first step, in plan order, that is pending and whose every
    dependency id is carried by no step of the plan or by a completed
    one; it returns none exactly when no step is such.  In particular a
    returned step has no dependency id that a step of the plan carries
    without being completed. *)
Theorem get_next_step_first_runnable (plan : ExecutionPlan) :
  NoDup (map id (steps plan)) ->
  match get_next_step plan with
  | Some (i, s) =>
      exists before after,
        steps plan = before ++ s :: after
        /\ length before = i
        /\ spec_runnable (steps plan) s
        /\ (forall s', In s' before -> ~ spec_runnable (steps plan) s')
        /\ (forall dep_id t,
               In dep_id (dependencies s) -> In t (steps plan) ->
               str_of_Z (id t) = dep_id -> status t = completed)
  | None => forall s, In s (steps plan) -> ~ spec_runnable (steps plan) s
  end.
Proof.
  intro ND. unfold get_next_step.
  destruct (first_from _ _ 0) as [[i s]|] eqn:F.
  - apply first_from_some in F.
    destruct F as (l1 & l2 & E & Hi & Ps & Hl1).
    exists l1, l2. apply runnable_spec in Ps; auto.
    repeat split; auto.
    + apply Ps.
    + apply Ps.
    + intros s' Hs' R. apply runnable_spec in R; auto.
      rewrite Forall_forall in Hl1. apply Hl1 in Hs'. congruence.
    + intros d t Hd Ht Et. destruct Ps as [_ Hdeps].
      exact (Hdeps d Hd t Ht Et).
  - apply first_from_none in F. rewrite Forall_forall in F.
    intros s Hs R. apply runnable_spec in R; auto.
    apply F in Hs. congruence.
Qed.

Lemma get_next_step_first_runnable_witness :
  match get_next_step example_plan with
  | Some (i, s) =>
      exists before after,
        steps example_plan = before ++ s :: after
        /\ length before = i
        /\ spec_runnable (steps example_plan) s
        /\ (forall s', In s' before -> ~ spec_runnable (steps example_plan) s')
        /\ (forall dep_id t,
               In dep_id (dependencies s) -> In t (steps example_plan) ->
               str_of_Z (id t) = dep_id -> status t = completed)
  | None =>
      forall s, In s (steps example_plan) -> ~ spec_runnable (steps example_plan) s
  end.
Proof.
  apply (get_next_step_first_runnable example_plan).
  simpl. repeat constructor; simpl; intuition discriminate.
Defined.

End PlanScheduler.

(* ================================================================== *)
(** * Retry accounting                                                 *)
(* ================================================================== *)

Section RetryAccounting.
Import Orchestrator PlanSpec RetrySpec.

Lemma reflect_step_failure (s : TaskStep) (e : str) :
  failure_recorded e s (fst (reflect_step s e false)).
Proof.
  unfold failure_recorded, reflect_step. simpl.
  destruct (attempts s + 1 >=? max_attempts s)%Z; simpl; repeat split.
Qed.

Lemma update_first_split (p : TaskStep -> bool) (f : TaskStep -> TaskStep)
  (l1 l2 : list TaskStep) (s : TaskStep) :
  Forall (fun t => p t = false) l1 -> p s = true ->
  update_first p f (l1 ++ s :: l2) = l1 ++ f s :: l2.
Proof.
  induction l1 as [|x l1 IH]; simpl; intros Hl1 Ps.
  - now rewrite Ps.
  - inversion Hl1; subst. rewrite H1. f_equal. auto.
Qed.

Lemma mark_step_failed_first (plan : ExecutionPlan)
  (before after : list TaskStep) (s : TaskStep) (e : str) :
  steps plan = before ++ s :: after ->
  (forall t, In t before -> id t <> id s) ->
  exists s',
    steps (mark_step_failed plan (id s) e) = before ++ s' :: after
    /\ failure_recorded e s s'.
Proof.
  intros E Hb. unfold mark_step_failed. simpl. rewrite E.
  rewrite update_first_split.
  - eexists. split; [reflexivity|].
    unfold failure_recorded. simpl.
    destruct (attempts s + 1 >=? max_attempts s)%Z; simpl; repeat split.
  - rewrite Forall_forall. intros t Ht. apply Z.eqb_neq. auto.
  - apply Z.eqb_refl.
Qed.

Lemma fail_times_fields (errs : list str) :
  forall s,
    attempts (fail_times errs s) = (attempts s + Z.of_nat (length errs))%Z
    /\ max_attempts (fail_times errs s) = max_attempts s
    /\ id (fail_times errs s) = id s.
Proof.
  induction errs as [|e errs IH]; intro s.
  - simpl. repeat split. lia.
  - change (fail_times (e :: errs) s)
      with (fail_times errs (fst (reflect_step s e false))).
    destruct (IH (fst (reflect_step s e false))) as (Ha & Hm & Hi).
    rewrite Ha, Hm, Hi.
    destruct (reflect_step_failure s e) as (A & _ & _ & I & _ & _ & _ & M & _).
    rewrite A, M, I. simpl length. repeat split. lia.
Qed.

Lemma fail_times_snoc (errs : list str) (e : str) (s : TaskStep) :
  fail_times (errs ++ [e]) s = fst (reflect_step (fail_times errs s) e false).
Proof. unfold fail_times. now rewrite fold_left_app. Qed.

Lemma fail_times_status (errs : list str) (e : str) (s : TaskStep) :
  attempts s = 0%Z ->
  status (fail_times (errs ++ [e]) s) =
    (if (Z.of_nat (length (errs ++ [e])) >=? max_attempts s)%Z
     then failed else pending)
  /\ error (fail_times (errs ++ [e]) s) = e.
Proof.
  intro A0. rewrite fail_times_snoc.
  destruct (reflect_step_failure (fail_times errs s) e)
    as (_ & E & St & _).
  destruct (fail_times_fields errs s) as (Ha & Hm & _).
  rewrite St, E, Ha, Hm, A0. split; [|reflexivity].
  rewrite length_app. simpl.
  replace (Z.of_nat (length errs + 1))
    with (Z.of_nat (length errs) + 1)%Z by lia.
  reflexivity.
Qed.

(** C4.  Each failure recording, by [mark_step_failed] or by the failure
    branch of [reflect], adds one to [attempts] and stores the error; the
    status becomes [failed] when the new count reaches [max_attempts] and
    [pending] otherwise.  A failed step is never selected again.  Hence,
    for a fresh step with a positive retry budget, the failures before
    the last leave it pending and the failure number [max_attempts]
    leaves it failed. *)
Theorem failure_recording_exhausts_budget :
  (forall s e, failure_recorded e s (fst (reflect_step s e false)))
  /\ (forall plan before s after e,
         steps plan = before ++ s :: after ->
         (forall t, In t before -> id t <> id s) ->
         exists s',
           steps (mark_step_failed plan (id s) e) = before ++ s' :: after
           /\ failure_recorded e s s')
  /\ (forall plan i s, get_next_step plan = Some (i, s) -> status s <> failed)
  /\ (forall s errs e,
         attempts s = 0%Z ->
         (Z.of_nat (length (errs ++ [e])) < max_attempts s)%Z ->
         status (fail_times (errs ++ [e]) s) = pending
         /\ error (fail_times (errs ++ [e]) s) = e)
  /\ (forall s errs e,
         attempts s = 0%Z ->
         Z.of_nat (length (errs ++ [e])) = max_attempts s ->
         status (fail_times (errs ++ [e]) s) = failed
         /\ error (fail_times (errs ++ [e]) s) = e
         /\ attempts (fail_times (errs ++ [e]) s) = max_attempts s).
Proof.
  split; [exact reflect_step_failure|].
  split; [intros; now apply mark_step_failed_first|].
  split.
  { intros plan i s H. unfold get_next_step in H.
    apply first_from_some in H. destruct H as (_ & _ & _ & _ & R & _).
    unfold runnable in R. apply andb_true_iff in R. destruct R as [R _].
    apply status_eqb_eq in R. congruence. }
  split.
  - intros s errs e A0 Hlt.
    destruct (fail_times_status errs e s A0) as [St E].
    rewrite St, E. split; [|reflexivity].
    destruct (Z.geb_spec (Z.of_nat (length (errs ++ [e]))) (max_attempts s));
      [lia|reflexivity].
  - intros s errs e A0 Heq.
    destruct (fail_times_status errs e s A0) as [St E].
    destruct (fail_times_fields (errs ++ [e]) s) as (Ha & _ & _).
    rewrite St, E, Ha, A0. repeat split; [|lia].
    destruct (Z.geb_spec (Z.of_nat (length (errs ++ [e]))) (max_attempts s));
      [reflexivity|lia].
Qed.

Lemma failure_recording_exhausts_budget_witness :
  status (fail_times (["e1" : str; "e2" : str] ++ ["e3" : str])
            (mkStep 1 "t" "coder" 3 [])) = failed
  /\ status (fail_times ([] ++ ["e1" : str]) (mkStep 1 "t" "coder" 3 []))
     = pending.
Proof.
  destruct failure_recording_exhausts_budget as (_ & _ & _ & Hp & Hf).
  split.
  - apply (Hf (mkStep 1 "t" "coder" 3 []) ["e1" : str; "e2" : str] "e3");
      reflexivity.
  - apply (Hp (mkStep 1 "t" "coder" 3 []) [] "e1"); reflexivity.
Defined.

End RetryAccounting.

(* ================================================================== *)
(** * Plan revision                                                    *)
(* ================================================================== *)

Section PlanRevision.
Import Orchestrator PlanSpec RetrySpec RevisionSpec.

Lemma dict_get_swap (a : str) :
  match dict_get alternative_agents (lower a) with
  | Some b => b
  | None => a
  end = swap_capability a.
Proof.
  unfold swap_capability, alternative_agents, dict_get.
  rewrite (text_eqb_sym "coder"), (text_eqb_sym "file"),
    (text_eqb_sym "web"), (text_eqb_sym "casual").
  destruct (Text.eqb (lower a) "coder"); [reflexivity|].
  destruct (Text.eqb (lower a) "file"); [reflexivity|].
  destruct (Text.eqb (lower a) "web"); [reflexivity|].
  destruct (Text.eqb (lower a) "casual"); reflexivity.
Qed.

Lemma revise_plan_eq (plan : ExecutionPlan) (fs : TaskStep) :
  revise_plan plan fs
  = with_steps plan
      (steps plan
         ++ [mkStep (Z.of_nat (length (steps plan)) + 1)
               (recovery_text fs (snd (recovery_choice fs)))
               (fst (recovery_choice fs)) 2 (dependencies fs)]).
Proof.
  unfold revise_plan, recovery_text.
  destruct (recovery_choice fs); reflexivity.
Qed.

(** C9.  [revise_plan] appends exactly one step.  Its capability follows
    the stored error, lower-cased: a missing module or an import keeps
    the failed step's capability; otherwise a permission problem gives
    [file]; otherwise a syntax problem gives [coder]; otherwise a timeout
    or a connection problem gives [web]; otherwise the swap table decides.
    The step inherits the dependencies, has a budget of two attempts, and
    its description ends with the first 500 characters of the error and
    the instruction to try differently. *)
Theorem revise_plan_appends_one_step (plan : ExecutionPlan) (fs : TaskStep) :
  exists r,
    steps (revise_plan plan fs) = steps plan ++ [r]
    /\ goal (revise_plan plan fs) = goal plan
    /\ reflection_log (revise_plan plan fs) = reflection_log plan
    /\ id r = (Z.of_nat (length (steps plan)) + 1)%Z
    /\ status r = pending /\ attempts r = 0%Z
    /\ dependencies r = dependencies fs
    /\ max_attempts r = 2%Z
    /\ (exists strategy,
           description r
           = strategy ++ firstn 500 (error fs) ++ recovery_instruction)
    /\ (error_mentions fs "no module named" || error_mentions fs "import" = true ->
        agent_type r = lower (agent_type fs))
    /\ (error_mentions fs "no module named" || error_mentions fs "import" = false ->
        error_mentions fs "permission" || error_mentions fs "access denied" = true ->
        agent_type r = "file")
    /\ (error_mentions fs "no module named" || error_mentions fs "import" = false ->
        error_mentions fs "permission" || error_mentions fs "access denied" = false ->
        error_mentions fs "syntax" = true ->
        agent_type r = "coder")
    /\ (error_mentions fs "no module named" || error_mentions fs "import" = false ->
        error_mentions fs "permission" || error_mentions fs "access denied" = false ->
        error_mentions fs "syntax" = false ->
        error_mentions fs "timeout" || error_mentions fs "connection" = true ->
        agent_type r = "web")
    /\ (error_mentions fs "no module named" || error_mentions fs "import" = false ->
        error_mentions fs "permission" || error_mentions fs "access denied" = false ->
        error_mentions fs "syntax" = false ->
        error_mentions fs "timeout" || error_mentions fs "connection" = false ->
        agent_type r = swap_capability (agent_type fs)).
Proof.
  rewrite revise_plan_eq.
  destruct (recovery_choice fs) as [agent_ text] eqn:C.
  set (r := mkStep (Z.of_nat (length (steps plan)) + 1)
              (recovery_text fs (snd (agent_, text)))
              (fst (agent_, text)) 2 (dependencies fs)).
  exists r. split; [reflexivity|].
  do 7 (split; [reflexivity|]).
  split.
  { unfold r, mkStep, recovery_text, description, snd.
    destruct (error fs) as [|c e] eqn:Ee.
    - exists (text ++ nl ++ nl ++ "ERROR SEBELUMNYA:" ++ nl
                ++ firstn 500 "Unknown error").
      change (firstn 500 (@nil ascii)) with (@nil ascii).
      rewrite app_nil_l, <- !app_assoc. reflexivity.
    - eexists. rewrite !app_assoc. reflexivity. }
  assert (Ha : agent_type r = agent_) by reflexivity.
  rewrite Ha. clearbody r. clear Ha.
  assert (Hsyn : error_mentions fs "syntax" = false ->
                 error_mentions fs "syntaxerror" = false).
  { intro H. destruct (error_mentions fs "syntaxerror") eqn:E; [|reflexivity].
    unfold error_mentions in *.
    apply (contains_longer "syntax" "error") in E. congruence. }
  unfold recovery_choice in C. fold (error_mentions fs "no module named") in C.
  fold (error_mentions fs "import") in C. fold (error_mentions fs "permission") in C.
  fold (error_mentions fs "access denied") in C. fold (error_mentions fs "syntax") in C.
  fold (error_mentions fs "syntaxerror") in C. fold (error_mentions fs "timeout") in C.
  fold (error_mentions fs "connection") in C.
  rewrite dict_get_swap in C.
  destruct (error_mentions fs "no module named" || error_mentions fs "import") eqn:E1.
  { inversion C; subst. repeat split; intros; congruence. }
  destruct (error_mentions fs "permission" || error_mentions fs "access denied") eqn:E2.
  { inversion C; subst. repeat split; intros; congruence. }
  destruct (error_mentions fs "syntax") eqn:E3.
  { cbn [orb] in C. inversion C; subst. repeat split; intros; congruence. }
  rewrite (Hsyn eq_refl) in C. cbn [orb] in C.
  destruct (error_mentions fs "timeout" || error_mentions fs "connection") eqn:E4.
  { inversion C; subst. repeat split; intros; congruence. }
  inversion C; subst. repeat split; intros; congruence.
Qed.

Lemma revise_plan_appends_one_step_witness :
  exists r,
    steps (revise_plan example_plan example_failed_step)
    = steps example_plan ++ [r]
    /\ agent_type r = "coder" /\ max_attempts r = 2%Z.
Proof.
  destruct (revise_plan_appends_one_step example_plan example_failed_step)
    as (r & Hs & _ & _ & _ & _ & _ & _ & Hm & _ & Ha & _).
  exists r. split; [exact Hs|]. split; [|exact Hm].
  apply Ha. reflexivity.
Defined.

End PlanRevision.

(* ================================================================== *)
(** * The control loop: the iteration cap                              *)
(* ================================================================== *)

Section IterationCap.
Import Orchestrator.
Variable agents : list str.
Variable handlers : Handlers.

(** One pass of the loop body either stops the loop without a handler
    call, or counts one iteration and makes at most one handler call. *)
Lemma loop_body_counts (st : LoopState) :
  match loop_body agents handlers st with
  | Break st' => iteration st' = iteration st /\ calls st' = calls st
  | Continue st' =>
      iteration st' = S (iteration st)
      /\ exists c, calls st' = calls st ++ [c]
  | Raised st' _ => iteration st' = S (iteration st) /\ calls st' = calls st
  end.
Proof.
  unfold loop_body.
  destruct (get_next_step (plan st)) as [[i step]|].
  - destruct (resolve_agent agents (agent_type step)) as [key|].
    + destruct (handlers (length (calls st)) key _ i); cbn; eauto.
    + cbn. auto.
  - destruct (has_pending (steps (plan st))); cbn; auto.
Qed.

Lemma loop_calls_bounded (fuel : nat) :
  forall max_iterations st,
    max_iterations - iteration st <= fuel ->
    match loop agents handlers fuel max_iterations st with
    | Done st' | Raise st' _ =>
        length (calls st') + iteration st <= length (calls st) + iteration st'
        /\ iteration st' <= Nat.max max_iterations (iteration st)
    | OutOfFuel => False
    end.
Proof.
  induction fuel as [|fuel IH]; intros m st Hf; simpl.
  - destruct (negb (is_complete (plan st)) && (iteration st <? m)) eqn:G.
    + apply andb_true_iff in G. destruct G as [_ G].
      apply Nat.ltb_lt in G. lia.
    + lia.
  - destruct (negb (is_complete (plan st)) && (iteration st <? m)) eqn:G;
      [|lia].
    apply andb_true_iff in G. destruct G as [_ G]. apply Nat.ltb_lt in G.
    pose proof (loop_body_counts st) as B.
    destruct (loop_body agents handlers st) as [st'|st'|st' msg].
    + destruct B as [Bi Bc]. rewrite Bi, Bc. lia.
    + destruct B as [Bi [c Bc]].
      specialize (IH m st'). rewrite Bi in IH.
      assert (Hf' : m - S (iteration st) <= fuel) by lia.
      specialize (IH Hf').
      destruct (loop agents handlers fuel m st') as [st''|st'' msg|];
        [| |exact IH].
      * rewrite Bc, length_app in IH. simpl in IH. lia.
      * rewrite Bc, length_app in IH. simpl in IH. lia.
    + destruct B as [Bi Bc]. rewrite Bi, Bc. lia.
Qed.

Lemma length_steps_from (tasks : list AgentTask) :
  forall i, length (steps_from i tasks) = length tasks.
Proof.
  induction tasks as [|t tasks IH]; intro i; simpl; auto.
Qed.

(** C2.  [run_loop] always comes back, and the handlers are called at
    most four times the number of tasks it was given.  The cap does not
    depend on the plan: from any state of the loop, whatever its plan
    and however the plan grows, at most [max_iterations - iteration]
    more handler calls are made. *)
Theorem run_loop_iteration_cap :
  (forall get_progress_text elapsed_text goal tasks,
      match run_loop agents handlers get_progress_text elapsed_text goal tasks
      with
      | Returned st _ | RaisedOut st _ =>
          length (calls st) <= 4 * length tasks
          /\ iteration st <= 4 * length tasks
      | Diverged => False
      end)
  /\ (forall max_iterations st,
         iteration st <= max_iterations ->
         match loop agents handlers (max_iterations - iteration st)
                 max_iterations st
         with
         | Done st' | Raise st' _ =>
             length (calls st')
             <= length (calls st) + (max_iterations - iteration st)
         | OutOfFuel => False
         end).
Proof.
  split.
  - intros gpt et goal tasks. unfold run_loop.
    set (st := initial_state goal tasks).
    set (m := length (steps (plan st)) * 4).
    assert (Hm : m = 4 * length tasks).
    { unfold m, st. simpl. rewrite length_steps_from. lia. }
    pose proof (@loop_calls_bounded m m st) as B.
    assert (Hf : m - iteration st <= m) by lia.
    specialize (B Hf).
    destruct (loop agents handlers m m st) as [st'|st' msg|]; [| |exact B].
    + unfold st in B at 1 2 3. simpl in B. lia.
    + unfold st in B at 1 2 3. simpl in B. lia.
  - intros m st Hi.
    pose proof (@loop_calls_bounded (m - iteration st) m st (le_n _)) as B.
    destruct (loop agents handlers (m - iteration st) m st); [| |exact B];
      lia.
Qed.

End IterationCap.

Lemma run_loop_iteration_cap_witness :
  match Orchestrator.loop LoopExamples.two_agents LoopExamples.always_fail
          (8 - 0) 8 (Orchestrator.initial_state "goal" LoopExamples.two_tasks)
  with
  | Orchestrator.Done st' | Orchestrator.Raise st' _ =>
      length (Orchestrator.calls st') <= 0 + (8 - 0)
  | Orchestrator.OutOfFuel => False
  end.
Proof.
  apply (proj2 (run_loop_iteration_cap LoopExamples.two_agents
                  LoopExamples.always_fail)
           8 (Orchestrator.initial_state "goal" LoopExamples.two_tasks)).
  simpl. lia.
Defined.

(* ================================================================== *)
(** * The control loop: deadlock and the state on return               *)
(* ================================================================== *)

Section UpdateNth.
Import Orchestrator.
Variable A : Type.

Lemma nth_error_update_nth_eq (f : A -> A) (l : list A) :
  forall i x, nth_error l i = Some x ->
              nth_error (update_nth i f l) i = Some (f x).
Proof.
  induction l as [|y l IH]; intros [|i] x H; simpl in *; try discriminate.
  - congruence.
  - auto.
Qed.

Lemma nth_error_update_nth_neq (f : A -> A) (l : list A) :
  forall i j, i <> j -> nth_error (update_nth i f l) j = nth_error l j.
Proof.
  induction l as [|y l IH]; intros [|i] [|j] H; simpl in *; auto;
    try congruence.
Qed.

Lemma update_nth_twice (f g : A -> A) (l : list A) :
  forall i, update_nth i g (update_nth i f l)
            = update_nth i (fun x => g (f x)) l.
Proof.
  induction l as [|y l IH]; intros [|i]; simpl; auto. now rewrite IH.
Qed.

Lemma length_update_nth (f : A -> A) (l : list A) :
  forall i, length (update_nth i f l) = length l.
Proof.
  induction l as [|y l IH]; intros [|i]; simpl; auto.
Qed.

Lemma map_update_nth_same (B : Type) (v : A -> B) (f : A -> A) (l : list A) :
  (forall x, v (f x) = v x) ->
  forall i, map v (update_nth i f l) = map v l.
Proof.
  intro H. induction l as [|y l IH]; intros [|i]; simpl; auto.
  - now rewrite H.
  - now rewrite IH.
Qed.

Lemma map_update_nth_const (B : Type) (v : A -> B) (y : A) (l : list A) :
  forall i x, nth_error l i = Some x -> v y = v x ->
              map v (update_nth i (fun _ => y) l) = map v l.
Proof.
  induction l as [|z l IH]; intros [|i] x H E; simpl in *; try discriminate.
  - inversion H; subst. now rewrite E.
  - f_equal. eauto.
Qed.

Lemma forallb_pointwise (f g : A -> bool) (l : list A) :
  (forall x, f x = g x) -> forallb f l = forallb g l.
Proof.
  intro H. induction l as [|y l IH]; simpl; auto. now rewrite H, IH.
Qed.

End UpdateNth.

Section Deadlock.
Import Orchestrator PlanSpec LoopInvariant.
Variable agents : list str.
Variable handlers : Handlers.

Lemma work_update_nth (f : TaskStep -> TaskStep) (l : list TaskStep) :
  forall i x, nth_error l i = Some x ->
              work (update_nth i f l) + used x = work l + used (f x).
Proof.
  unfold work.
  induction l as [|y l IH]; intros [|i] x H; simpl in *; try discriminate.
  - inversion H; subst. lia.
  - specialize (IH i x H). lia.
Qed.

Lemma get_next_step_nth (p : ExecutionPlan) (i : nat) (s : TaskStep) :
  get_next_step p = Some (i, s) ->
  nth_error (steps p) i = Some s /\ runnable (steps p) s = true.
Proof.
  unfold get_next_step. intro H. apply first_from_some in H.
  destruct H as (l1 & l2 & E & Hi & R & _). split; [|exact R].
  rewrite E, Hi. simpl. rewrite nth_error_app2 by lia.
  now rewrite Nat.sub_diag.
Qed.

Lemma dep_step_view (all all' : list TaskStep) (d : str) :
  map view all = map view all' ->
  option_map status (dep_step all d) = option_map status (dep_step all' d).
Proof.
  revert all'. unfold dep_step.
  induction all as [|x all IH]; intros [|x' all'] H; simpl in *;
    try discriminate; auto.
  inversion H as [[Hi Hs Hd Hr]]. rewrite Hi.
  destruct (Text.eqb (str_of_Z (id x')) d); simpl; auto.
  now rewrite Hs.
Qed.

Lemma runnable_view (all all' : list TaskStep) (s s' : TaskStep) :
  map view all = map view all' -> view s = view s' ->
  runnable all s = runnable all' s'.
Proof.
  intros Ha Hs. inversion Hs as [[Hi Hst Hd]].
  unfold runnable, deps_met. rewrite Hst, Hd. f_equal.
  apply forallb_pointwise. intro d.
  pose proof (dep_step_view all all' d Ha) as V.
  destruct (dep_step all d), (dep_step all' d); simpl in V;
    try discriminate; auto.
  now inversion V.
Qed.

Lemma first_from_view (p p' : TaskStep -> bool) (l l' : list TaskStep) :
  map view l = map view l' ->
  (forall s s', view s = view s' -> p s = p' s') ->
  forall k, option_map fst (first_from p l k)
            = option_map fst (first_from p' l' k).
Proof.
  intros Hl Hp. revert l' Hl.
  induction l as [|x l IH]; intros [|x' l'] Hl k; simpl in *;
    try discriminate; auto.
  inversion Hl as [[Hx Hr]].
  assert (Hv : view x = view x') by (unfold view; congruence).
  rewrite (Hp x x' Hv). destruct (p' x'); simpl; auto.
Qed.

(** A plan whose steps look the same to the scheduler selects the step
    at the same position. *)
Lemma get_next_step_view (p p' : ExecutionPlan) (i : nat) (s : TaskStep) :
  map view (steps p) = map view (steps p') ->
  get_next_step p = Some (i, s) ->
  exists s', get_next_step p' = Some (i, s').
Proof.
  intros Hv H. unfold get_next_step in *.
  pose proof (first_from_view (runnable (steps p)) (runnable (steps p'))
                (steps p) (steps p') Hv) as F.
  specialize (F (fun a b E => @runnable_view _ _ a b Hv E) 0).
  rewrite H in F. simpl in F.
  destruct (first_from (runnable (steps p')) (steps p') 0) as [[i' s']|];
    simpl in F; [|discriminate].
  inversion F; subst. eauto.
Qed.


(** What a pass of the loop body that goes on has done: it selected a
    step, obtained an answer, and replaced the step by what [reflect]
    makes of it; unless the step failed for good within three
    consecutive failures, the plan has no other change. *)
Lemma loop_body_continue (st st' : LoopState) :
  loop_body agents handlers st = Continue st' ->
  exists (i : nat) (step : TaskStep) (r : str) (success : bool),
    get_next_step (plan st) = Some (i, step)
    /\ iteration st' = S (iteration st)
    /\ consecutive_failures st'
       = (if success then 0 else S (consecutive_failures st))
    /\ (negb success
        && status_eqb
             (status (fst (reflect_step (set_status running step) r success)))
             failed
        && (consecutive_failures st' <? 3) = false ->
        steps (plan st')
        = update_nth i
            (fun _ => fst (reflect_step (set_status running step) r success))
            (steps (plan st))).
Proof.
  unfold loop_body.
  destruct (get_next_step (plan st)) as [[i step]|] eqn:N;
    [|destruct (has_pending (steps (plan st))); discriminate].
  destruct (get_next_step_nth _ N) as [Hn _].
  destruct (resolve_agent agents (agent_type step)) as [key|];
    [|discriminate].
  set (plan1 := with_steps (plan st)
                  (update_nth i (set_status running) (steps (plan st)))).
  assert (H1 : nth_error (steps plan1) i = Some (set_status running step)).
  { unfold plan1. simpl. now apply nth_error_update_nth_eq. }
  assert (R : forall r success,
             steps (reflect plan1 i r success)
             = update_nth i
                 (fun _ => fst (reflect_step (set_status running step)
                                  r success))
                 (steps (plan st))).
  { intros r success. unfold reflect. rewrite H1.
    destruct (reflect_step (set_status running step) r success)
      as [step' line]. simpl. now rewrite update_nth_twice. }
  assert (R' : forall r success,
             nth_error (steps (reflect plan1 i r success)) i
             = Some (fst (reflect_step (set_status running step) r success))).
  { intros r success. rewrite R.
    now rewrite (nth_error_update_nth_eq _ _ _ Hn). }
  destruct (handlers (length (calls st)) key plan1 i) as [answer success|msg];
    cbv beta iota zeta; intro H; injection H as <-;
    cbn [iteration consecutive_failures plan];
    match goal with
    | |- context [reflect plan1 i ?r ?s] => exists i, step, r, s
    end;
    (repeat split; auto; rewrite R'; intro C; rewrite <- R;
     match goal with
     | |- steps (if ?c then _ else _) = _ => destruct c; [|reflexivity]
     end;
     simpl in C; now rewrite C).
Qed.


Lemma reflect_step_success (s : TaskStep) (r : str) :
  fst (reflect_step s r true) = set_result r (set_status completed s).
Proof. reflexivity. Qed.

(** The step a pass of the body leaves behind, for a selected step that
    satisfies the invariant. *)
Lemma attempted_step (cf : nat) (step : TaskStep) (r : str) (success : bool) :
  step_ok cf step -> status step = pending ->
  let step' := fst (reflect_step (set_status running step) r success) in
  let cf' := if success then 0 else S cf in
  view step' = (id step, status step', dependencies step)
  /\ step_ok cf' step'
  /\ used step' = S (used step)
  /\ (negb success && status_eqb (status step') failed && (cf' <? 3) = false).
Proof.
  intros (Hmax & Hnr & Hge & Hp & _) Hs.
  destruct (Hp Hs) as [H2 Hcf]. clear Hp.
  destruct success; intros step' cf'.
  - unfold step'. rewrite reflect_step_success.
    unfold view, step_ok, used. simpl. rewrite Hs. simpl.
    repeat split; try congruence; try lia.
  - destruct (reflect_step_failure (set_status running step) r)
      as (Ha & _ & Hst & Hi & _ & _ & _ & Hm & Hd).
    fold step' in Ha, Hst, Hi, Hm, Hd. simpl in Ha, Hst, Hi, Hm, Hd.
    rewrite Hmax in Hst.
    unfold view, step_ok, used. rewrite Hi, Hd, Hm, Ha, Hs.
    destruct (Z.geb_spec (attempts step + 1) 3) as [G|G];
      rewrite Hst; simpl.
    + repeat split; try congruence; try lia.
      apply Nat.ltb_ge. lia.
    + repeat split; try congruence; try lia.
Qed.

Lemma Inv_continue (st st' : LoopState) :
  Inv st -> loop_body agents handlers st = Continue st' ->
  Inv st' /\ length (steps (plan st')) = length (steps (plan st)).
Proof.
  intros (Hok & Hfresh & Hiter) H.
  destruct (loop_body_continue _ H)
    as (i & step & r & success & N & Hi & Hcf & Hsteps).
  destruct (get_next_step_nth _ N) as [Hn Hr].
  assert (Hs : status step = pending).
  { unfold runnable in Hr. apply andb_true_iff in Hr.
    now apply status_eqb_eq. }
  destruct (attempted_step r success (Hok i step Hn) Hs)
    as (Hv & Hok' & Hu & Hc).
  set (step' := fst (reflect_step (set_status running step) r success)) in *.
  rewrite Hcf in Hsteps. specialize (Hsteps Hc).
  split; [|rewrite Hsteps; apply length_update_nth].
  unfold Inv. rewrite Hsteps, Hcf, Hi.
  assert (Hi' : nth_error (update_nth i (fun _ => step') (steps (plan st))) i
                = Some step').
  { apply (nth_error_update_nth_eq (fun _ => step') _ _ Hn). }
  split; [|split].
  - (* every step is within its budget *)
    intros j t Ht. destruct (Nat.eq_dec i j) as [<-|Hij].
    + rewrite Hi' in Ht. inversion Ht; subst. exact Hok'.
    + rewrite nth_error_update_nth_neq in Ht by assumption.
      pose proof (Hok j t Ht) as (A1 & A2 & A3 & A4 & A5 & A6).
      assert (Hf : fresh t).
      { apply (Hfresh j t Ht). rewrite N. intro E. inversion E. lia. }
      split; [exact A1|]. split; [exact A2|]. split; [exact A3|].
      split; [|split; assumption].
      intro P. split; [now apply A4|].
      rewrite (Hf P). destruct success; lia.
  - (* only the selected step may be in the middle of its retries *)
    intros j t Ht Hnext. destruct (Nat.eq_dec i j) as [<-|Hij].
    + rewrite Hi' in Ht. inversion Ht; subst t.
      intro P. exfalso. apply Hnext.
      assert (V : map view (steps (plan st'))
                  = map view (steps (plan st))).
      { rewrite Hsteps.
        apply (map_update_nth_const view step' _ _ Hn).
        rewrite Hv. unfold view. now rewrite P, Hs. }
      destruct (get_next_step_view (plan st) (plan st') (eq_sym V) N)
        as [s'' N'].
      destruct (get_next_step_nth _ N') as [Hn' _].
      rewrite Hsteps, Hi' in Hn'. inversion Hn'; subst s''. exact N'.
    + rewrite nth_error_update_nth_neq in Ht by assumption.
      apply (Hfresh j t Ht). rewrite N. intro E. inversion E. lia.
  - (* every iteration is accounted for *)
    pose proof (work_update_nth (fun _ => step') _ _ Hn) as W.
    cbv beta in W. rewrite Hu in W. lia.
Qed.


Lemma has_pending_false (l : list TaskStep) :
  has_pending l = false <-> forall s, In s l -> status s <> pending.
Proof.
  unfold has_pending. split.
  - intros H s Hs E.
    assert (X : existsb (fun s => status_eqb (status s) pending) l = true).
    { apply existsb_exists. exists s. split; auto. now apply status_eqb_eq. }
    congruence.
  - intro H. destruct (existsb _ l) eqn:E; [|reflexivity].
    apply existsb_exists in E. destruct E as (s & Hs & E).
    apply status_eqb_eq in E. exfalso. exact (H s Hs E).
Qed.

Lemma fail_pending_deadlocked (l : list TaskStep) :
  Forall2 deadlocked l (fail_pending l).
Proof.
  induction l as [|s l IH]; simpl; constructor; auto.
  unfold deadlocked. destruct (status_eqb (status s) pending) eqn:E.
  - apply status_eqb_eq in E. split; [reflexivity|congruence].
  - apply status_eqb_neq in E. split; [congruence|reflexivity].
Qed.

Lemma fail_pending_none_pending (l : list TaskStep) :
  has_pending (fail_pending l) = false.
Proof.
  apply has_pending_false. unfold fail_pending. intros s Hs.
  apply in_map_iff in Hs. destruct Hs as (t & <- & _).
  destruct (status_eqb (status t) pending) eqn:E.
  - simpl. discriminate.
  - now apply status_eqb_neq.
Qed.

Lemma is_complete_none_pending (p : ExecutionPlan) :
  is_complete p = true -> has_pending (steps p) = false.
Proof.
  unfold is_complete. intro H. apply has_pending_false. intros s Hs E.
  rewrite forallb_forall in H. specialize (H s Hs).
  unfold is_final in H. rewrite E in H. discriminate.
Qed.

(** The loop stops through its [break] only with nothing pending. *)
Lemma loop_body_break (st st' : LoopState) :
  loop_body agents handlers st = Break st' ->
  has_pending (steps (plan st')) = false.
Proof.
  unfold loop_body.
  destruct (get_next_step (plan st)) as [[i step]|].
  - destruct (resolve_agent agents (agent_type step)); [|discriminate].
    destruct (handlers _ _ _ _); discriminate.
  - destruct (has_pending (steps (plan st))) eqn:P;
      intro H; injection H as <-.
    + simpl. apply fail_pending_none_pending.
    + exact P.
Qed.

(** Within the invariant, a pending step leaves room under the cap. *)
Lemma work_below_cap (cf : nat) (l : list TaskStep) :
  (forall j t, nth_error l j = Some t -> step_ok cf t) ->
  work l + count_status pending l <= 3 * length l.
Proof.
  unfold work, count_status.
  induction l as [|s l IH]; intro H; [simpl; lia|].
  assert (IH' : list_sum (map used l)
                + length (filter (fun s => status_eqb (status s) pending) l)
                <= 3 * length l).
  { apply IH. intros j t Ht. exact (H (S j) t Ht). }
  assert (B : used s + (if status_eqb (status s) pending then 1 else 0) <= 3).
  { destruct (H 0 s eq_refl) as (_ & A2 & A3 & A4 & A5 & A6).
    unfold used. destruct (status s) eqn:E; simpl.
    - destruct (A4 eq_refl). lia.
    - congruence.
    - specialize (A5 eq_refl). lia.
    - specialize (A6 eq_refl). lia. }
  cbn [map list_sum filter length].
  change (list_sum (used s :: map used l))
    with (used s + list_sum (map used l)).
  destruct (status_eqb (status s) pending) eqn:E; cbn [length]; lia.
Qed.

Lemma count_pending_zero (l : list TaskStep) :
  count_status pending l = 0 -> has_pending l = false.
Proof.
  unfold count_status, has_pending.
  induction l as [|s l IH]; simpl; auto.
  destruct (status_eqb (status s) pending); simpl; [discriminate|auto].
Qed.

Lemma loop_none_pending (fuel : nat) :
  forall st st',
    Inv st ->
    loop agents handlers fuel (length (steps (plan st)) * 4) st = Done st' ->
    has_pending (steps (plan st')) = false.
Proof.
  induction fuel as [|fuel IH]; intros st st' HI; simpl;
    destruct (negb (is_complete (plan st))
              && (iteration st <? length (steps (plan st)) * 4)) eqn:G.
  - discriminate.
  - intro H. injection H as <-. apply andb_false_iff in G.
    destruct G as [G|G].
    + apply is_complete_none_pending. now apply negb_false_iff.
    + apply Nat.ltb_ge in G. destruct HI as (Hok & _ & Hit).
      pose proof (work_below_cap _ Hok) as W.
      apply count_pending_zero.
      destruct (steps (plan st)); [reflexivity|]. simpl length in *. lia.
  - destruct (loop_body agents handlers st) as [st1|st1|st1 msg] eqn:B.
    + intro H. injection H as <-. exact (loop_body_break _ B).
    + destruct (Inv_continue HI B) as [HI1 HL]. rewrite <- HL.
      apply IH. exact HI1.
    + discriminate.
  - intro H. injection H as <-. apply andb_false_iff in G.
    destruct G as [G|G].
    + apply is_complete_none_pending. now apply negb_false_iff.
    + apply Nat.ltb_ge in G. destruct HI as (Hok & _ & Hit).
      pose proof (work_below_cap _ Hok) as W.
      apply count_pending_zero.
      destruct (steps (plan st)); [reflexivity|]. simpl length in *. lia.
Qed.

Lemma steps_from_fresh (tasks : list AgentTask) :
  forall k j t,
    nth_error (steps_from k tasks) j = Some t ->
    status t = pending /\ attempts t = 0%Z /\ max_attempts t = 3%Z.
Proof.
  induction tasks as [|a tasks IH]; intros k [|j] t H; simpl in H;
    try discriminate.
  - inversion H; subst. simpl. auto.
  - eauto.
Qed.

Lemma work_steps_from (tasks : list AgentTask) :
  forall k, work (steps_from k tasks) = 0.
Proof.
  unfold work. induction tasks as [|a tasks IH]; intro k; simpl; auto.
Qed.

Lemma Inv_initial (goal : str) (tasks : list AgentTask) :
  Inv (initial_state goal tasks).
Proof.
  unfold Inv, initial_state. simpl. split; [|split].
  - intros j t H. destruct (steps_from_fresh _ _ _ H) as (S1 & S2 & S3).
    unfold step_ok. rewrite S1, S2, S3.
    repeat split; try discriminate; lia.
  - intros j t H _ _. now destruct (steps_from_fresh _ _ _ H) as (_ & S2 & _).
  - now rewrite work_steps_from.
Qed.


Lemma reflect_at (p : ExecutionPlan) (i : nat) (step : TaskStep) (r : str)
  (success : bool) :
  nth_error (steps p) i = Some step ->
  reflect (with_steps p (update_nth i (set_status running) (steps p)))
    i r success
  = {| goal := goal p;
       steps :=
         update_nth i
           (fun _ => fst (reflect_step (set_status running step) r success))
           (steps p);
       reflection_log :=
         reflection_log p
           ++ [snd (reflect_step (set_status running step) r success)] |}.
Proof.
  intro Hn. unfold reflect. cbn [steps with_steps goal reflection_log].
  rewrite (@nth_error_update_nth_eq _ (set_status running) _ _ _ Hn).
  destruct (reflect_step (set_status running step) r success) as [s' line].
  cbn [fst snd]. now rewrite update_nth_twice.
Qed.

(** A pass of the body on a step whose handler fails, when no recovery
    step is due. *)
Lemma failed_pass (st : LoopState) (i : nat) (step : TaskStep) (key : str) :
  get_next_step (plan st) = Some (i, step) ->
  resolve_agent agents (agent_type step) = Some key ->
  is_failure
    (handlers (length (calls st)) key
       (with_steps (plan st)
          (update_nth i (set_status running) (steps (plan st)))) i) ->
  (attempts step + 1 >=? max_attempts step)%Z
  && (S (consecutive_failures st) <? 3) = false ->
  exists r memory,
    loop_body agents handlers st
    = Continue
        {| plan :=
             {| goal := goal (plan st);
                steps :=
                  update_nth i
                    (fun _ =>
                       fst (reflect_step (set_status running step) r false))
                    (steps (plan st));
                reflection_log :=
                  reflection_log (plan st)
                    ++ [snd (reflect_step (set_status running step) r false)]
             |};
           iteration := S (iteration st);
           consecutive_failures := S (consecutive_failures st);
           final_answer := final_answer st;
           execution_memory := memory;
           calls := calls st ++ [(id step, key)] |}.
Proof.
  intros N Hkey Hfail Hcond.
  destruct (get_next_step_nth _ N) as [Hn _].
  unfold loop_body. rewrite N, Hkey.
  destruct (handlers _ _ _ _) as [answer [|]|msg]; try contradiction;
    cbv beta iota zeta;
    match goal with
    | |- context [reflect _ i ?r false] => exists r
    end;
    eexists; do 2 f_equal;
    rewrite (@reflect_at _ _ _ _ false Hn); cbn [steps];
    rewrite (@nth_error_update_nth_eq _ _ _ _ _ Hn);
    match goal with
    | |- context [reflect_step (set_status running step) ?r false] =>
        destruct (reflect_step_failure (set_status running step) r)
          as (_ & _ & Hst & _)
    end;
    cbn [attempts max_attempts set_status] in Hst; rewrite Hst;
    apply andb_false_iff in Hcond; destruct Hcond as [C|C]; rewrite C;
    try reflexivity;
    destruct (negb false && status_eqb _ failed); reflexivity.
Qed.

Lemma loop_continue (fuel m : nat) (st st' : LoopState) :
  negb (is_complete (plan st)) && (iteration st <? m) = true ->
  loop_body agents handlers st = Continue st' ->
  loop agents handlers (S fuel) m st = loop agents handlers fuel m st'.
Proof. intros G B. simpl. now rewrite G, B. Qed.

Lemma loop_break (fuel m : nat) (st st' : LoopState) :
  negb (is_complete (plan st)) && (iteration st <? m) = true ->
  loop_body agents handlers st = Break st' ->
  loop agents handlers (S fuel) m st = Done st'.
Proof. intros G B. simpl. now rewrite G, B. Qed.

(** The deadlock branch: nothing is runnable and something is pending. *)
Lemma deadlock_pass (st : LoopState) :
  get_next_step (plan st) = None ->
  has_pending (steps (plan st)) = true ->
  loop_body agents handlers st
  = Break (with_plan st
             (with_steps (plan st) (fail_pending (steps (plan st))))).
Proof. intros N P. unfold loop_body. now rewrite N, P. Qed.

Lemma join_has_part (sep x : str) (parts : list str) :
  In x parts -> exists before after, join sep parts = before ++ x ++ after.
Proof.
  induction parts as [|p parts IH]; intro H; [contradiction|].
  destruct H as [->|H].
  - destruct parts as [|q parts].
    + exists [], []. simpl. now rewrite app_nil_r.
    + exists [], (sep ++ join sep (q :: parts)). reflexivity.
  - destruct (IH H) as (b & a & E). destruct parts as [|q parts];
      [contradiction|].
    exists (p ++ sep ++ b), a.
    change (join sep (p :: q :: parts))
      with (p ++ sep ++ join sep (q :: parts)).
    rewrite E. now rewrite <- !app_assoc.
Qed.

(** The end-to-end scenario: the first step fails three times, the
    second waits for it. *)
Lemma two_step_deadlock (key : str) (get_progress_text : ExecutionPlan -> str)
  (elapsed_text goal : str) :
  resolve_agent agents "coder" = Some key ->
  (forall n k p i, n < 3 -> is_failure (handlers n k p i)) ->
  exists st text s1 s2,
    run_loop agents handlers get_progress_text elapsed_text goal
      LoopExamples.two_tasks = Returned st text
    /\ steps (plan st) = [s1; s2]
    /\ status s1 = failed /\ attempts s1 = 3%Z
    /\ status s2 = failed /\ attempts s2 = 0%Z
    /\ error s2 = deadlock_error
    /\ calls st = [(1%Z, key); (1%Z, key); (1%Z, key)]
    /\ count_status completed (steps (plan st)) = 0
    /\ exists before after,
         text = before ++ "**Hasil:** 0/2 langkah selesai dalam "
                  ++ elapsed_text ++ " detik" ++ after.
Proof.
  intros Hkey Hfail.
  unfold run_loop.
  set (st0 := initial_state goal LoopExamples.two_tasks).
  change (length (steps (plan st0)) * 4) with 8.
  edestruct (@failed_pass st0 0) as (r1 & m1 & B1);
    [reflexivity | exact Hkey | apply Hfail; simpl; lia | reflexivity |].
  match type of B1 with
  | _ = Continue ?s =>
      let s' := eval vm_compute in s in
      assert (E : s = s') by (vm_compute; reflexivity);
      rewrite E in B1; clear E; set (st1 := s') in *
  end.
  rewrite (loop_continue 7 8 st0 eq_refl B1).
  edestruct (@failed_pass st1 0) as (r2 & m2 & B2);
    [reflexivity | exact Hkey | apply Hfail; simpl; lia | reflexivity |].
  match type of B2 with
  | _ = Continue ?s =>
      let s' := eval vm_compute in s in
      assert (E : s = s') by (vm_compute; reflexivity);
      rewrite E in B2; clear E; set (st2 := s') in *
  end.
  rewrite (loop_continue 6 8 st1 eq_refl B2).
  edestruct (@failed_pass st2 0) as (r3 & m3 & B3);
    [reflexivity | exact Hkey | apply Hfail; simpl; lia | reflexivity |].
  match type of B3 with
  | _ = Continue ?s =>
      let s' := eval vm_compute in s in
      assert (E : s = s') by (vm_compute; reflexivity);
      rewrite E in B3; clear E; set (st3 := s') in *
  end.
  rewrite (loop_continue 5 8 st2 eq_refl B3).
  rewrite (loop_break 4 8 st3 eq_refl (deadlock_pass st3 eq_refl eq_refl)).
  eexists. eexists. eexists. eexists.
  split; [reflexivity|].
  split; [reflexivity|].
  do 7 (split; [reflexivity|]).
  unfold summary.
  match goal with
  | |- exists _ _, join nl ?parts = _ =>
      destruct (@join_has_part nl
                  ("**Hasil:** 0/2 langkah selesai dalam "
                     ++ elapsed_text ++ " detik") parts)
        as (before & after & E)
  end.
  { right. right. left. reflexivity. }
  exists before, after. rewrite E. now rewrite <- !app_assoc.
Qed.

(** C5.  When nothing is runnable and a step is still pending, the loop
    body marks every pending step failed with the deadlock error, leaves
    the others alone, calls no handler and ends the loop.  When
    [run_loop] returns, no step of its plan is pending.  In the plan of
    two steps where the second needs the first and the first fails three
    times, the second is never handed to a handler, ends failed with the
    deadlock error, and the summary reports 0 of 2 steps. *)
Theorem deadlock_leaves_nothing_pending :
  (forall st,
      get_next_step (plan st) = None ->
      has_pending (steps (plan st)) = true ->
      exists st',
        loop_body agents handlers st = Break st'
        /\ Forall2 deadlocked (steps (plan st)) (steps (plan st'))
        /\ calls st' = calls st
        /\ (forall fuel m, iteration st < m ->
                           loop agents handlers (S fuel) m st = Done st'))
  /\ (forall get_progress_text elapsed_text goal tasks st text,
         run_loop agents handlers get_progress_text elapsed_text goal tasks
         = Returned st text ->
         forall s, In s (steps (plan st)) -> status s <> pending)
  /\ (forall key get_progress_text elapsed_text goal,
         resolve_agent agents "coder" = Some key ->
         (forall n k p i, n < 3 -> is_failure (handlers n k p i)) ->
         exists st text s1 s2,
           run_loop agents handlers get_progress_text elapsed_text goal
             LoopExamples.two_tasks = Returned st text
           /\ steps (plan st) = [s1; s2]
           /\ status s1 = failed /\ attempts s1 = 3%Z
           /\ status s2 = failed /\ attempts s2 = 0%Z
           /\ error s2 = deadlock_error
           /\ calls st = [(1%Z, key); (1%Z, key); (1%Z, key)]
           /\ count_status completed (steps (plan st)) = 0
           /\ exists before after,
                text = before ++ "**Hasil:** 0/2 langkah selesai dalam "
                         ++ elapsed_text ++ " detik" ++ after).
Proof.
  split; [|split].
  - intros st N P. eexists. split; [exact (deadlock_pass st N P)|].
    split; [apply fail_pending_deadlocked|]. split; [reflexivity|].
    intros fuel m Hm. apply loop_break; [|exact (deadlock_pass st N P)].
    apply andb_true_iff. split; [|now apply Nat.ltb_lt].
    apply negb_true_iff. destruct (is_complete (plan st)) eqn:C; auto.
    apply is_complete_none_pending in C. congruence.
  - intros gpt et goal tasks st text H. unfold run_loop in H.
    destruct (loop _ _ _ _ _) as [st'| |] eqn:L; try discriminate.
    injection H as <- _.
    apply has_pending_false.
    exact (loop_none_pending _ (Inv_initial goal tasks) L).
  - intros. now apply two_step_deadlock.
Qed.

End Deadlock.

Lemma deadlock_leaves_nothing_pending_witness :
  exists st text s1 s2,
    Orchestrator.run_loop LoopExamples.two_agents LoopExamples.always_fail
      (fun _ => "(progress)" : str) "0.0" "goal" LoopExamples.two_tasks
    = Orchestrator.Returned st text
    /\ Orchestrator.steps (Orchestrator.plan st) = [s1; s2]
    /\ Orchestrator.status s1 = Orchestrator.failed
    /\ Orchestrator.status s2 = Orchestrator.failed
    /\ Orchestrator.error s2 = Orchestrator.deadlock_error.
Proof.
  destruct (deadlock_leaves_nothing_pending LoopExamples.two_agents
              LoopExamples.always_fail) as (_ & _ & H).
  destruct (H "coder" (fun _ => "(progress)" : str) "0.0" "goal")
    as (st & text & s1 & s2 & R & S & F1 & _ & F2 & _ & E2 & _).
  - reflexivity.
  - intros. exact I.
  - exists st, text, s1, s2. auto.
Defined.

(* ================================================================== *)
(** * The sandbox facade                                               *)
(* ================================================================== *)

Section SandboxFacade.
Import Sandbox SandboxSpec.
Variable world : World.

Lemma dict_get_lang_map_none (key : str) :
  ~ In key supported_keys -> dict_get (lang_map world) key = None.
Proof.
  intro H. unfold lang_map, dict_get.
  repeat match goal with
         | |- context [Text.eqb ?k key] =>
             let E := fresh "E" in
             destruct (Text.eqb k key) eqn:E;
             [ apply text_eqb_eq in E; exfalso; apply H; rewrite <- E;
               simpl; tauto | ]
         end.
  reflexivity.
Qed.

(** C10.  For a language that, lower-cased and stripped, is none of the
    eight runner keys, [Sandbox.run] returns (it does not raise) a result
    with [success], [blocked] and [timed_out] false, no output, zero
    execution time and an error that begins with [Unsupported language];
    it starts no process and leaves the execution history as it was. *)
Theorem unsupported_language_is_reported
  (self : SandboxObj) (code language : str) (tr : list Event) :
  ~ In (strip (lower language)) supported_keys ->
  exists r,
    run world self code language tr = (Ok (r, self), tr)
    /\ success r = false /\ blocked r = false /\ timed_out r = false
    /\ execution_time r = 0%Q /\ output r = []
    /\ (exists rest, errors r = "Unsupported language" ++ rest)
    /\ Sandbox.language r = strip (lower language).
Proof.
  intro H. unfold run. rewrite (dict_get_lang_map_none H).
  eexists. split; [reflexivity|]. cbn [success blocked timed_out
    execution_time output errors Sandbox.language mkResult].
  repeat split. eexists. reflexivity.
Qed.

End SandboxFacade.

Lemma unsupported_language_is_reported_witness :
  exists r,
    Sandbox.run SandboxSpec.quiet_world SandboxSpec.fresh_sandbox
      "puts 1" " Ruby " []
    = (Sandbox.Ok (r, SandboxSpec.fresh_sandbox), [])
    /\ Sandbox.success r = false /\ Sandbox.blocked r = false.
Proof.
  destruct (@unsupported_language_is_reported SandboxSpec.quiet_world
              SandboxSpec.fresh_sandbox "puts 1" " Ruby " [])
    as (r & R & S & B & _).
  - vm_compute. intuition discriminate.
  - exists r. auto.
Defined.

(* ================================================================== *)
(** * Shell commands: the three policies                               *)
(* ================================================================== *)

Section ShellPolicies.
Import Sandbox SandboxSpec ShellSpec.
Variable world : World.

Lemma execute_shell_raw_runs (self : SafeExecutor) (command : str)
  (tr : list Event) :
  _execute_shell_raw world self command tr
  = (Ok (shell_result self (world tr (RunShell command))),
     tr ++ [RunShell command]).
Proof.
  unfold _execute_shell_raw, bind, request, shell_result.
  destruct (world tr (RunShell command)) as [rc out err t|out t|msg t];
    try reflexivity.
  destruct (_truncate_output out); reflexivity.
Qed.




End ShellPolicies.


(* ================================================================== *)
(** * Output governance                                                *)
(* ================================================================== *)

Section OutputCap.
Import Sandbox SandboxSpec ShellSpec OutputSpec.
Variable world : World.

Lemma truncate_long (text : str) :
  (Z.of_nat (length text) > MAX_OUTPUT_LENGTH)%Z ->
  _truncate_output text
  = (firstn (Z.to_nat MAX_OUTPUT_LENGTH) text
       ++ truncation_note (Z.of_nat (length text) - MAX_OUTPUT_LENGTH),
     true).
Proof.
  intro H. unfold _truncate_output, truncation_note.
  destruct (Z.gtb_spec (Z.of_nat (length text)) MAX_OUTPUT_LENGTH);
    [reflexivity|lia].
Qed.

Lemma truncate_short (text : str) :
  (Z.of_nat (length text) <= MAX_OUTPUT_LENGTH)%Z ->
  _truncate_output text = (text, false).
Proof.
  intro H. unfold _truncate_output.
  destruct (Z.gtb_spec (Z.of_nat (length text)) MAX_OUTPUT_LENGTH);
    [lia|reflexivity].
Qed.

(** C8, as the code has it.  The captured standard output of a process
    that exits is capped at 50,000 characters: a longer text is cut to
    its first 50,000 characters, followed by a note with the exact number
    of characters left out, and [truncated] is set; a text within the cap
    is returned as it is, with [truncated] false.  The captured standard
    error is returned whole, and so is the partial output of a process
    killed at the timeout. *)
Theorem stdout_is_capped :
  (forall text,
      (Z.of_nat (length text) > MAX_OUTPUT_LENGTH)%Z ->
      _truncate_output text
      = (firstn (Z.to_nat MAX_OUTPUT_LENGTH) text
           ++ truncation_note (Z.of_nat (length text) - MAX_OUTPUT_LENGTH),
         true)
      /\ length (firstn (Z.to_nat MAX_OUTPUT_LENGTH) text)
         = Z.to_nat MAX_OUTPUT_LENGTH)
  /\ (forall text,
         (Z.of_nat (length text) <= MAX_OUTPUT_LENGTH)%Z ->
         _truncate_output text = (text, false))
  /\ (forall self code language config tr rc out err t,
         world tr (RunFile language code) = Exited rc out err t ->
         exists r,
           _run_code_subprocess world self code language config tr
           = (Ok r, tr ++ [RunFile language code])
           /\ output r = fst (_truncate_output out)
           /\ truncated r = snd (_truncate_output out)
           /\ errors r = err)
  /\ (forall self command tr rc out err t,
         world tr (RunShell command) = Exited rc out err t ->
         exists r,
           _execute_shell_raw world self command tr
           = (Ok r, tr ++ [RunShell command])
           /\ output r = fst (_truncate_output out)
           /\ truncated r = snd (_truncate_output out)
           /\ errors r = err)
  /\ (forall self code language config tr out t,
         world tr (RunFile language code) = TimedOut out t ->
         exists r,
           _run_code_subprocess world self code language config tr
           = (Ok r, tr ++ [RunFile language code])
           /\ output r = out /\ truncated r = false /\ timed_out r = true).
Proof.
  split; [|split; [|split; [|split]]].
  - intros text H. split; [now apply truncate_long|].
    apply firstn_length_le. unfold MAX_OUTPUT_LENGTH in *. lia.
  - exact truncate_short.
  - intros self code language config tr rc out err t W.
    unfold _run_code_subprocess, bind, request. rewrite W.
    destruct (_truncate_output out) as [o b]. eexists.
    split; [reflexivity|]. repeat split.
  - intros self command tr rc out err t W.
    rewrite execute_shell_raw_runs, W. eexists.
    split; [reflexivity|]. repeat split.
  - intros self code language config tr out t W.
    unfold _run_code_subprocess, bind, request. rewrite W.
    eexists. split; [reflexivity|]. repeat split.
Qed.

End OutputCap.

Lemma stdout_is_capped_witness :
  Sandbox._truncate_output (repeat "x"%char (Z.to_nat 50003))
  = (firstn (Z.to_nat Sandbox.MAX_OUTPUT_LENGTH) (repeat "x"%char (Z.to_nat 50003))
       ++ OutputSpec.truncation_note
            (Z.of_nat (length (repeat "x"%char (Z.to_nat 50003)))
             - Sandbox.MAX_OUTPUT_LENGTH),
     true).
Proof.
  apply (proj1 (stdout_is_capped SandboxSpec.quiet_world)).
  vm_compute. reflexivity.
Defined.

Lemma run_with_stderr (err : str) :
  Sandbox.run (OutputSpec.stderr_world err) SandboxSpec.fresh_sandbox
    "print(1)" "python" []
  = (Sandbox.Ok
       (Sandbox.mkResult true [] err 1 "python",
        Sandbox.record SandboxSpec.fresh_sandbox "python"
          (Sandbox.mkResult true [] err 1 "python")),
     [Sandbox.RunFile "python" "print(1)"]).
Proof. vm_compute. reflexivity. Qed.

(** C8 as the specification states it fails for the standard error: a
    process that writes 50,001 characters to it gets them all back, and
    [truncated] stays false. *)
Lemma stderr_is_not_capped :
  exists r sb,
    Sandbox.run (OutputSpec.stderr_world OutputSpec.long_text)
      SandboxSpec.fresh_sandbox "print(1)" "python" []
    = (Sandbox.Ok (r, sb), [Sandbox.RunFile "python" "print(1)"])
    /\ (Z.of_nat (length (Sandbox.errors r)) > Sandbox.MAX_OUTPUT_LENGTH)%Z
    /\ Sandbox.errors r = OutputSpec.long_text
    /\ Sandbox.truncated r = false.
Proof.
  eexists. eexists. split; [apply run_with_stderr|].
  split; [|split; reflexivity].
  cbn [Sandbox.errors Sandbox.mkResult]. unfold OutputSpec.long_text.
  rewrite repeat_length. vm_compute. reflexivity.
Qed.

(* ================================================================== *)
(** * Server code is saved, not run                                    *)
(* ================================================================== *)

Section ServerCode.
Import Sandbox SandboxSpec ServerSpec.
Variable world : World.

Lemma filter_has (A : Type) (f : A -> bool) (x : A) (l : list A) :
  In x l -> f x = true -> 1 <= length (filter f l).
Proof.
  intros Hin Hf.
  assert (H : In x (filter f l)) by (apply filter_In; auto).
  destruct (filter f l); [contradiction|simpl; lia].
Qed.

Lemma in_firstn (A : Type) (x : A) (n : nat) (l : list A) :
  In x (firstn n l) -> In x l.
Proof.
  intro H. rewrite <- (firstn_skipn n l). apply in_or_app. now left.
Qed.

Lemma is_server_code_count (code : str) :
  _is_server_code code = true <-> 2 <= indicator_count code.
Proof.
  unfold _is_server_code, indicator_count. destruct code as [|c code].
  - split; [discriminate|]. vm_compute. lia.
  - apply Nat.leb_le.
Qed.

Lemma run_python_unfold (self : SandboxObj) (code language : str)
  (tr : list Event) :
  strip (lower language) = "python" ->
  run world self code language tr = run_python world self code tr.
Proof. intro H. unfold run. cbv zeta. rewrite H. reflexivity. Qed.

Lemma import_and_start_count (code : str) (p q : regex) :
  In p framework_imports -> In q server_start_calls ->
  matches p code = true -> matches q code = true ->
  2 <= indicator_count code.
Proof.
  intros Hp Hq Mp Mq. unfold indicator_count.
  rewrite <- (firstn_skipn 6 server_indicators), filter_app, length_app.
  assert (1 <= length (filter (fun p => matches p code)
                         (firstn 6 server_indicators))).
  { apply (filter_has _ p); auto. unfold framework_imports in Hp.
    simpl in Hp |- *. tauto. }
  assert (1 <= length (filter (fun p => matches p code)
                         (skipn 6 server_indicators))).
  { apply (filter_has _ q); auto. unfold server_start_calls in Hq.
    now apply in_firstn in Hq. }
  lia.
Qed.

(** C6, as the code has it.  A python snippet that matches at least two
    of the ten indicator patterns (framework imports, [app = Flask(] or
    [app = FastAPI(], [app.run(] or [uvicorn.run(], route decorators) is
    not run: the sandbox returns at once a result with [success] true,
    no errors and zero execution time.  In particular a snippet with a
    framework import and an [app.run(] or [uvicorn.run(] call is such. *)
Theorem server_code_is_not_run :
  (forall self code language tr,
      strip (lower language) = "python" ->
      2 <= indicator_count code ->
      run world self code language tr
      = (Ok (server_code_result "python",
             record self "python" (server_code_result "python")), tr)
      /\ success (server_code_result "python") = true
      /\ errors (server_code_result "python") = []
      /\ execution_time (server_code_result "python") = 0%Q
      /\ blocked (server_code_result "python") = false)
  /\ (forall code p q,
         In p framework_imports -> In q server_start_calls ->
         matches p code = true -> matches q code = true ->
         2 <= indicator_count code).
Proof.
  split.
  - intros self code language tr L C.
    apply is_server_code_count in C.
    split; [|repeat split].
    rewrite (@run_python_unfold self code language tr L).
    unfold run_python, execute_python, _execute_code, bind.
    rewrite C. reflexivity.
  - exact import_and_start_count.
Qed.

End ServerCode.

Lemma server_code_is_not_run_witness :
  Sandbox.run SandboxSpec.failing_world SandboxSpec.fresh_sandbox
    ("from flask import Flask" ++ Sandbox.nl ++ "app.run()") "python" []
  = (Sandbox.Ok
       (Sandbox.server_code_result "python",
        Sandbox.record SandboxSpec.fresh_sandbox "python"
          (Sandbox.server_code_result "python")), []).
Proof.
  apply (proj1 (server_code_is_not_run SandboxSpec.failing_world)).
  - reflexivity.
  - apply (proj2 (server_code_is_not_run SandboxSpec.failing_world)
             ("from flask import Flask" ++ Sandbox.nl ++ "app.run()")
             (cat [Lit "from"; Plus CSpace; Lit "flask"; Plus CSpace;
                   Lit "import"])
             (cat [Lit "app.run"; Star CSpace; Lit "("])).
    + simpl. tauto.
    + simpl. tauto.
    + vm_compute. reflexivity.
    + vm_compute. reflexivity.
Defined.

(** C6 as the specification states it, with any [.run(] call as an
    indicator, fails: a snippet with a framework import and a [.run(]
    call on another object matches one indicator only, so it is stripped
    of that line and run, and its result is the interpreter's. *)
Lemma import_and_run_call_is_executed :
  In (cat [Lit "import"; Plus CSpace; Lit "flask"])
    ServerSpec.framework_imports
  /\ matches (cat [Lit "import"; Plus CSpace; Lit "flask"])
       ServerSpec.flask_with_run = true
  /\ In (cat [Lit ".run"; Star CSpace; Lit "("]) Sandbox.SERVER_START_PATTERNS
  /\ matches (cat [Lit ".run"; Star CSpace; Lit "("])
       ServerSpec.flask_with_run = true
  /\ exists r sb,
       Sandbox.run SandboxSpec.failing_world SandboxSpec.fresh_sandbox
         ServerSpec.flask_with_run "python" []
       = (Sandbox.Ok (r, sb),
          [Sandbox.RunFile "python"
             ("import flask" ++ Sandbox.nl
                ++ "# [sandbox] server start removed: server.run()")])
       /\ Sandbox.success r = false.
Proof.
  split; [simpl; tauto|]. split; [vm_compute; reflexivity|].
  split; [simpl; tauto|]. split; [vm_compute; reflexivity|].
  eexists. eexists. split; [vm_compute; reflexivity|]. reflexivity.
Qed.

(* ================================================================== *)
(** * Matching: where a pattern can match                              *)
(* ================================================================== *)

Unset Implicit Arguments.

Section Matching.
Import DenylistSpec.

Lemma last_of_nil (p : option ascii) : last_of [] p = p.
Proof. reflexivity. Qed.

Lemma last_of_app (x a : str) (p : option ascii) :
  last_of (x ++ a) p = last_of a (last_of x p).
Proof.
  unfold last_of. rewrite rev_app_distr.
  destruct (rev a) as [|c r]; reflexivity.
Qed.

Lemma last_of_cons (c : ascii) (a : str) (p : option ascii) :
  last_of (c :: a) p = last_of a (Some c).
Proof. exact (last_of_app [c] a p). Qed.

Lemma last_of_nonempty (a : str) (p q : option ascii) :
  a <> [] -> last_of a p = last_of a q.
Proof.
  intro H. unfold last_of. destruct (rev a) as [|c r] eqn:E; [|reflexivity].
  exfalso. apply H. rewrite <- (rev_involutive a), E. reflexivity.
Qed.

(** A search succeeds exactly when the pattern matches at some position. *)
Lemma search_from_found (r : regex) (s : str) :
  forall prev,
    search_from r prev s <> None
    <-> exists a b, s = a ++ b /\ run r (last_of a prev, b) <> [].
Proof.
  induction s as [|c t IH]; intro prev; simpl.
  - match goal with
    | |- context [run r ?p] => destruct (run r p) as [|[q rest] l] eqn:E
    end.
    + split; [intro X; congruence|]. intros (a & b & Hs & Hr).
      destruct a; [|discriminate]. destruct b; [|discriminate].
      exfalso. exact (Hr E).
    + split; [|discriminate]. intros _. exists [], []. simpl.
      split; [reflexivity|]. intro X.
      discriminate (eq_trans (eq_sym E) X).
  - match goal with
    | |- context [run r ?p] => destruct (run r p) as [|[q rest] l] eqn:E
    end.
    + rewrite IH. split.
      * intros (a & b & Hs & Hr). exists (c :: a), b.
        rewrite last_of_cons. split; [now rewrite Hs|exact Hr].
      * intros (a & b & Hs & Hr). destruct a as [|x a].
        -- simpl in Hs. subst b. exfalso. exact (Hr E).
        -- inversion Hs; subst. rewrite last_of_cons in Hr. eauto.
    + split; [|discriminate]. intros _. exists [], (c :: t). simpl.
      split; [reflexivity|]. intro X.
      discriminate (eq_trans (eq_sym E) X).
Qed.

Lemma matches_found (r : regex) (s : str) :
  matches r s = true
  <-> exists a b, s = a ++ b /\ run r (last_of a None, b) <> [].
Proof.
  unfold matches, re_search. rewrite <- search_from_found.
  destruct (search_from r None s); split; intro H; congruence.
Qed.

Lemma flat_map_nonempty (A B : Type) (f : A -> list B) (l : list A) :
  flat_map f l <> [] <-> exists x, In x l /\ f x <> [].
Proof.
  induction l as [|y l IH]; simpl.
  - split; [intro X; congruence|]. intros (x & [] & _).
  - split.
    + intro H. destruct (f y) eqn:E.
      * simpl in H. apply IH in H. destruct H as (x & Hx & Hf). eauto.
      * exists y. split; [now left|]. congruence.
    + intros (x & [->|Hx] & Hf).
      * destruct (f x); [congruence|discriminate].
      * intro H. apply app_eq_nil in H. destruct H as [_ H].
        revert H. apply IH. eauto.
Qed.

Lemma run_boundary_then (r : regex) (p : pos) :
  run (Seq WordB r) p <> []
  <-> xorb (is_word_opt (fst p)) (is_word_opt (hd_error (snd p))) = true
      /\ run r p <> [].
Proof.
  simpl. destruct (xorb _ _); simpl.
  - rewrite app_nil_r. split; [auto|tauto].
  - split; [intro X; congruence|]. intros [H _]. discriminate.
Qed.

Lemma run_literal_then (w : str) (r : regex) (p : pos) :
  run (Seq (Lit w) r) p <> []
  <-> exists rest, snd p = w ++ rest
                   /\ run r (last_of w (fst p), rest) <> [].
Proof.
  simpl. destruct (strip_prefix w (snd p)) as [rest|] eqn:E; simpl.
  - apply strip_prefix_some in E. rewrite app_nil_r. split.
    + intro H. eauto.
    + intros (rest' & E' & H). rewrite E in E'.
      apply app_inv_head in E'. now subst.
  - split; [intro X; congruence|]. intros (rest & E' & _).
    apply strip_prefix_some in E'. congruence.
Qed.

Lemma run_boundary (p : pos) :
  run WordB p <> []
  <-> xorb (is_word_opt (fst p)) (is_word_opt (hd_error (snd p))) = true.
Proof.
  simpl. destruct (xorb _ _); split; intro H; congruence.
Qed.

Lemma star_run_nonempty (k : cclass) (s : str) :
  forall prev, star_run k prev s <> [].
Proof.
  induction s as [|c t IH]; intro prev; simpl; [discriminate|].
  destruct (cls k c); [|discriminate].
  intro H. apply app_eq_nil in H. destruct H as [_ H]. discriminate.
Qed.

Lemma run_plus (k : cclass) (p : pos) :
  run (Plus k) p <> []
  <-> exists c, hd_error (snd p) = Some c /\ cls k c = true.
Proof.
  simpl. destruct (snd p) as [|c t]; simpl.
  - split; [intro X; congruence|]. intros (c & H & _). discriminate.
  - destruct (cls k c) eqn:E.
    + split; [eauto|]. intros _. apply star_run_nonempty.
    + split; [intro X; congruence|]. intros (c' & H & H'). congruence.
Qed.

(** After a word character, a greedy run of word characters always ends
    at a word boundary. *)
Lemma word_run_then_boundary (s : str) :
  forall c, is_word c = true ->
            run (Seq (Star CWord) WordB) (Some c, s) <> [].
Proof.
  induction s as [|x t IH]; intros c Hc.
  - simpl. rewrite Hc. discriminate.
  - specialize (IH x). simpl in *. destruct (is_word x) eqn:Ex.
    + rewrite flat_map_app. intro H. apply app_eq_nil in H.
      destruct H as [H _]. revert H. now apply IH.
    + simpl. rewrite Hc, Ex. discriminate.
Qed.

End Matching.

Section SpawnPatterns.
Import DenylistSpec.

Lemma space_not_word (c : ascii) : is_space c = true -> is_word c = false.
Proof.
  destruct c as [[] [] [] [] [] [] [] []]; vm_compute; intro H;
    first [reflexivity | discriminate].
Qed.

Lemma blind_not_word : blind not_word.
Proof.
  intros c H. unfold not_word. simpl. now rewrite (space_not_word c H).
Qed.

Lemma blind_anything : blind anything.
Proof. intros c H. reflexivity. Qed.

Lemma blind_is_word : blind is_word_opt.
Proof. intros c H. simpl. now apply space_not_word. Qed.

Lemma hd_error_app (w rest : str) :
  w <> [] -> hd_error (w ++ rest) = hd_error w.
Proof. destruct w; [congruence|reflexivity]. Qed.

Lemma word_head_nonempty (w : str) :
  is_word_opt (hd_error w) = true -> w <> [].
Proof. destruct w; [discriminate|discriminate]. Qed.

Lemma xorb_true_r_eq (x : bool) : xorb x true = true <-> negb x = true.
Proof. destruct x; simpl; tauto. Qed.

Lemma xorb_true_l_eq (x : bool) : xorb true x = true <-> negb x = true.
Proof. destruct x; simpl; tauto. Qed.

(** [\bw\b], for a [w] that begins and ends with a word character. *)
Lemma word_pattern_occurs (w s : str) :
  is_word_opt (hd_error w) = true ->
  (forall pv, is_word_opt (last_of w pv) = true) ->
  (matches (Sandbox.word w) s = true <-> occurs not_word w not_word s).
Proof.
  intros Hh Hl. pose proof (word_head_nonempty w Hh) as Hne.
  rewrite matches_found. unfold occurs, Sandbox.word, not_word. cbn [cat].
  split.
  - intros (a & b & Hs & Hr).
    apply run_boundary_then in Hr. destruct Hr as [X1 Hr].
    apply run_literal_then in Hr. destruct Hr as (rest & Hb & Hr).
    apply run_boundary in Hr. cbn [fst snd] in *. subst b.
    rewrite (hd_error_app w rest Hne), Hh in X1. rewrite Hl in Hr.
    exists a, rest. split; [exact Hs|].
    split; [now apply xorb_true_r_eq|now apply xorb_true_l_eq].
  - intros (a & b & Hs & Hp & Hq). exists a, (w ++ b).
    split; [exact Hs|].
    apply run_boundary_then. cbn [fst snd].
    rewrite (hd_error_app w b Hne), Hh.
    split; [now apply xorb_true_r_eq|].
    apply run_literal_then. exists b. split; [reflexivity|].
    apply run_boundary. cbn [fst snd]. rewrite Hl.
    now apply xorb_true_l_eq.
Qed.

(** [\bw\w*\b], for a [w] that begins and ends with a word character:
    the boundary at the end is always found. *)
Lemma prefix_pattern_occurs (w s : str) :
  is_word_opt (hd_error w) = true ->
  (forall pv, is_word_opt (last_of w pv) = true) ->
  (matches (cat [WordB; Lit w; Star CWord; WordB]) s = true
   <-> occurs not_word w anything s).
Proof.
  intros Hh Hl. pose proof (word_head_nonempty w Hh) as Hne.
  rewrite matches_found. unfold occurs, not_word, anything. cbn [cat].
  split.
  - intros (a & b & Hs & Hr).
    apply run_boundary_then in Hr. destruct Hr as [X1 Hr].
    apply run_literal_then in Hr. destruct Hr as (rest & Hb & Hr).
    cbn [fst snd] in *. subst b.
    rewrite (hd_error_app w rest Hne), Hh in X1.
    exists a, rest. split; [exact Hs|].
    split; [now apply xorb_true_r_eq|reflexivity].
  - intros (a & b & Hs & Hp & _). exists a, (w ++ b).
    split; [exact Hs|].
    apply run_boundary_then. cbn [fst snd].
    rewrite (hd_error_app w b Hne), Hh.
    split; [now apply xorb_true_r_eq|].
    apply run_literal_then. exists b. split; [reflexivity|].
    cbn [fst]. specialize (Hl (last_of a None)).
    destruct (last_of w (last_of a None)) as [c|]; [|discriminate].
    now apply word_run_then_boundary.
Qed.

(** [\bw\w+], for a [w] that begins with a word character. *)
Lemma dotted_pattern_occurs (w s : str) :
  is_word_opt (hd_error w) = true ->
  (matches (cat [WordB; Lit w; Plus CWord]) s = true
   <-> occurs not_word w is_word_opt s).
Proof.
  intros Hh. pose proof (word_head_nonempty w Hh) as Hne.
  rewrite matches_found. unfold occurs, not_word. cbn [cat].
  split.
  - intros (a & b & Hs & Hr).
    apply run_boundary_then in Hr. destruct Hr as [X1 Hr].
    apply run_literal_then in Hr. destruct Hr as (rest & Hb & Hr).
    apply run_plus in Hr. destruct Hr as (c & Hc & Hw).
    cbn [fst snd] in *. subst b.
    rewrite (hd_error_app w rest Hne), Hh in X1.
    exists a, rest. split; [exact Hs|].
    split; [now apply xorb_true_r_eq|]. rewrite Hc. exact Hw.
  - intros (a & b & Hs & Hp & Hq). exists a, (w ++ b).
    split; [exact Hs|].
    apply run_boundary_then. cbn [fst snd].
    rewrite (hd_error_app w b Hne), Hh.
    split; [now apply xorb_true_r_eq|].
    apply run_literal_then. exists b. split; [reflexivity|].
    apply run_plus. cbn [snd].
    destruct (hd_error b) as [c|]; [|discriminate]. eauto.
Qed.

(** Each spawn pattern looks for a token, after a character that is not a
    word character and before one of a kind that white space is not. *)
Lemma spawn_pattern_token (p : regex) :
  In p spawn_patterns ->
  exists w post,
    token w /\ blind post
    /\ forall s, matches p s = true <-> occurs not_word w post s.
Proof.
  unfold spawn_patterns. simpl.
  intros [<-|[<-|[<-|[<-|[<-|[]]]]]].
  - exists "os.system", not_word. split; [split; [discriminate|reflexivity]|].
    split; [exact blind_not_word|]. intro s.
    apply word_pattern_occurs; [reflexivity|intro; reflexivity].
  - exists "os.popen", not_word. split; [split; [discriminate|reflexivity]|].
    split; [exact blind_not_word|]. intro s.
    apply word_pattern_occurs; [reflexivity|intro; reflexivity].
  - exists "os.exec", anything. split; [split; [discriminate|reflexivity]|].
    split; [exact blind_anything|]. intro s.
    apply prefix_pattern_occurs; [reflexivity|intro; reflexivity].
  - exists "os.spawn", anything. split; [split; [discriminate|reflexivity]|].
    split; [exact blind_anything|]. intro s.
    apply prefix_pattern_occurs; [reflexivity|intro; reflexivity].
  - exists "subprocess.", is_word_opt.
    split; [split; [discriminate|reflexivity]|].
    split; [exact blind_is_word|]. intro s.
    apply dotted_pattern_occurs. reflexivity.
Qed.

End SpawnPatterns.

(* ================================================================== *)
(** * Stripping server starts keeps every token of the snippet         *)
(* ================================================================== *)

Section StripKeepsTokens.
Import DenylistSpec.

Lemma split_lines_nonempty (s : str) : split_lines s <> [].
Proof.
  induction s as [|c t IH]; simpl; [discriminate|].
  destruct (Ascii.eqb c newline); [discriminate|].
  destruct (split_lines t); [contradiction|discriminate].
Qed.

Lemma join_cons (sep l : str) (ls : list str) :
  ls <> [] -> join sep (l :: ls) = l ++ sep ++ join sep ls.
Proof. destruct ls; [congruence|reflexivity]. Qed.

Lemma join_split_lines (s : str) : join [newline] (split_lines s) = s.
Proof.
  induction s as [|c t IH]; [reflexivity|]. simpl split_lines.
  pose proof (split_lines_nonempty t) as Hne.
  destruct (Ascii.eqb c newline) eqn:E.
  - apply Ascii.eqb_eq in E. subst c.
    rewrite (join_cons _ _ _ Hne), IH. reflexivity.
  - destruct (split_lines t) as [|l ls]; [contradiction|].
    destruct ls as [|l2 ls].
    + simpl in *. now rewrite IH.
    + rewrite join_cons by discriminate.
      rewrite join_cons in IH by discriminate.
      rewrite <- IH. reflexivity.
Qed.

Lemma blind_spacey (q : option ascii -> bool) (o : option ascii) :
  blind q -> spacey o -> q o = q None.
Proof. intros B S. destruct o as [c|]; [now apply B|reflexivity]. Qed.

Lemma token_no_space (w : str) (c : ascii) :
  token w -> In c w -> is_space c = false.
Proof.
  intros [_ H] Hin. rewrite forallb_forall in H. specialize (H c Hin).
  now apply negb_true_iff.
Qed.

Lemma token_head (w : str) :
  token w -> exists h t, w = h :: t /\ is_space h = false.
Proof.
  intros T. destruct w as [|h t]; [destruct T; congruence|].
  exists h, t. split; [reflexivity|].
  apply (token_no_space _ _ T). now left.
Qed.

Lemma token_last (w : str) :
  token w -> exists w0 t, w = w0 ++ [t] /\ is_space t = false.
Proof.
  intros T. destruct (exists_last (proj1 T)) as (w0 & t & E).
  exists w0, t. split; [exact E|].
  apply (token_no_space _ _ T). rewrite E. apply in_or_app. right. now left.
Qed.

(** An occurrence survives text put before it, if that text ends white. *)
Lemma occurs_after (pre post : option ascii -> bool) (w p l : str) :
  blind pre -> ends_white p ->
  occurs pre w post l -> occurs pre w post (p ++ l).
Proof.
  intros B (c & Hc & Sc) (a & b & Hs & Hp & Hq).
  exists (p ++ a), b. split; [now rewrite Hs, app_assoc|].
  split; [|exact Hq]. rewrite last_of_app, Hc.
  destruct a as [|x a].
  - rewrite last_of_nil in *. now rewrite (B c Sc).
  - rewrite (last_of_nonempty (x :: a) (Some c) None) by discriminate.
    exact Hp.
Qed.

(** An occurrence survives text put after it, if that text begins white. *)
Lemma occurs_before (pre post : option ascii -> bool) (w l z : str) :
  blind post -> spacey (hd_error z) ->
  occurs pre w post l -> occurs pre w post (l ++ z).
Proof.
  intros B S (a & b & Hs & Hp & Hq).
  exists a, (b ++ z). split; [now rewrite Hs, <- !app_assoc|].
  split; [exact Hp|]. destruct b as [|x b]; [|exact Hq].
  simpl in *. now rewrite (blind_spacey _ _ B S).
Qed.

(** An occurrence of a token lies on one side of a newline. *)
Lemma occurs_across_newline (pre post : option ascii -> bool) (w x y : str) :
  token w -> blind pre -> blind post ->
  occurs pre w post (x ++ newline :: y) ->
  occurs pre w post x \/ occurs pre w post y.
Proof.
  intros T Bp Bq (a & b & Hs & Hp & Hq).
  assert (Sn : is_space newline = true) by reflexivity.
  apply app_eq_app in Hs. destruct Hs as (l & [[Hx Hw]|[Ha Hy]]).
  - left. apply app_eq_app in Hw. destruct Hw as (m & [[Hw Hy]|[Hl Hb]]).
    + destruct m as [|c m].
      * rewrite app_nil_r in Hw. simpl in Hy. subst.
        exists a, []. split; [now rewrite app_nil_r|].
        split; [exact Hp|]. simpl in *. now rewrite <- (Bq newline Sn).
      * simpl in Hy. inversion Hy; subst c.
        assert (F : is_space newline = false).
        { apply (token_no_space w newline T). rewrite Hw.
          apply in_or_app. right. now left. }
        congruence.
    + subst. exists a, m. split; [reflexivity|]. split; [exact Hp|].
      destruct m as [|c m]; [|exact Hq].
      simpl in *. now rewrite <- (Bq newline Sn).
  - right. destruct l as [|c l].
    + simpl in Hy. destruct (token_head w T) as (h & t & Ew & Sh).
      rewrite Ew in Hy. inversion Hy. congruence.
    + simpl in Hy. inversion Hy; subst c. subst.
      exists l, b. split; [reflexivity|]. split; [|exact Hq].
      rewrite last_of_app, last_of_cons in Hp.
      destruct l as [|c l].
      * rewrite last_of_nil in *. now rewrite <- (Bp newline Sn).
      * rewrite (last_of_nonempty (c :: l) (Some newline) None) in Hp
          by discriminate.
        exact Hp.
Qed.

Lemma occurs_join_elim (pre post : option ascii -> bool) (w : str)
  (ls : list str) :
  token w -> blind pre -> blind post ->
  occurs pre w post (join [newline] ls) ->
  exists l, In l ls /\ occurs pre w post l.
Proof.
  intros T Bp Bq. induction ls as [|l ls IH]; intro H.
  - destruct H as (a & b & Hs & _). simpl in Hs.
    destruct (token_head w T) as (h & t & Ew & _). rewrite Ew in Hs.
    destruct a; discriminate.
  - destruct ls as [|l2 ls].
    + exists l. split; [now left|exact H].
    + rewrite join_cons in H by discriminate.
      apply occurs_across_newline in H; auto. destruct H as [H|H].
      * exists l. split; [now left|exact H].
      * destruct (IH H) as (l' & Hin & Ho). exists l'.
        split; [now right|exact Ho].
Qed.

Lemma occurs_join_intro (pre post : option ascii -> bool) (w l : str)
  (ls : list str) :
  blind pre -> blind post ->
  In l ls -> occurs pre w post l ->
  occurs pre w post (join [newline] ls).
Proof.
  intros Bp Bq. induction ls as [|l0 ls IH]; intros Hin Ho;
    [contradiction|].
  destruct ls as [|l2 ls].
  - destruct Hin as [->|[]]. exact Ho.
  - rewrite join_cons by discriminate. destruct Hin as [->|Hin].
    + apply occurs_before; auto. reflexivity.
    + change (l0 ++ [newline] ++ join [newline] (l2 :: ls))
        with (l0 ++ ([newline] ++ join [newline] (l2 :: ls))).
      rewrite app_assoc. apply occurs_after; auto.
      exists newline. split; [|reflexivity].
      now rewrite last_of_app.
Qed.

Lemma lstrip_before_token (a x : str) (h : ascii) (t : str) :
  x = h :: t -> is_space h = false -> lstrip (a ++ x) = lstrip a ++ x.
Proof.
  intros -> Sh. induction a as [|c a IH]; simpl.
  - now rewrite Sh.
  - destruct (is_space c); [exact IH|reflexivity].
Qed.

Lemma rstrip_after_token (x0 : str) (t : ascii) (b : str) :
  is_space t = false -> rstrip ((x0 ++ [t]) ++ b) = (x0 ++ [t]) ++ rstrip b.
Proof.
  intro St. induction x0 as [|c x0 IH].
  - simpl. destruct (rstrip b); [now rewrite St|reflexivity].
  - change (rstrip (((c :: x0) ++ [t]) ++ b))
      with (match rstrip ((x0 ++ [t]) ++ b) with
            | [] => if is_space c then [] else [c]
            | a :: l => c :: a :: l
            end).
    rewrite IH.
    change (((c :: x0) ++ [t]) ++ rstrip b)
      with (c :: ((x0 ++ [t]) ++ rstrip b)).
    destruct ((x0 ++ [t]) ++ rstrip b) eqn:E; [|reflexivity].
    destruct x0; discriminate.
Qed.

Lemma lstrip_last (pre : option ascii -> bool) (a : str) :
  blind pre -> pre (last_of (lstrip a) None) = pre (last_of a None).
Proof.
  intro B. induction a as [|c a IH]; [reflexivity|]. simpl lstrip.
  destruct (is_space c) eqn:Sc; [|reflexivity].
  rewrite IH, last_of_cons. destruct a as [|x a].
  - rewrite !last_of_nil. now rewrite (B c Sc).
  - now rewrite (last_of_nonempty (x :: a) (Some c) None) by discriminate.
Qed.

Lemma rstrip_head (post : option ascii -> bool) (b : str) :
  blind post -> post (hd_error (rstrip b)) = post (hd_error b).
Proof.
  intro B. destruct b as [|c b]; [reflexivity|]. simpl.
  destruct (rstrip b); [|reflexivity].
  destruct (is_space c) eqn:Sc; [|reflexivity].
  simpl. now rewrite (B c Sc).
Qed.

(** Stripping a line keeps the tokens on it. *)
Lemma occurs_strip (pre post : option ascii -> bool) (w l : str) :
  token w -> blind pre -> blind post ->
  occurs pre w post l -> occurs pre w post (strip l).
Proof.
  intros T Bp Bq (a & b & Hs & Hp & Hq).
  destruct (token_head w T) as (h & t & Eh & Sh).
  destruct (token_last w T) as (w0 & z & Ez & Sz).
  exists (lstrip a), (rstrip b). split.
  - unfold strip. rewrite Hs.
    assert (Ewb : w ++ b = h :: (t ++ b)) by (rewrite Eh; reflexivity).
    rewrite (lstrip_before_token a (w ++ b) h (t ++ b) Ewb Sh).
    rewrite Ez.
    replace (lstrip a ++ (w0 ++ [z]) ++ b)
      with (((lstrip a ++ w0) ++ [z]) ++ b)
      by now rewrite <- !app_assoc.
    rewrite rstrip_after_token by exact Sz.
    now rewrite <- !app_assoc.
  - split.
    + now rewrite lstrip_last.
    + now rewrite rstrip_head.
Qed.

Lemma occurs_line_kept (pre post : option ascii -> bool) (w l l' : str) :
  token w -> blind pre -> blind post ->
  line_kept l l' -> occurs pre w post l -> occurs pre w post l'.
Proof.
  intros T Bp Bq [->|(p & Hp & ->)] Ho; [exact Ho|].
  apply occurs_after; auto. now apply occurs_strip.
Qed.

(** Every line [_strip_server_start] writes is the line it read, or its
    stripped text behind a comment prefix. *)
Lemma strip_lines_kept (lines : list str) :
  forall skip_block,
    Forall2 line_kept lines (Sandbox.strip_lines skip_block lines).
Proof.
  assert (W : forall (p : str) line line',
             (exists c, last_of p None = Some c /\ is_space c = true) ->
             line' = p ++ strip line -> line_kept line line').
  { intros p line line' Hp E. right. exists p. split; assumption. }
  induction lines as [|line rest IH]; intro skip_block; simpl;
    [constructor|].
  repeat match goal with
         | |- Forall2 _ _ (if ?c then _ else _) => destruct c
         end;
    (constructor;
     [ first
         [ now left
         | apply (W "# [sandbox] server start removed: ");
           [exists " "%char; split; reflexivity | reflexivity]
         | apply (W "# [sandbox] main block removed: ");
           [exists " "%char; split; reflexivity | reflexivity]
         | apply (W "# [sandbox] ");
           [exists " "%char; split; reflexivity | reflexivity] ]
     | apply IH ]).
Qed.

Lemma Forall2_in_left (A B : Type) (R : A -> B -> Prop) (l : list A)
  (l' : list B) (x : A) :
  Forall2 R l l' -> In x l -> exists y, In y l' /\ R x y.
Proof.
  induction 1 as [|a b l l' Hab _ IH]; intro Hin; [contradiction|].
  destruct Hin as [->|Hin].
  - exists b. split; [now left|exact Hab].
  - destruct (IH Hin) as (y & Hy & Hr). exists y. split; [now right|exact Hr].
Qed.

(** A token of a python snippet is still there, between neighbours of
    the same kinds, after the server starts are commented out. *)
Lemma strip_server_start_keeps (pre post : option ascii -> bool)
  (w code : str) :
  token w -> blind pre -> blind post ->
  occurs pre w post code ->
  occurs pre w post (Sandbox._strip_server_start code "python").
Proof.
  intros T Bp Bq Ho. unfold Sandbox._strip_server_start.
  rewrite text_eqb_refl. cbn [negb].
  rewrite <- (join_split_lines code) in Ho.
  apply occurs_join_elim in Ho; auto. destruct Ho as (l & Hin & Ho).
  destruct (Forall2_in_left _ _ _ _ _ l
              (strip_lines_kept (split_lines code) false) Hin)
    as (l' & Hin' & K).
  apply (occurs_join_intro pre post w l'); auto.
  exact (occurs_line_kept pre post w l l' T Bp Bq K Ho).
Qed.

End StripKeepsTokens.

(* ================================================================== *)
(** * Process spawns are blocked                                       *)
(* ================================================================== *)

Section SpawnBlocked.
Import Sandbox SandboxSpec ServerSpec DenylistSpec.
Variable world : World.

Lemma spawn_patterns_denied (p : regex) :
  In p spawn_patterns -> In p DANGEROUS_PATTERNS.
Proof.
  unfold spawn_patterns, DANGEROUS_PATTERNS. simpl.
  intros [<-|[<-|[<-|[<-|[<-|[]]]]]]; tauto.
Qed.

(** A python snippet a denylist pattern matches does not pass
    validation. *)
Lemma validate_python_denylist (self : SafeExecutor) (code : str)
  (p : regex) :
  In p DANGEROUS_PATTERNS -> matches p code = true ->
  fst (validate_code self code "python") = false.
Proof.
  intros Hin Hm. unfold validate_code.
  destruct (_check_path_safety self code) as [[|] reason]; [|reflexivity].
  cbn [negb].
  change (dict_get LANGUAGE_CONFIG "python")
    with (Some {| extension := ".py"; command := ["python3" : str];
                  patterns := DANGEROUS_PATTERNS |}).
  cbn [patterns].
  destruct (find (fun pattern => matches pattern code) DANGEROUS_PATTERNS)
    eqn:F; [reflexivity|].
  pose proof (find_none _ _ F p Hin) as N. cbv beta in N. congruence.
Qed.

(** A spawn pattern that matches the snippet matches what is left of it
    after the server starts are commented out. *)
Lemma spawn_pattern_survives (p : regex) (code : str) :
  In p spawn_patterns -> matches p code = true ->
  matches p (_strip_server_start code "python") = true.
Proof.
  intros Hin Hm.
  destruct (spawn_pattern_token p Hin) as (w & post & T & B & Hocc).
  apply Hocc. apply strip_server_start_keeps; auto.
  - exact blind_not_word.
  - now apply Hocc.
Qed.

Lemma blocked_python_run (self : SandboxObj) (code : str) (tr : list Event)
  (p : regex) :
  _is_server_code code = false ->
  In p spawn_patterns -> matches p code = true ->
  exists r,
    run_python world self code tr = (Ok (r, record self "python" r), tr)
    /\ blocked r = true /\ success r = false.
Proof.
  intros Hs Hin Hm.
  pose proof (validate_python_denylist (executor self)
                (_strip_server_start code "python") p
                (spawn_patterns_denied p Hin)
                (spawn_pattern_survives p code Hin Hm)) as V.
  unfold run_python, execute_python, _execute_code, bind.
  rewrite Hs, andb_false_r.
  destruct (validate_code (executor self)
              (_strip_server_start code "python") "python")
    as [is_safe reason].
  simpl in V. subst is_safe. cbn [negb].
  eexists. split; [reflexivity|]. split; reflexivity.
Qed.


End SpawnBlocked.



Set Implicit Arguments.

(* ================================================================== *)
(** * Facts about Python lists and dictionaries                        *)
(* ================================================================== *)

Section PyFacts.
Import Py.

Lemma last_app_nonempty (A : Type) (a b : list A) (d : A) :
  b <> [] -> last (a ++ b) d = last b d.
Proof.
  intro H. induction a as [|x a IH]; [reflexivity|].
  simpl. rewrite IH. destruct (a ++ b) eqn:E; [|reflexivity].
  apply app_eq_nil in E. destruct E. contradiction.
Qed.

Lemma keep_last (A : Type) (n : nat) (l : list A) :
  0 < n ->
  let kept := if n <? length l then slice_from (- Z.of_nat n) l else l in
  length kept = Nat.min (length l) n
  /\ exists dropped, l = dropped ++ kept /\ length dropped = length l - n.
Proof.
  intro Hp. cbv zeta. destruct (Nat.ltb_spec n (length l)) as [H|H].
  - unfold slice_from.
    destruct (Z.ltb_spec (- Z.of_nat n) 0) as [Hn|Hn]; [|lia].
    rewrite Z.opp_involutive, Nat2Z.id. split.
    + rewrite length_skipn. lia.
    + exists (firstn (length l - n) l). split.
      * now rewrite firstn_skipn.
      * rewrite length_firstn. lia.
  - split; [lia|]. exists []. simpl. split; [reflexivity|lia].
Qed.

Lemma length_slice_to (A : Type) (stop : Z) (l : list A) :
  (0 <= stop)%Z -> length (slice_to stop l) <= Z.to_nat stop.
Proof.
  intro H. unfold slice_to.
  destruct (Z.ltb_spec stop 0); [lia|]. rewrite length_firstn. lia.
Qed.

Lemma slice_to_prefix (A : Type) (stop : Z) (l : list A) :
  exists rest, l = slice_to stop l ++ rest.
Proof.
  unfold slice_to.
  destruct (stop <? 0)%Z; eexists; symmetry; apply firstn_skipn.
Qed.

Lemma dict_get_set_same (A : Type) (d : list (str * A)) (key : str) (v : A) :
  Py.dict_get (dict_set d key v) key = Some v.
Proof.
  induction d as [|[k x] d IH]; simpl; [now rewrite text_eqb_refl|].
  destruct (Text.eqb k key) eqn:E; simpl; rewrite E; auto.
Qed.

Lemma dict_get_set_other (A : Type) (d : list (str * A)) (key k : str)
  (v : A) :
  k <> key ->
  Py.dict_get (dict_set d key v) k
  = Py.dict_get d k.
Proof.
  intro N. induction d as [|[k' x] d IH]; simpl.
  - destruct (Text.eqb key k) eqn:E; [|reflexivity].
    apply text_eqb_eq in E. congruence.
  - destruct (Text.eqb k' key) eqn:E; simpl.
    + apply text_eqb_eq in E. subst k'.
      destruct (Text.eqb key k) eqn:E'; [|reflexivity].
      apply text_eqb_eq in E'. congruence.
    + destruct (Text.eqb k' k); auto.
Qed.

Lemma dict_get_map (A B : Type) (f : A -> B) (d : list (str * A))
  (k : str) :
  Py.dict_get (map (fun kv => (fst kv, f (snd kv))) d) k
  = option_map f (Py.dict_get d k).
Proof.
  induction d as [|[k' x] d IH]; simpl; [reflexivity|].
  destruct (Text.eqb k' k); auto.
Qed.

Lemma dict_set_keys (A : Type) (d : list (str * A)) (key : str) (v : A) :
  map fst (dict_set d key v)
  = if existsb (fun k => Text.eqb k key) (map fst d) then map fst d
    else map fst d ++ [key].
Proof.
  induction d as [|[k x] d IH]; simpl; [reflexivity|].
  destruct (Text.eqb k key) eqn:E; simpl; [reflexivity|].
  rewrite IH. destruct (existsb _ (map fst d)); reflexivity.
Qed.

Lemma dict_set_In (A : Type) (d : list (str * A)) (key k : str) (v x : A) :
  In (k, x) (dict_set d key v) -> (k = key /\ x = v) \/ In (k, x) d.
Proof.
  induction d as [|[k' y] d IH]; simpl.
  - intros [E|[]]. injection E as -> ->. auto.
  - destruct (Text.eqb k' key) eqn:E; simpl.
    + apply text_eqb_eq in E. subst k'.
      intros [H|H]; [injection H as -> ->; auto|auto].
    + intros [H|H]; [auto|]. destruct (IH H); auto.
Qed.

Lemma dict_set_has_key (A : Type) (d : list (str * A)) (key : str) (v : A) :
  In key (map fst (dict_set d key v))
  /\ forall k, In k (map fst d) -> In k (map fst (dict_set d key v)).
Proof.
  rewrite dict_set_keys.
  destruct (existsb (fun k => Text.eqb k key) (map fst d)) eqn:E.
  - split; [|auto]. apply existsb_exists in E.
    destruct E as (k & Hk & E). apply text_eqb_eq in E. now subst.
  - split; [apply in_or_app; right; now left|].
    intros k Hk. apply in_or_app. now left.
Qed.

Lemma dict_set_NoDup (A : Type) (d : list (str * A)) (key : str) (v : A) :
  NoDup (map fst d) -> NoDup (map fst (dict_set d key v)).
Proof.
  intro ND. rewrite dict_set_keys.
  destruct (existsb (fun k => Text.eqb k key) (map fst d)) eqn:E;
    [exact ND|].
  apply NoDup_app; [exact ND|repeat constructor; intros []|].
  intros k Hk [<-|[]].
  assert (X : existsb (fun k' => Text.eqb k' key) (map fst d) = true).
  { apply existsb_exists. exists key.
    split; [exact Hk|apply text_eqb_refl]. }
  congruence.
Qed.

End PyFacts.

(* ================================================================== *)
(** * Plans: numbering, marking, handler lookup                        *)
(* ================================================================== *)

Section PlanNumbering.
Import Orchestrator PlanShape.

Lemma steps_from_ids (tasks : list AgentTask) :
  forall k, map id (steps_from k tasks)
            = map (fun i => (Z.of_nat i + 1)%Z) (seq k (length tasks)).
Proof.
  induction tasks as [|t tasks IH]; intro k; simpl; [reflexivity|].
  f_equal. apply IH.
Qed.

Lemma ids_upto_snoc (n : nat) :
  ids_upto (S n) = ids_upto n ++ [(Z.of_nat n + 1)%Z].
Proof. unfold ids_upto. now rewrite seq_S, map_app. Qed.

Lemma ids_upto_range (n : nat) (z : Z) :
  In z (ids_upto n) <-> (1 <= z <= Z.of_nat n)%Z.
Proof.
  unfold ids_upto. rewrite in_map_iff. split.
  - intros (i & <- & Hi). apply in_seq in Hi. lia.
  - intro H. exists (Z.to_nat (z - 1)). split; [lia|].
    apply in_seq. lia.
Qed.

Lemma ids_upto_NoDup (n : nat) : NoDup (ids_upto n).
Proof.
  induction n as [|n IH]; [constructor|].
  rewrite ids_upto_snoc. apply NoDup_app.
  - exact IH.
  - repeat constructor. intros [].
  - intros z Hz [<-|[]]. apply ids_upto_range in Hz. lia.
Qed.

Lemma NoDup_map_str_of_Z (l : list Z) :
  NoDup l -> NoDup (map str_of_Z l).
Proof.
  induction 1 as [|z l Hz ND IH]; simpl; constructor; [|exact IH].
  intro Hin. apply in_map_iff in Hin. destruct Hin as (y & E & Hy).
  apply str_of_Z_inj in E. now subst y.
Qed.

Lemma numbered_NoDup (p : ExecutionPlan) :
  numbered p -> NoDup (map id (steps p)).
Proof. unfold numbered. intros ->. apply ids_upto_NoDup. Qed.

Lemma map_update_first (B : Type) (v : TaskStep -> B)
  (q : TaskStep -> bool) (f : TaskStep -> TaskStep) (l : list TaskStep) :
  (forall x, v (f x) = v x) -> map v (update_first q f l) = map v l.
Proof.
  intro H. induction l as [|x l IH]; simpl; [reflexivity|].
  destruct (q x); simpl; [now rewrite H|now rewrite IH].
Qed.

Lemma length_update_first (q : TaskStep -> bool) (f : TaskStep -> TaskStep)
  (l : list TaskStep) :
  length (update_first q f l) = length l.
Proof.
  induction l as [|x l IH]; simpl; [reflexivity|].
  destruct (q x); simpl; auto.
Qed.

Lemma failure_update_id (e : str) (s : TaskStep) :
  id (let step := set_attempts (attempts s + 1) s in
      let step := if (attempts step >=? max_attempts step)%Z
                  then set_status failed step
                  else set_status pending step in
      set_error e step) = id s.
Proof.
  cbv zeta. simpl.
  destruct (attempts s + 1 >=? max_attempts s)%Z; reflexivity.
Qed.

Lemma reflect_step_id (s : TaskStep) (r : str) (b : bool) :
  id (fst (reflect_step s r b)) = id s.
Proof.
  unfold reflect_step. destruct b; [reflexivity|].
  cbv zeta. simpl.
  destruct (attempts s + 1 >=? max_attempts s)%Z; reflexivity.
Qed.

Lemma reflect_steps (p : ExecutionPlan) (i : nat) (r : str) (b : bool) :
  map id (steps (reflect p i r b)) = map id (steps p)
  /\ length (steps (reflect p i r b)) = length (steps p).
Proof.
  unfold reflect. destruct (nth_error (steps p) i) as [s|] eqn:E; [|auto].
  pose proof (reflect_step_id s r b) as I.
  destruct (reflect_step s r b) as [s' line]. simpl in *. split.
  - now apply (map_update_nth_const id s' _ _ E).
  - apply length_update_nth.
Qed.

(** X1.  [create_plan_from_tasks] makes one step for each task, in the
    order of the tasks, and numbers them 1, 2, ..., N: the ids of a new
    plan are pairwise different, also as the texts the dependency lists
    are compared with.  Every step starts pending, with no attempt made,
    a budget of three attempts, and no result or error; the reflection
    log starts empty. *)
Theorem create_plan_numbers_steps (goal : str) (tasks : list AgentTask) :
  let p := create_plan_from_tasks goal tasks in
  length (steps p) = length tasks
  /\ map id (steps p) = ids_upto (length tasks)
  /\ NoDup (map id (steps p))
  /\ NoDup (map (fun s => str_of_Z (id s)) (steps p))
  /\ Forall (fun s => status s = pending /\ attempts s = 0%Z
                      /\ max_attempts s = 3%Z
                      /\ result s = [] /\ error s = [])
       (steps p)
  /\ reflection_log p = [].
Proof.
  cbv zeta. unfold create_plan_from_tasks. cbn [steps reflection_log].
  assert (I : map id (steps_from 0 tasks) = ids_upto (length tasks))
    by apply steps_from_ids.
  split; [apply length_steps_from|]. split; [exact I|].
  split; [rewrite I; apply ids_upto_NoDup|].
  split; [|split; [|reflexivity]].
  - rewrite <- (map_map id str_of_Z), I.
    apply NoDup_map_str_of_Z, ids_upto_NoDup.
  - clear I. generalize 0 as k.
    induction tasks as [|t tasks IH]; intro k; simpl; constructor;
      [simpl; repeat split|apply IH].
Qed.

(** X2.  The numbering 1 .. len is kept by everything that changes a
    plan: [revise_plan] gives its new step the id len + 1, and
    [reflect], [mark_step_done] and [mark_step_failed] change neither
    an id nor the number of steps.  A numbered plan has unique ids. *)
Theorem plan_numbering_is_kept (p : ExecutionPlan) :
  numbered p ->
  NoDup (map id (steps p))
  /\ (forall fs, numbered (revise_plan p fs))
  /\ (forall i r success, numbered (reflect p i r success))
  /\ (forall k r, numbered (mark_step_done p k r))
  /\ (forall k e, numbered (mark_step_failed p k e)).
Proof.
  intro N. split; [now apply numbered_NoDup|]. unfold numbered in *.
  split; [|split; [|split]].
  - intro fs. rewrite revise_plan_eq. unfold with_steps. cbn [steps].
    rewrite map_app, length_app, N. cbn [length map mkStep id].
    rewrite Nat.add_1_r, ids_upto_snoc. reflexivity.
  - intros i r b. destruct (reflect_steps p i r b) as [-> ->]. exact N.
  - intros k r. unfold mark_step_done, with_steps. cbn [steps].
    rewrite length_update_first, map_update_first; auto.
  - intros k e. unfold mark_step_failed, with_steps. cbn [steps].
    rewrite length_update_first, map_update_first; auto.
    intro x. apply failure_update_id.
Qed.

Lemma update_first_none (q : TaskStep -> bool) (f : TaskStep -> TaskStep)
  (l : list TaskStep) :
  (forall s, In s l -> q s = false) -> update_first q f l = l.
Proof.
  induction l as [|x l IH]; simpl; intro H; [reflexivity|].
  rewrite (H x (or_introl eq_refl)). f_equal. apply IH.
  intros s Hs. apply H. now right.
Qed.

(** X3.  Marking a step id that no step of the plan carries changes
    nothing: [mark_step_done] and [mark_step_failed] return silently and
    leave the plan as it was. *)
Theorem mark_unknown_step_changes_nothing (p : ExecutionPlan) (k : Z)
  (text : str) :
  (forall s, In s (steps p) -> id s <> k) ->
  mark_step_done p k text = p /\ mark_step_failed p k text = p.
Proof.
  intro H.
  assert (Q : forall s, In s (steps p) -> (id s =? k)%Z = false).
  { intros s Hs. apply Z.eqb_neq. now apply H. }
  unfold mark_step_done, mark_step_failed, with_steps.
  rewrite !update_first_none by exact Q. destruct p; auto.
Qed.

Lemma update_first_by_id (k : Z) (f : TaskStep -> TaskStep)
  (l : list TaskStep) :
  NoDup (map id l) ->
  Forall2 (fun s s' => s' = if (id s =? k)%Z then f s else s)
    l (update_first (fun s => (id s =? k)%Z) f l).
Proof.
  induction l as [|x l IH]; simpl; intro ND; [constructor|].
  inversion ND as [|? ? Hx ND']; subst.
  destruct (id x =? k)%Z eqn:Qx.
  - constructor; [now rewrite Qx|].
    apply Z.eqb_eq in Qx. subst k.
    clear IH ND ND'. induction l as [|y l IH]; constructor.
    + destruct (id y =? id x)%Z eqn:Qy; [|reflexivity].
      apply Z.eqb_eq in Qy. exfalso. apply Hx. left. exact Qy.
    + apply IH. intro H. apply Hx. now right.
  - constructor; [now rewrite Qx|]. now apply IH.
Qed.

(** X4.  In a plan with unique ids, [mark_step_done] completes the step
    that carries the id and stores the result on it, and leaves every
    other step, the goal and the reflection log as they were. *)
Theorem mark_step_done_completes_the_step (p : ExecutionPlan) (k : Z)
  (r : str) :
  NoDup (map id (steps p)) ->
  Forall2
    (fun s s' =>
       s' = if (id s =? k)%Z then set_result r (set_status completed s)
            else s)
    (steps p) (steps (mark_step_done p k r))
  /\ goal (mark_step_done p k r) = goal p
  /\ reflection_log (mark_step_done p k r) = reflection_log p.
Proof.
  intro ND. split; [|split; reflexivity].
  unfold mark_step_done, with_steps. cbn [steps].
  now apply update_first_by_id.
Qed.

End PlanNumbering.

Lemma plan_numbering_is_kept_witness :
  PlanShape.numbered
    (Orchestrator.revise_plan
       (Orchestrator.create_plan_from_tasks "goal" LoopExamples.two_tasks)
       RetrySpec.example_failed_step).
Proof.
  apply (@plan_numbering_is_kept
           (Orchestrator.create_plan_from_tasks "goal"
              LoopExamples.two_tasks)).
  reflexivity.
Defined.

Lemma mark_unknown_step_changes_nothing_witness :
  Orchestrator.mark_step_done PlanSpec.example_plan 7 "done"
  = PlanSpec.example_plan
  /\ Orchestrator.mark_step_failed PlanSpec.example_plan 7 "done"
     = PlanSpec.example_plan.
Proof.
  apply (@mark_unknown_step_changes_nothing PlanSpec.example_plan 7 "done").
  simpl. intros s [<-|[<-|[]]]; simpl; lia.
Defined.

Lemma mark_step_done_completes_the_step_witness :
  Forall2
    (fun s s' =>
       s' = if (Orchestrator.id s =? 2)%Z
            then Orchestrator.set_result "saved"
                   (Orchestrator.set_status Orchestrator.completed s)
            else s)
    (Orchestrator.steps PlanSpec.example_plan)
    (Orchestrator.steps
       (Orchestrator.mark_step_done PlanSpec.example_plan 2 "saved")).
Proof.
  apply (@mark_step_done_completes_the_step PlanSpec.example_plan 2 "saved").
  simpl. repeat constructor; simpl; intuition lia.
Defined.

Section HandlerLookup.
Import Orchestrator.

Lemma existsb_text_In (a : str) (l : list str) :
  existsb (Text.eqb a) l = true <-> In a l.
Proof.
  rewrite existsb_exists. split.
  - intros (x & Hx & E). apply text_eqb_eq in E. now subst.
  - intro H. exists a. split; [exact H|apply text_eqb_refl].
Qed.

Lemma find_first (A : Type) (f : A -> bool) (l : list A) (x : A) :
  find f l = Some x ->
  exists before after,
    l = before ++ x :: after /\ f x = true
    /\ Forall (fun y => f y = false) before.
Proof.
  induction l as [|y l IH]; simpl; [discriminate|].
  destruct (f y) eqn:Fy.
  - intro H. injection H as ->. exists [], l. auto.
  - intro H. destruct (IH H) as (b & a & -> & Fx & Hb).
    exists (y :: b), a. auto.
Qed.

Lemma find_nothing (A : Type) (f : A -> bool) (l : list A) :
  find f l = None -> forall y, In y l -> f y = false.
Proof. intros H y Hy. exact (find_none f l H y Hy). Qed.

(** X5.  The handler [execute_step] picks is always a registered one.
    The lower-cased capability of the step wins when it is registered;
    otherwise the first registered key, in registration order, that
    starts with its first three characters; otherwise [coder].  The
    lookup fails (a [KeyError]) only when none of the three exists.  A
    capability of fewer than three characters is its own prefix, and an
    empty one is a prefix of every key: it resolves to the first
    registered key. *)
Theorem resolve_agent_registered (agents : list str) (agent_type : str) :
  let wanted := lower agent_type in
  let starts key := startswith key (firstn 3 wanted) in
  match resolve_agent agents agent_type with
  | Some key =>
      In key agents
      /\ (In wanted agents -> key = wanted)
      /\ (~ In wanted agents ->
          (exists before after,
              agents = before ++ key :: after /\ starts key = true
              /\ Forall (fun k => starts k = false) before)
          \/ (key = ("coder" : str)
              /\ forall k, In k agents -> starts k = false))
      /\ (wanted = [] -> ~ In [] agents -> hd_error agents = Some key)
  | None =>
      ~ In wanted agents /\ ~ In ("coder" : str) agents
      /\ forall k, In k agents -> starts k = false
  end.
Proof.
  cbv zeta. unfold resolve_agent.
  set (wanted := lower agent_type).
  destruct (existsb (Text.eqb wanted) agents) eqn:E.
  - rewrite E. apply existsb_text_In in E.
    split; [exact E|]. split; [reflexivity|]. split; [tauto|].
    intros W H. rewrite W in E. contradiction.
  - assert (NW : ~ In wanted agents).
    { intro H. apply existsb_text_In in H. congruence. }
    destruct (find (fun key => startswith key (firstn 3 wanted)) agents)
      as [key|] eqn:F.
    + destruct (find_first _ _ F) as (b & a & Ha & S & Hb).
      assert (K : In key agents).
      { rewrite Ha. apply in_or_app. right. now left. }
      rewrite (proj2 (existsb_text_In key agents) K).
      split; [exact K|]. split; [tauto|]. split.
      * intros _. left. exists b, a. auto.
      * intros W _. rewrite Ha. destruct b as [|x b]; [reflexivity|].
        inversion Hb as [|? ? Hx _]; subst. rewrite W in Hx.
        simpl in Hx. discriminate.
    + pose proof (find_nothing _ _ F) as Hn.
      destruct (existsb (Text.eqb ("coder" : str)) agents) eqn:C.
      * apply existsb_text_In in C.
        split; [exact C|]. split; [tauto|]. split.
        -- intros _. right. auto.
        -- intros W _. destruct agents as [|x rest]; [contradiction|].
           specialize (Hn x (or_introl eq_refl)). rewrite W in Hn.
           simpl in Hn. discriminate.
      * split; [exact NW|]. split; [|exact Hn].
        intro H. apply existsb_text_In in H. congruence.
Qed.

Lemma resolve_agent_with_coder (agents : list str) (agent_type : str) :
  In ("coder" : str) agents -> resolve_agent agents agent_type <> None.
Proof.
  intro C. apply existsb_text_In in C. unfold resolve_agent.
  destruct (existsb (Text.eqb (lower agent_type)) agents) eqn:E.
  - rewrite E. discriminate.
  - destruct (find _ agents) as [key|] eqn:F.
    + apply find_some in F. destruct F as [K _].
      rewrite (proj2 (existsb_text_In key agents) K). discriminate.
    + rewrite C. discriminate.
Qed.

End HandlerLookup.

(* ================================================================== *)
(** * The control loop: what every run keeps                           *)
(* ================================================================== *)

Section LoopFacts.
Import Orchestrator LoopInvariant PlanShape.
Variable agents : list str.
Variable handlers : Handlers.

(** A rule for the [while] loop: a property kept by every pass that
    continues holds when the loop is left, by its guard or by [break]. *)
Lemma loop_rule (m : nat) (P Q : LoopState -> Prop) :
  (forall st st', P st -> loop_body agents handlers st = Continue st' ->
                  P st') ->
  (forall st st', P st -> loop_body agents handlers st = Break st' ->
                  Q st') ->
  (forall st, P st ->
              negb (is_complete (plan st)) && (iteration st <? m) = false ->
              Q st) ->
  forall fuel st st',
    P st -> loop agents handlers fuel m st = Done st' -> Q st'.
Proof.
  intros HC HB HG.
  induction fuel as [|fuel IH]; intros st st' HP; simpl;
    destruct (negb (is_complete (plan st)) && (iteration st <? m)) eqn:G;
    try discriminate;
    try (intro H; injection H as <-; now apply HG).
  destruct (loop_body agents handlers st) as [st1|st1|st1 msg] eqn:B.
  - intro H. injection H as <-. exact (HB _ _ HP B).
  - apply IH. exact (HC _ _ HP B).
  - discriminate.
Qed.

(** One pass that continues, in full: the step selected, the handler
    called, and what is left behind. *)
Lemma loop_body_pass (st st' : LoopState) :
  loop_body agents handlers st = Continue st' ->
  exists (i : nat) (step : TaskStep) (key : str),
    get_next_step (plan st) = Some (i, step)
    /\ resolve_agent agents (agent_type step) = Some key
    /\ let o := handlers (length (calls st)) key
                  (with_steps (plan st)
                     (update_nth i (set_status running) (steps (plan st))))
                  i in
       let step' := fst (reflect_step (set_status running step)
                           (outcome_text o) (outcome_success o)) in
       calls st' = calls st ++ [(id step, key)]
       /\ iteration st' = S (iteration st)
       /\ consecutive_failures st'
          = (if outcome_success o then 0 else S (consecutive_failures st))
       /\ final_answer st'
          = (if outcome_success o then outcome_text o else final_answer st)
       /\ length (reflection_log (plan st'))
          = S (length (reflection_log (plan st)))
       /\ goal (plan st') = goal (plan st)
       /\ (negb (outcome_success o) && status_eqb (status step') failed
           && (consecutive_failures st' <? 3) = false ->
           steps (plan st')
           = update_nth i (fun _ => step') (steps (plan st)))
       /\ (execution_memory st' = execution_memory st
           \/ exists e,
                execution_memory st' = execution_memory st ++ [e]
                /\ step_id e = id step /\ agent_name e = key
                /\ length (answer_preview e) <= 200).
Proof.
  unfold loop_body.
  destruct (get_next_step (plan st)) as [[i step]|] eqn:N;
    [|destruct (has_pending (steps (plan st))); discriminate].
  destruct (get_next_step_nth _ N) as [Hn _].
  destruct (resolve_agent agents (agent_type step)) as [key|] eqn:RA;
    [|discriminate].
  intro H. exists i, step, key. split; [reflexivity|].
  split; [exact RA|]. cbv zeta.
  set (plan1 := with_steps (plan st)
                  (update_nth i (set_status running) (steps (plan st))))
    in *.
  set (o := handlers (length (calls st)) key plan1 i) in *.
  assert (R : forall r success,
             reflect plan1 i r success
             = {| goal := goal (plan st);
                  steps :=
                    update_nth i
                      (fun _ => fst (reflect_step (set_status running step)
                                       r success))
                      (steps (plan st));
                  reflection_log :=
                    reflection_log (plan st)
                      ++ [snd (reflect_step (set_status running step)
                                 r success)] |}).
  { intros r success. unfold plan1. now apply reflect_at. }
  assert (L : forall r success p3,
             p3 = match nth_error (steps (reflect plan1 i r success)) i with
                  | Some step' =>
                      if negb success && status_eqb (status step') failed
                      then if (if success then 0
                               else S (consecutive_failures st)) <? 3
                           then revise_plan (reflect plan1 i r success) step'
                           else reflect plan1 i r success
                      else reflect plan1 i r success
                  | None => reflect plan1 i r success
                  end ->
             length (reflection_log p3)
             = S (length (reflection_log (plan st)))
             /\ goal p3 = goal (plan st)
             /\ (negb success
                 && status_eqb
                      (status (fst (reflect_step (set_status running step)
                                      r success))) failed
                 && ((if success then 0 else S (consecutive_failures st))
                       <? 3) = false ->
                 steps p3
                 = update_nth i
                     (fun _ => fst (reflect_step (set_status running step)
                                      r success))
                     (steps (plan st)))).
  { intros r success p3 ->. rewrite R. cbn [steps].
    rewrite (nth_error_update_nth_eq _ _ _ Hn).
    set (step' := fst (reflect_step (set_status running step) r success)).
    destruct (negb success && status_eqb (status step') failed);
      [destruct ((if success then 0 else S (consecutive_failures st)) <? 3)|];
      cbn [andb]; try rewrite revise_plan_eq;
      cbn [with_steps reflection_log goal steps];
      (split; [rewrite length_app; simpl; lia|]);
      (split; [reflexivity|]); intro C; try reflexivity; discriminate. }
  destruct o as [answer success|msg] eqn:O; cbv beta iota zeta in H;
    apply (f_equal (fun b => match b with Continue s => s | _ => st end))
      in H;
    cbv beta iota in H; subst st';
    cbn [calls iteration consecutive_failures final_answer plan
         execution_memory outcome_text outcome_success];
    match goal with
    | |- context [reflect plan1 i ?r ?s] =>
        destruct (L r s _ eq_refl) as (L1 & L2 & L3)
    end.
  - repeat (split; [first [reflexivity | assumption]|]).
    right. eexists. split; [reflexivity|].
    cbn [step_id agent_name answer_preview].
    split; [reflexivity|]. split; [reflexivity|].
    rewrite length_firstn. lia.
  - repeat (split; [first [reflexivity | assumption]|]).
    left. reflexivity.
Qed.

(** ** Handler lookups never fail when [coder] is registered *)

Lemma loop_not_raise (C : In ("coder" : str) agents) (m : nat) :
  forall fuel st st' msg, loop agents handlers fuel m st <> Raise st' msg.
Proof.
  induction fuel as [|fuel IH]; intros st st' msg; simpl;
    destruct (negb (is_complete (plan st)) && (iteration st <? m));
    try discriminate.
  destruct (loop_body agents handlers st) as [st1|st1|st1 msg1] eqn:B;
    [discriminate|apply IH|].
  exfalso. unfold loop_body in B.
  destruct (get_next_step (plan st)) as [[i step]|];
    [|destruct (has_pending (steps (plan st))); discriminate].
  pose proof (@resolve_agent_with_coder agents (agent_type step) C) as R.
  destruct (resolve_agent agents (agent_type step)) as [key|];
    [|congruence].
  destruct (handlers (length (calls st)) key _ i); discriminate.
Qed.

Lemma run_loop_done (C : In ("coder" : str) agents) (goal : str)
  (tasks : list AgentTask) :
  exists st',
    loop agents handlers (length tasks * 4) (length tasks * 4)
      (initial_state goal tasks) = Done st'.
Proof.
  set (m := length tasks * 4). set (st := initial_state goal tasks).
  pose proof (@loop_calls_bounded agents handlers m m st) as B.
  assert (Hf : m - iteration st <= m) by lia. specialize (B Hf).
  pose proof (@loop_not_raise C m m st) as R.
  destruct (loop agents handlers m m st) as [st'|st' msg|].
  - now exists st'.
  - exfalso. exact (R st' msg eq_refl).
  - contradiction.
Qed.


(** ** The plan on return *)

Lemma reflect_step_frame (s : TaskStep) (r : str) (b : bool) :
  frame (fst (reflect_step s r b)) = frame s.
Proof.
  unfold reflect_step, frame. destruct b; [reflexivity|].
  cbv zeta. simpl.
  destruct (attempts s + 1 >=? max_attempts s)%Z; reflexivity.
Qed.

Lemma selected_is_pending (p : ExecutionPlan) (i : nat) (step : TaskStep) :
  get_next_step p = Some (i, step) ->
  nth_error (steps p) i = Some step /\ status step = pending.
Proof.
  intro N. destruct (get_next_step_nth _ N) as [Hn Hr].
  split; [exact Hn|]. unfold runnable in Hr.
  apply andb_true_iff in Hr. now apply status_eqb_eq.
Qed.

(** Within the invariant a pass never appends a recovery step: it
    replaces the selected step by what [reflect] makes of it. *)
Lemma pass_within_invariant (st st' : LoopState) :
  Inv st -> loop_body agents handlers st = Continue st' ->
  exists (i : nat) (step : TaskStep) (key : str),
    get_next_step (plan st) = Some (i, step)
    /\ resolve_agent agents (agent_type step) = Some key
    /\ let o := handlers (length (calls st)) key
                  (with_steps (plan st)
                     (update_nth i (set_status running) (steps (plan st))))
                  i in
       let step' := fst (reflect_step (set_status running step)
                           (outcome_text o) (outcome_success o)) in
       steps (plan st') = update_nth i (fun _ => step') (steps (plan st))
       /\ calls st' = calls st ++ [(id step, key)]
       /\ used step' = S (used step)
       /\ frame step' = frame step.
Proof.
  intros (Hok & _ & _) B.
  destruct (loop_body_pass _ B)
    as (i & step & key & N & R & Hc & _ & Hcf & _ & _ & _ & Hs & _).
  exists i, step, key. split; [exact N|]. split; [exact R|].
  cbv zeta in *.
  destruct (selected_is_pending _ N) as [Hn Hp].
  destruct (attempted_step (outcome_text
                              (handlers (length (calls st)) key
                                 (with_steps (plan st)
                                    (update_nth i (set_status running)
                                       (steps (plan st)))) i))
              (outcome_success
                 (handlers (length (calls st)) key
                    (with_steps (plan st)
                       (update_nth i (set_status running)
                          (steps (plan st)))) i))
              (Hok i step Hn) Hp)
    as (_ & _ & Hu & Hx).
  split; [|split; [exact Hc|split; [exact Hu|]]].
  - apply Hs. rewrite Hcf. exact Hx.
  - rewrite reflect_step_frame. reflexivity.
Qed.

Lemma break_cases (st st' : LoopState) :
  loop_body agents handlers st = Break st' ->
  get_next_step (plan st) = None
  /\ ((has_pending (steps (plan st)) = false /\ st' = st)
      \/ (has_pending (steps (plan st)) = true
          /\ st' = with_plan st
                     (with_steps (plan st)
                        (fail_pending (steps (plan st)))))).
Proof.
  unfold loop_body.
  destruct (get_next_step (plan st)) as [[i step]|].
  - destruct (resolve_agent agents (agent_type step)); [|discriminate].
    destruct (handlers _ _ _ _); discriminate.
  - destruct (has_pending (steps (plan st))) eqn:P;
      intro H; injection H as <-; auto.
Qed.

Lemma fail_pending_frame (l : list TaskStep) :
  map frame (fail_pending l) = map frame l.
Proof.
  unfold fail_pending. rewrite map_map. apply map_ext. intro s.
  destruct (status_eqb (status s) pending); reflexivity.
Qed.

Lemma fail_pending_used (l : list TaskStep) :
  map used (fail_pending l) = map used l.
Proof.
  unfold fail_pending. rewrite map_map. apply map_ext. intro s.
  destruct (status_eqb (status s) pending) eqn:E; [|reflexivity].
  apply status_eqb_eq in E. unfold used. simpl. now rewrite E.
Qed.

Lemma fail_pending_attempts (l : list TaskStep) :
  map attempts (fail_pending l) = map attempts l.
Proof.
  unfold fail_pending. rewrite map_map. apply map_ext. intro s.
  destruct (status_eqb (status s) pending); reflexivity.
Qed.

Lemma fail_pending_settles (l : list TaskStep) :
  (forall s, In s l -> status s <> running) ->
  forall s, In s (fail_pending l) ->
            status s = completed \/ status s = failed.
Proof.
  intros H s Hs. unfold fail_pending in Hs. apply in_map_iff in Hs.
  destruct Hs as (t & <- & Ht).
  destruct (status_eqb (status t) pending) eqn:E; [now right|].
  apply status_eqb_neq in E. specialize (H t Ht).
  destruct (status t); auto; congruence.
Qed.

Lemma Inv_not_running (st : LoopState) :
  Inv st -> forall s, In s (steps (plan st)) -> status s <> running.
Proof.
  intros (Hok & _) s Hs. apply In_nth_error in Hs. destruct Hs as [j Hj].
  now destruct (Hok j s Hj) as (_ & A & _).
Qed.

Lemma Inv_guard_none_pending (st : LoopState) :
  Inv st ->
  negb (is_complete (plan st))
  && (iteration st <? length (steps (plan st)) * 4) = false ->
  has_pending (steps (plan st)) = false.
Proof.
  intros HI G. apply andb_false_iff in G. destruct G as [G|G].
  - apply is_complete_none_pending. now apply negb_false_iff.
  - apply Nat.ltb_ge in G. destruct HI as (Hok & _ & Hit).
    pose proof (work_below_cap _ Hok) as W.
    apply count_pending_zero.
    destruct (steps (plan st)); [reflexivity|]. simpl length in *. lia.
Qed.

Lemma settled_steps (l : list TaskStep) :
  has_pending l = false ->
  (forall s, In s l -> status s <> running) ->
  forall s, In s l -> status s = completed \/ status s = failed.
Proof.
  intros P R s Hs. pose proof (proj1 (has_pending_false l) P s Hs).
  specialize (R s Hs). destruct (status s); auto; congruence.
Qed.

Lemma settled_is_complete (p : ExecutionPlan) :
  (forall s, In s (steps p) -> status s = completed \/ status s = failed) ->
  is_complete p = true.
Proof.
  intro H. unfold is_complete. apply forallb_forall. intros s Hs.
  unfold is_final. destruct (H s Hs) as [-> | ->]; reflexivity.
Qed.

(** The loop of [run_loop], started within the invariant, keeps the
    frame of every step and leaves every step completed or failed. *)
Lemma loop_keeps_the_plan (F : list (Z * str * str * Z * list str))
  (fuel : nat) (st st' : LoopState) :
  Inv st -> map frame (steps (plan st)) = F ->
  loop agents handlers fuel (length F * 4) st = Done st' ->
  map frame (steps (plan st')) = F
  /\ forall s, In s (steps (plan st')) ->
               status s = completed \/ status s = failed.
Proof.
  intros HI HF.
  apply (@loop_rule (length F * 4)
           (fun st => Inv st /\ map frame (steps (plan st)) = F)
           (fun st' =>
              map frame (steps (plan st')) = F
              /\ forall s, In s (steps (plan st')) ->
                           status s = completed \/ status s = failed));
    [| | |auto].
  - intros s s' [I E] B. split; [exact (proj1 (@Inv_continue agents handlers s s' I B))|].
    destruct (pass_within_invariant I B)
      as (i & step & key & N & _ & Hs & _ & _ & Hf).
    cbv zeta in Hs, Hf. rewrite Hs, <- E.
    destruct (selected_is_pending _ N) as [Hn _].
    now apply (map_update_nth_const frame _ _ _ Hn).
  - intros s s' [I E] B.
    destruct (break_cases _ B) as (_ & [[P ->]|[P ->]]).
    + split; [exact E|].
      apply settled_steps; [exact P|now apply Inv_not_running].
    + cbn [plan with_plan steps with_steps].
      split; [now rewrite fail_pending_frame|].
      apply fail_pending_settles. now apply Inv_not_running.
  - intros s [I E] G. split; [exact E|].
    apply settled_steps; [|now apply Inv_not_running].
    apply Inv_guard_none_pending; [exact I|].
    rewrite <- E, length_map in G. exact G.
Qed.

(** X7.  [run_loop] never changes the shape of its plan.  When it
    returns, the plan has exactly the steps made from the tasks, with
    the ids 1 .. N, descriptions, capabilities, budgets and dependencies
    they were created with: the recovery step of [revise_plan] is never
    appended, because a step only fails for good after three failures in
    a row, which is when recovery is skipped.  Every step is then
    completed or failed, so the plan is complete. *)
Theorem run_loop_keeps_the_plan
  (get_progress_text : ExecutionPlan -> str) (elapsed_text goal : str)
  (tasks : list AgentTask) (st : LoopState) (text : str) :
  run_loop agents handlers get_progress_text elapsed_text goal tasks
  = Returned st text ->
  map frame (steps (plan st))
  = map frame (steps (create_plan_from_tasks goal tasks))
  /\ length (steps (plan st)) = length tasks
  /\ map id (steps (plan st)) = ids_upto (length tasks)
  /\ (forall s, In s (steps (plan st)) ->
                status s = completed \/ status s = failed)
  /\ is_complete (plan st) = true.
Proof.
  unfold run_loop.
  set (st0 := initial_state goal tasks).
  set (F := map frame (steps (plan st0))).
  assert (L : length (steps (plan st0)) = length F)
    by (unfold F; now rewrite length_map).
  rewrite L.
  destruct (loop agents handlers (length F * 4) (length F * 4) st0)
    as [st1|st1 msg|] eqn:E; try discriminate.
  intro H. injection H as <- _.
  destruct (@loop_keeps_the_plan F _ st0 st1 (Inv_initial goal tasks)
              eq_refl E) as [HF HS].
  assert (I : map id (steps (plan st1)) = ids_upto (length tasks)).
  { change id with (fun s => fst (fst (fst (fst (frame s))))).
    rewrite <- (map_map frame (fun f => fst (fst (fst (fst f))))), HF.
    unfold F. rewrite map_map.
    change (fun s => fst (fst (fst (fst (frame s))))) with id.
    apply steps_from_ids. }
  split; [exact HF|]. split; [|split; [exact I|split; [exact HS|]]].
  - rewrite <- (length_map id), I. unfold ids_upto.
    now rewrite length_map, length_seq.
  - now apply settled_is_complete.
Qed.

End LoopFacts.

(* ================================================================== *)
(** * The control loop: accounting of the handler calls                *)
(* ================================================================== *)

Section LoopAccounting.
Import Orchestrator LoopInvariant PlanShape.
Variable agents : list str.
Variable handlers : Handlers.


Lemma calls_for_app (k : Z) (a b : list (Z * str)) :
  calls_for k (a ++ b) = calls_for k a + calls_for k b.
Proof. unfold calls_for. now rewrite filter_app, length_app. Qed.

Lemma calls_for_positive (k : Z) (l : list (Z * str)) :
  0 < calls_for k l -> exists c, In c l /\ fst c = k.
Proof.
  unfold calls_for. intro H.
  destruct (filter (fun c => (fst c =? k)%Z) l) as [|c f] eqn:F;
    [simpl in H; lia|].
  assert (Hc : In c (filter (fun c => (fst c =? k)%Z) l))
    by (rewrite F; now left).
  apply filter_In in Hc. destruct Hc as [Hc Ek].
  exists c. split; [exact Hc|now apply Z.eqb_eq].
Qed.

Lemma distinct_positions (l : list TaskStep) (i j : nat) (a b : TaskStep) :
  NoDup (map id l) -> nth_error l i = Some a -> nth_error l j = Some b ->
  i <> j -> id a <> id b.
Proof.
  intros ND Hi Hj Hne E. apply Hne.
  apply (proj1 (NoDup_nth_error (map id l)) ND).
  - rewrite length_map. apply nth_error_Some. congruence.
  - rewrite !nth_error_map, Hi, Hj. simpl. now rewrite E.
Qed.

Lemma used_within_budget (cf : nat) (s : TaskStep) :
  step_ok cf s -> used s <= 3.
Proof.
  intros (_ & A2 & A3 & A4 & A5 & A6). unfold used.
  destruct (status s) eqn:E; simpl.
  - destruct (A4 eq_refl). lia.
  - congruence.
  - specialize (A5 eq_refl). lia.
  - specialize (A6 eq_refl). lia.
Qed.

(** The calls made so far are the calls the steps account for. *)
Lemma loop_counts_calls (fuel m : nat) (st st' : LoopState) :
  Inv st -> NoDup (map id (steps (plan st))) ->
  (forall s, In s (steps (plan st)) -> calls_for (id s) (calls st) = used s) ->
  (forall c, In c (calls st) -> exists s, In s (steps (plan st))
                                          /\ id s = fst c) ->
  loop agents handlers fuel m st = Done st' ->
  (forall s, In s (steps (plan st')) ->
             calls_for (id s) (calls st') = used s /\ used s <= 3)
  /\ (forall c, In c (calls st') -> exists s, In s (steps (plan st'))
                                              /\ id s = fst c).
Proof.
  intros HI ND HU HC.
  set (P := fun st : LoopState =>
              Inv st /\ NoDup (map id (steps (plan st)))
              /\ (forall s, In s (steps (plan st)) ->
                            calls_for (id s) (calls st) = used s)
              /\ (forall c, In c (calls st) ->
                            exists s, In s (steps (plan st))
                                      /\ id s = fst c)).
  apply (@loop_rule agents handlers m P
           (fun st' =>
              (forall s, In s (steps (plan st')) ->
                         calls_for (id s) (calls st') = used s
                         /\ used s <= 3)
              /\ (forall c, In c (calls st') ->
                            exists s, In s (steps (plan st'))
                                      /\ id s = fst c)));
    [| | |unfold P; auto].
  - (* a pass that continues *)
    intros s s' (I & N & U & C) B.
    destruct (@pass_within_invariant agents handlers _ _ I B)
      as (i & step & key & Nx & _ & Hs & Hc & Hu & Hf).
    cbv zeta in Hs, Hc, Hu, Hf.
    set (step' := fst (reflect_step (set_status running step) _ _)) in *.
    destruct (selected_is_pending _ Nx) as [Hn _].
    assert (Hid : id step' = id step)
      by (unfold frame in Hf; congruence).
    assert (M : map id (steps (plan s')) = map id (steps (plan s))).
    { rewrite Hs. now apply (map_update_nth_const id _ _ _ Hn). }
    split; [exact (proj1 (@Inv_continue agents handlers s s' I B))|].
    split; [now rewrite M|]. split.
    + intros t Ht. apply In_nth_error in Ht. destruct Ht as [j Hj].
      rewrite Hs in Hj. rewrite Hc, calls_for_app.
      destruct (Nat.eq_dec i j) as [<-|Hij].
      * rewrite (nth_error_update_nth_eq _ _ _ Hn) in Hj.
        injection Hj as <-. rewrite Hid, Hu.
        rewrite (U step (nth_error_In _ _ Hn)).
        unfold calls_for. simpl. rewrite Z.eqb_refl. simpl. lia.
      * rewrite nth_error_update_nth_neq in Hj by assumption.
        rewrite (U t (nth_error_In _ _ Hj)).
        assert (D : id step <> id t)
          by exact (distinct_positions _ N Hn Hj Hij).
        unfold calls_for. simpl.
        destruct (Z.eqb_spec (id step) (id t)); [contradiction|].
        simpl. lia.
    + intros c Hin. rewrite Hc in Hin. apply in_app_or in Hin.
      assert (K : forall z, In z (map id (steps (plan s))) ->
                            exists t, In t (steps (plan s')) /\ id t = z).
      { intros z Hz. rewrite <- M in Hz. apply in_map_iff in Hz.
        destruct Hz as (t & E & Ht). eauto. }
      destruct Hin as [Hin|[<-|[]]].
      * destruct (C c Hin) as (t & Ht & E). apply K. rewrite <- E.
        now apply in_map.
      * apply K. simpl. apply in_map_iff. exists step. split; auto.
        exact (nth_error_In _ _ Hn).
  - (* the break *)
    intros s s' (I & N & U & C) B.
    assert (Q0 : forall t, In t (steps (plan s)) ->
                           calls_for (id t) (calls s) = used t
                           /\ used t <= 3).
    { intros t Ht. split; [now apply U|].
      apply In_nth_error in Ht. destruct Ht as [j Hj].
      destruct I as (Hok & _). exact (used_within_budget (Hok j t Hj)). }
    destruct (@break_cases agents handlers _ _ B) as (_ & [[_ ->]|[_ ->]]); [auto|].
    cbn [plan with_plan steps with_steps calls].
    assert (T : forall t', In t' (fail_pending (steps (plan s))) ->
                           exists t, In t (steps (plan s))
                                     /\ id t' = id t /\ used t' = used t).
    { intros t' Ht'. unfold fail_pending in Ht'. apply in_map_iff in Ht'.
      destruct Ht' as (t & <- & Ht). exists t. split; [exact Ht|].
      destruct (status_eqb (status t) pending) eqn:E; [|auto].
      apply status_eqb_eq in E. unfold used. simpl. rewrite E. auto. }
    split.
    + intros t' Ht'. destruct (T t' Ht') as (t & Ht & -> & ->). auto.
    + intros c Hin. destruct (C c Hin) as (t & Ht & E).
      exists (if status_eqb (status t) pending
              then set_error deadlock_error (set_status failed t) else t).
      split.
      * unfold fail_pending. apply in_map_iff. exists t. auto.
      * destruct (status_eqb (status t) pending); exact E.
  - (* the guard *)
    intros s (I & N & U & C) _. split; [|exact C].
    intros t Ht. split; [now apply U|].
    apply In_nth_error in Ht. destruct Ht as [j Hj].
    destruct I as (Hok & _). exact (used_within_budget (Hok j t Hj)).
Qed.

(** X9.  The retry budget holds for the whole run: when [run_loop]
    returns, no step was handed to a handler more than three times, and
    for every step the number of handler calls made for it is its count
    of failed attempts, plus one if it completed.  A completed step was
    not run again, and every call was made for a step of the plan. *)
Theorem run_loop_respects_the_retry_budget
  (get_progress_text : ExecutionPlan -> str) (elapsed_text goal : str)
  (tasks : list AgentTask) (st : LoopState) (text : str) :
  run_loop agents handlers get_progress_text elapsed_text goal tasks
  = Returned st text ->
  (forall s, In s (steps (plan st)) ->
             calls_for (id s) (calls st)
             = Z.to_nat (attempts s)
               + (if status_eqb (status s) completed then 1 else 0))
  /\ (forall k, calls_for k (calls st) <= 3)
  /\ (forall c, In c (calls st) ->
                exists s, In s (steps (plan st)) /\ id s = fst c).
Proof.
  unfold run_loop.
  set (st0 := initial_state goal tasks).
  set (m := length (steps (plan st0)) * 4).
  destruct (loop agents handlers m m st0) as [st1|st1 msg|] eqn:E;
    try discriminate.
  intro H. injection H as <- _.
  destruct (@loop_counts_calls m m st0 st1 (Inv_initial goal tasks))
    as [HU HC]; try exact E.
  - unfold st0. simpl. rewrite steps_from_ids.
    exact (ids_upto_NoDup (length tasks)).
  - intros s Hs. unfold st0 in *. simpl in *.
    apply In_nth_error in Hs. destruct Hs as [j Hj].
    destruct (steps_from_fresh _ _ _ Hj) as (S1 & S2 & _).
    unfold used. rewrite S1, S2. reflexivity.
  - intros c [].
  - split; [|split; [|exact HC]].
    + intros s Hs. exact (proj1 (HU s Hs)).
    + intro k. destruct (Nat.eq_dec (calls_for k (calls st1)) 0) as [Z0|Z0];
        [lia|].
      destruct (@calls_for_positive k (calls st1)) as (c & Hc & Ek); [lia|].
      destruct (HC c Hc) as (s & Hs & Es).
      destruct (HU s Hs) as [U1 U2]. rewrite <- Ek, <- Es. lia.
Qed.

End LoopAccounting.

(* ================================================================== *)
(** * The control loop: a run without failures                         *)
(* ================================================================== *)

Section CleanRun.
Import Orchestrator LoopInvariant PlanShape.
Variable agents : list str.
Variable handlers : Handlers.

Lemma steps_from_nth (tasks : list AgentTask) :
  forall k j s,
    nth_error (steps_from k tasks) j = Some s ->
    exists t,
      nth_error tasks j = Some t
      /\ id s = (Z.of_nat (k + j) + 1)%Z
      /\ dependencies s = deps_of (need t).
Proof.
  induction tasks as [|a tasks IH]; intros k [|j] s H; simpl in H;
    try discriminate.
  - injection H as <-. exists a. simpl. rewrite Nat.add_0_r. auto.
  - destruct (IH _ _ _ H) as (t & Ht & Hi & Hd). exists t. simpl.
    replace (k + S j) with (S k + j) by lia. auto.
Qed.

Lemma in_order_nth (tasks : list AgentTask) (st : LoopState) (j : nat)
  (s : TaskStep) :
  in_order tasks st -> nth_error (steps (plan st)) j = Some s ->
  exists t,
    nth_error tasks j = Some t
    /\ id s = (Z.of_nat j + 1)%Z
    /\ dependencies s = deps_of (need t).
Proof.
  intros (_ & F & _) H.
  assert (E : nth_error (map frame (steps (plan st))) j = Some (frame s))
    by (rewrite nth_error_map, H; reflexivity).
  rewrite F, nth_error_map in E.
  destruct (nth_error (steps_from 0 tasks) j) as [s0|] eqn:E0;
    [|discriminate].
  injection E as E. destruct (steps_from_nth _ _ _ E0) as (t & Ht & Hi & Hd).
  exists t. unfold frame in E. split; [exact Ht|].
  split; [|congruence]. simpl in Hi. congruence.
Qed.

Lemma in_order_length (tasks : list AgentTask) (st : LoopState) :
  in_order tasks st -> length (steps (plan st)) = length tasks.
Proof.
  intros (_ & F & _).
  rewrite <- (length_map frame), F, length_map. apply length_steps_from.
Qed.

(** In such a state the scheduler selects the first waiting step. *)
Lemma in_order_next (tasks : list AgentTask) (st : LoopState) :
  backward_needs tasks -> in_order tasks st ->
  iteration st < length tasks ->
  exists step, get_next_step (plan st) = Some (iteration st, step).
Proof.
  intros BN O Hlt. pose proof (in_order_length O) as L.
  pose proof O as (HI & F & Hle & HS & HC & _).
  destruct (nth_error (steps (plan st)) (iteration st)) as [step|] eqn:Hn.
  2:{ apply nth_error_None in Hn. lia. }
  exists step.
  destruct (nth_error_split _ _ Hn) as (l1 & l2 & E & Hl1).
  unfold get_next_step. rewrite E at 2.
  rewrite <- Hl1. change (length l1) with (0 + length l1).
  apply first_from_split.
  - apply Forall_forall. intros t Ht.
    apply In_nth_error in Ht. destruct Ht as [j Hj].
    assert (Hj' : nth_error (steps (plan st)) j = Some t).
    { rewrite E, nth_error_app1; [exact Hj|].
      apply nth_error_Some. congruence. }
    assert (Hlt' : j < iteration st).
    { rewrite <- Hl1. apply nth_error_Some. congruence. }
    destruct (HS j t Hj') as [_ St].
    apply Nat.ltb_lt in Hlt'. rewrite Hlt' in St.
    unfold runnable. now rewrite St.
  - unfold runnable. destruct (HS _ _ Hn) as [_ St].
    rewrite Nat.ltb_irrefl in St. rewrite St. simpl.
    unfold deps_met. apply forallb_forall. intros d Hd.
    unfold dep_step.
    destruct (find (fun s => Text.eqb (str_of_Z (id s)) d) (steps (plan st)))
      as [s'|] eqn:Fd; [|reflexivity].
    apply find_some in Fd. destruct Fd as [Hin Ed].
    apply text_eqb_eq in Ed. apply In_nth_error in Hin.
    destruct Hin as [j Hj].
    destruct (in_order_nth _ O Hn) as (t & Ht & _ & Hdeps).
    destruct (in_order_nth _ O Hj) as (_ & _ & Hid & _).
    assert (Hjl : j < length tasks).
    { rewrite <- L. apply nth_error_Some. congruence. }
    rewrite Hdeps in Hd. rewrite Hid in Ed.
    pose proof (BN _ _ _ _ Ht Hd Hjl (eq_sym Ed)) as Hjn.
    destruct (HS j s' Hj) as [_ Ss].
    apply Nat.ltb_lt in Hjn. rewrite Hjn in Ss. now rewrite Ss.
Qed.

Lemma in_order_pass (tasks : list AgentTask) (st st' : LoopState) :
  always_succeed handlers -> backward_needs tasks ->
  in_order tasks st -> loop_body agents handlers st = Continue st' ->
  in_order tasks st'.
Proof.
  intros AS BN O B. pose proof (in_order_length O) as L.
  pose proof O as (HI & F & Hle & HS & HC & Hcf).
  destruct (@pass_within_invariant agents handlers _ _ HI B)
    as (i & step & key & N & R & Hs & Hc & _ & Hf).
  destruct (@loop_body_pass agents handlers _ _ B)
    as (i' & step2 & key' & N' & R' & _ & Hi & Hcf' & _).
  rewrite N in N'. injection N' as <- <-.
  rewrite R in R'. injection R' as <-.
  cbv zeta in Hs, Hf, Hcf'.
  destruct (AS (length (calls st)) key
              (with_steps (plan st)
                 (update_nth i (set_status running) (steps (plan st)))) i)
    as [answer A].
  rewrite A in Hs, Hf, Hcf'. cbn [outcome_text outcome_success] in *.
  rewrite reflect_step_success in Hs, Hf.
  destruct (selected_is_pending _ N) as [Hn Hp].
  (* the selected step is the first waiting one *)
  assert (Hi_ge : iteration st <= i).
  { destruct (HS i step Hn) as [_ St].
    destruct (i <? iteration st) eqn:C; [congruence|].
    now apply Nat.ltb_ge. }
  assert (Hi_lt : i < length tasks).
  { rewrite <- L. apply nth_error_Some. congruence. }
  destruct (in_order_next BN O) as [step0 N0]; [lia|].
  rewrite N in N0. injection N0 as Ei _.
  destruct (in_order_nth _ O Hn) as (_ & _ & Hid & _).
  unfold in_order. rewrite Hs, Hc, Hi, Hcf'.
  split; [exact (proj1 (@Inv_continue agents handlers st st' HI B))|].
  split; [|split; [lia|split; [|split; [|reflexivity]]]].
  - rewrite <- F. now apply (map_update_nth_const frame _ _ _ Hn).
  - intros j t Hj. destruct (Nat.eq_dec i j) as [<-|Hij].
    + rewrite (nth_error_update_nth_eq _ _ _ Hn) in Hj.
      injection Hj as <-. simpl.
      split; [exact (proj1 (HS i step Hn))|].
      assert (C : (i <? S (iteration st)) = true)
        by (apply Nat.ltb_lt; lia).
      now rewrite C.
    + rewrite nth_error_update_nth_neq in Hj by assumption.
      destruct (HS j t Hj) as [At St]. split; [exact At|]. rewrite St.
      destruct (Nat.ltb_spec j (iteration st)),
               (Nat.ltb_spec j (S (iteration st)));
        try reflexivity; lia.
  - rewrite map_app, HC, ids_upto_snoc. simpl. rewrite Hid, Ei.
    reflexivity.
Qed.

Lemma in_order_finished (tasks : list AgentTask) (st : LoopState) :
  in_order tasks st -> iteration st = length tasks ->
  has_pending (steps (plan st)) = false.
Proof.
  intros O E. pose proof (in_order_length O) as L.
  destruct O as (_ & _ & _ & HS & _).
  apply has_pending_false. intros s Hs. apply In_nth_error in Hs.
  destruct Hs as [j Hj]. destruct (HS j s Hj) as [_ St].
  assert (C : (j <? iteration st) = true).
  { apply Nat.ltb_lt. rewrite E, <- L. apply nth_error_Some. congruence. }
  rewrite C in St. congruence.
Qed.

Lemma clean_run (tasks : list AgentTask) (fuel : nat) (st st' : LoopState) :
  always_succeed handlers -> backward_needs tasks ->
  in_order tasks st ->
  loop agents handlers fuel (length tasks * 4) st = Done st' ->
  in_order tasks st' /\ iteration st' = length tasks.
Proof.
  intros AS BN O.
  apply (@loop_rule agents handlers (length tasks * 4) (in_order tasks)
           (fun st' => in_order tasks st' /\ iteration st' = length tasks));
    [| | |exact O].
  - intros s s' Os B. exact (in_order_pass AS BN Os B).
  - intros s s' Os B.
    destruct (@break_cases agents handlers _ _ B) as (N & C).
    assert (E : iteration s = length tasks).
    { destruct (Nat.eq_dec (iteration s) (length tasks)) as [E|E];
        [exact E|].
      pose proof Os as (_ & _ & X3 & _).
      destruct (@in_order_next tasks s BN Os) as [step Ns];
        [lia|congruence]. }
    pose proof (in_order_finished Os E) as P.
    destruct C as [[_ ->]|[P' _]]; [auto|congruence].
  - intros s Os G. split; [exact Os|].
    destruct (Nat.eq_dec (iteration s) (length tasks)) as [E|E]; [exact E|].
    exfalso. pose proof (in_order_length Os) as L.
    destruct Os as (_ & _ & Hle & HS & _).
    apply andb_false_iff in G. destruct G as [G|G].
    + apply negb_false_iff in G. unfold is_complete in G.
      rewrite forallb_forall in G.
      destruct (nth_error (steps (plan s)) (iteration s)) as [t|] eqn:Hn.
      2:{ apply nth_error_None in Hn. lia. }
      specialize (G t (nth_error_In _ _ Hn)).
      destruct (HS _ _ Hn) as [_ St]. rewrite Nat.ltb_irrefl in St.
      unfold is_final in G. rewrite St in G. discriminate.
    + apply Nat.ltb_ge in G. lia.
Qed.

(** X10.  A run in which every handler call succeeds.  If the tasks
    only need earlier tasks (or ids that no task has), a handler is
    registered under [coder], and every handler call reports success,
    then [run_loop] returns after exactly one call for each task, made
    in the order of the tasks, and every step is completed at its first
    attempt: nothing is retried, failed or left waiting. *)
Theorem run_loop_completes_in_order
  (get_progress_text : ExecutionPlan -> str) (elapsed_text goal : str)
  (tasks : list AgentTask) :
  In ("coder" : str) agents ->
  always_succeed handlers ->
  backward_needs tasks ->
  exists st text,
    run_loop agents handlers get_progress_text elapsed_text goal tasks
    = Returned st text
    /\ (forall s, In s (steps (plan st)) ->
                  status s = completed /\ attempts s = 0%Z)
    /\ map fst (calls st) = ids_upto (length tasks)
    /\ iteration st = length tasks
    /\ count_status completed (steps (plan st)) = length tasks.
Proof.
  intros C AS BN. unfold run_loop.
  change (length (steps (plan (initial_state goal tasks))))
    with (length (steps_from 0 tasks)).
  rewrite length_steps_from.
  destruct (@run_loop_done agents handlers C goal tasks) as [st' E].
  rewrite E. exists st'. eexists. split; [reflexivity|].
  assert (O0 : in_order tasks (initial_state goal tasks)).
  { unfold in_order. split; [apply Inv_initial|]. simpl.
    split; [reflexivity|]. split; [lia|]. split; [|auto].
    intros j t Hj. destruct (steps_from_fresh _ _ _ Hj) as (S1 & S2 & _).
    auto. }
  destruct (clean_run _ AS BN O0 E) as [O En].
  pose proof (in_order_length O) as L.
  pose proof O as (_ & _ & _ & HS & HC & _).
  assert (A : forall s, In s (steps (plan st')) ->
                        status s = completed /\ attempts s = 0%Z).
  { intros s Hs. apply In_nth_error in Hs. destruct Hs as [j Hj].
    destruct (HS j s Hj) as [At St].
    assert (X : (j <? iteration st') = true).
    { apply Nat.ltb_lt. rewrite En, <- L. apply nth_error_Some.
      congruence. }
    rewrite X in St. auto. }
  split; [exact A|]. split; [now rewrite <- En|]. split; [exact En|].
  rewrite <- L. unfold count_status.
  generalize dependent (steps (plan st')). clear.
  intros l _ _ A. induction l as [|s l IH]; [reflexivity|].
  simpl. rewrite (proj1 (A s (or_introl eq_refl))). simpl. f_equal.
  apply IH. intros t Ht. apply A. now right.
Qed.

End CleanRun.

(* ================================================================== *)
(** * The control loop: dependencies                                   *)
(* ================================================================== *)

Section Dependencies.
Import Orchestrator LoopInvariant PlanShape PlanSpec.
Variable agents : list str.
Variable handlers : Handlers.

Lemma runnable_needs (l : list TaskStep) (s t : TaskStep) :
  NoDup (map id l) -> runnable l s = true ->
  In t l -> In (str_of_Z (id t)) (dependencies s) -> status t = completed.
Proof.
  intros ND R Ht Hd. apply (@runnable_spec l s ND) in R.
  destruct R as [_ R]. exact (R _ Hd t Ht eq_refl).
Qed.

Lemma needs_met_pass (st st' : LoopState) :
  Inv st -> NoDup (map id (steps (plan st))) ->
  needs_met (steps (plan st)) ->
  loop_body agents handlers st = Continue st' ->
  NoDup (map id (steps (plan st'))) /\ needs_met (steps (plan st')).
Proof.
  intros I ND J B.
  destruct (@pass_within_invariant agents handlers _ _ I B)
    as (i & step & key & N & _ & Hs & _ & _ & Hf).
  cbv zeta in Hs, Hf.
  set (step' := fst (reflect_step (set_status running step) _ _)) in *.
  destruct (get_next_step_nth _ N) as [Hn Hr].
  destruct (selected_is_pending _ N) as [_ Hp].
  assert (Hid : id step' = id step) by (unfold frame in Hf; congruence).
  assert (Hdep : dependencies step' = dependencies step)
    by (unfold frame in Hf; congruence).
  assert (M : map id (steps (plan st')) = map id (steps (plan st))).
  { rewrite Hs. now apply (map_update_nth_const id _ _ _ Hn). }
  split; [now rewrite M|].
  assert (Old : forall j x, nth_error (steps (plan st')) j = Some x ->
                            (j = i /\ x = step')
                            \/ (j <> i /\ nth_error (steps (plan st)) j
                                          = Some x)).
  { intros j x Hj. rewrite Hs in Hj. destruct (Nat.eq_dec i j) as [<-|Hij].
    - rewrite (nth_error_update_nth_eq _ _ _ Hn) in Hj.
      injection Hj as <-. auto.
    - rewrite nth_error_update_nth_neq in Hj by assumption. auto. }
  pose proof (nth_error_In _ _ Hn) as Hstep.
  intros s t Hs' Ht' U D.
  apply In_nth_error in Hs'. destruct Hs' as [a Ha].
  apply In_nth_error in Ht'. destruct Ht' as [b Hb].
  destruct (Old a s Ha) as [[-> ->]|[Na Ha']];
    destruct (Old b t Hb) as [[-> ->]|[Nb Hb']].
  - (* the step would need itself: it was not runnable *)
    exfalso. rewrite Hid, Hdep in D.
    pose proof (@runnable_needs _ _ _ ND Hr Hstep D). congruence.
  - rewrite Hdep in D.
    exact (@runnable_needs _ _ _ ND Hr (nth_error_In _ _ Hb') D).
  - (* a step that was run needs the selected one: it was completed *)
    exfalso. rewrite Hid in D.
    pose proof (J s step (nth_error_In _ _ Ha') Hstep U D). congruence.
  - exact (J s t (nth_error_In _ _ Ha') (nth_error_In _ _ Hb') U D).
Qed.

Lemma needs_met_fail_pending (l : list TaskStep) :
  needs_met l -> needs_met (fail_pending l).
Proof.
  intros J s' t' Hs Ht U D. unfold fail_pending in Hs, Ht.
  apply in_map_iff in Hs. destruct Hs as (s & <- & Hs).
  apply in_map_iff in Ht. destruct Ht as (t & <- & Ht).
  assert (C : status t = completed).
  { apply (J s t Hs Ht).
    - destruct (status_eqb (status s) pending) eqn:E; [|exact U].
      apply status_eqb_eq in E. unfold used in *. simpl in U.
      now rewrite E.
    - destruct (status_eqb (status s) pending),
               (status_eqb (status t) pending); exact D. }
  rewrite C. simpl. exact C.
Qed.

Lemma loop_needs_met (fuel m : nat) (st st' : LoopState) :
  Inv st -> NoDup (map id (steps (plan st))) ->
  needs_met (steps (plan st)) ->
  loop agents handlers fuel m st = Done st' ->
  needs_met (steps (plan st')).
Proof.
  intros I ND J.
  apply (@loop_rule agents handlers m
           (fun st => Inv st /\ NoDup (map id (steps (plan st)))
                      /\ needs_met (steps (plan st)))
           (fun st' => needs_met (steps (plan st'))));
    [| | |auto].
  - intros s s' (Is & Ns & Js) B.
    split; [exact (proj1 (@Inv_continue agents handlers s s' Is B))|].
    exact (needs_met_pass Is Ns Js B).
  - intros s s' (_ & _ & Js) B.
    destruct (@break_cases agents handlers _ _ B) as (_ & [[_ ->]|[_ ->]]);
      [exact Js|].
    cbn [plan with_plan steps with_steps].
    now apply needs_met_fail_pending.
  - intros s (_ & _ & Js) _. exact Js.
Qed.

Lemma loop_attempts_nonneg (fuel m : nat) (st st' : LoopState) :
  Inv st -> loop agents handlers fuel m st = Done st' ->
  forall s, In s (steps (plan st')) -> (0 <= attempts s)%Z.
Proof.
  intro I.
  assert (G : forall st, Inv st ->
                         forall s, In s (steps (plan st)) ->
                                   (0 <= attempts s)%Z).
  { intros x (Hok & _) s Hs. apply In_nth_error in Hs.
    destruct Hs as [j Hj]. now destruct (Hok j s Hj) as (_ & _ & A & _). }
  apply (@loop_rule agents handlers m Inv
           (fun st' => forall s, In s (steps (plan st')) ->
                                 (0 <= attempts s)%Z));
    [| | |exact I].
  - intros s s' Is B. exact (proj1 (@Inv_continue agents handlers s s' Is B)).
  - intros s s' Is B.
    destruct (@break_cases agents handlers _ _ B) as (_ & [[_ ->]|[_ ->]]);
      [now apply G|].
    cbn [plan with_plan steps with_steps]. intros x Hx.
    unfold fail_pending in Hx. apply in_map_iff in Hx.
    destruct Hx as (y & <- & Hy). pose proof (G s Is y Hy).
    destruct (status_eqb (status y) pending); assumption.
  - intros s Is _. now apply G.
Qed.

(** X11.  [run_loop] respects the dependencies throughout the run.
    When it returns, every step that was handed to a handler has all the
    steps it depends on completed; so a step that depends on a failed
    step was never run: no handler call was made for it, it counts no
    attempt, and it ends failed. *)
Theorem run_loop_respects_dependencies
  (get_progress_text : ExecutionPlan -> str) (elapsed_text goal : str)
  (tasks : list AgentTask) (st : LoopState) (text : str) :
  run_loop agents handlers get_progress_text elapsed_text goal tasks
  = Returned st text ->
  forall s t,
    In s (steps (plan st)) -> In t (steps (plan st)) ->
    In (str_of_Z (id t)) (dependencies s) ->
    (0 < calls_for (id s) (calls st) -> status t = completed)
    /\ (status t = failed ->
        calls_for (id s) (calls st) = 0
        /\ attempts s = 0%Z /\ status s = failed).
Proof.
  unfold run_loop.
  set (st0 := initial_state goal tasks).
  set (F := map frame (steps (plan st0))).
  assert (L : length (steps (plan st0)) = length F)
    by (unfold F; now rewrite length_map).
  rewrite L.
  destruct (loop agents handlers (length F * 4) (length F * 4) st0)
    as [st1|st1 msg|] eqn:E; try discriminate.
  intro H. injection H as <- _.
  assert (ND : NoDup (map id (steps (plan st0)))).
  { unfold st0. simpl. rewrite steps_from_ids. apply ids_upto_NoDup. }
  assert (Fresh : forall s, In s (steps (plan st0)) ->
                            status s = pending /\ attempts s = 0%Z).
  { intros s Hs. apply In_nth_error in Hs. destruct Hs as [j Hj].
    unfold st0 in Hj. simpl in Hj.
    destruct (steps_from_fresh _ _ _ Hj) as (S1 & S2 & _). auto. }
  assert (J0 : needs_met (steps (plan st0))).
  { intros s t Hs _ U _. destruct (Fresh s Hs) as [S1 S2].
    unfold used in U. rewrite S1, S2 in U. simpl in U. lia. }
  pose proof (loop_needs_met _ _ (Inv_initial goal tasks) ND J0 E) as J.
  destruct (@loop_keeps_the_plan agents handlers F _ st0 st1
              (Inv_initial goal tasks) eq_refl E) as [_ Fin].
  destruct (@loop_counts_calls agents handlers (length F * 4)
              (length F * 4) st0 st1 (Inv_initial goal tasks) ND)
    as [HU _]; try exact E.
  { intros s Hs. destruct (Fresh s Hs) as [S1 S2].
    unfold used. rewrite S1, S2. reflexivity. }
  { intros c []. }
  intros s t Hs Ht D. destruct (HU s Hs) as [Us _].
  assert (A : 0 < calls_for (id s) (calls st1) -> status t = completed).
  { intro P. rewrite Us in P. exact (J s t Hs Ht P D). }
  split; [exact A|]. intro Ft.
  assert (Z0 : calls_for (id s) (calls st1) = 0).
  { destruct (calls_for (id s) (calls st1)) eqn:C; [reflexivity|].
    assert (X : status t = completed) by (apply A; lia). congruence. }
  split; [exact Z0|]. rewrite Z0 in Us. unfold used in Us.
  destruct (Fin s Hs) as [Cs|Fs].
  - rewrite Cs in Us. simpl in Us. lia.
  - split; [|exact Fs]. rewrite Fs in Us. simpl in Us.
    pose proof (loop_attempts_nonneg _ _ (Inv_initial goal tasks) E s Hs).
    lia.
Qed.

End Dependencies.


Lemma run_loop_keeps_the_plan_witness :
  exists st text,
    Orchestrator.run_loop LoopExamples.two_agents LoopExamples.always_fail
      (fun _ => "(progress)" : str) "0.0" "goal" LoopExamples.two_tasks
    = Orchestrator.Returned st text
    /\ length (Orchestrator.steps (Orchestrator.plan st)) = 2
    /\ Orchestrator.is_complete (Orchestrator.plan st) = true.
Proof.
  destruct (Orchestrator.run_loop LoopExamples.two_agents
              LoopExamples.always_fail (fun _ => "(progress)" : str)
              "0.0" "goal" LoopExamples.two_tasks)
    as [st text|st msg|] eqn:E.
  - exists st, text. split; [reflexivity|].
    destruct (@run_loop_keeps_the_plan LoopExamples.two_agents
                LoopExamples.always_fail _ _ _ _ st text E)
      as (_ & L & _ & _ & C).
    split; [exact L|exact C].
  - vm_compute in E. discriminate.
  - vm_compute in E. discriminate.
Defined.


Lemma run_loop_respects_the_retry_budget_witness :
  exists st text,
    Orchestrator.run_loop LoopExamples.two_agents LoopExamples.always_fail
      (fun _ => "(progress)" : str) "0.0" "goal" LoopExamples.two_tasks
    = Orchestrator.Returned st text
    /\ forall k, PlanShape.calls_for k (Orchestrator.calls st) <= 3.
Proof.
  destruct (Orchestrator.run_loop LoopExamples.two_agents
              LoopExamples.always_fail (fun _ => "(progress)" : str)
              "0.0" "goal" LoopExamples.two_tasks)
    as [st text|st msg|] eqn:E.
  - exists st, text. split; [reflexivity|].
    exact (proj1 (proj2
             (@run_loop_respects_the_retry_budget LoopExamples.two_agents
                LoopExamples.always_fail _ _ _ _ st text E))).
  - vm_compute in E. discriminate.
  - vm_compute in E. discriminate.
Defined.

Lemma run_loop_completes_in_order_witness :
  exists st text,
    Orchestrator.run_loop LoopExamples.two_agents PlanShape.echo
      (fun _ => "(progress)" : str) "0.0" "goal" PlanShape.three_tasks
    = Orchestrator.Returned st text
    /\ map fst (Orchestrator.calls st) = [1%Z; 2%Z; 3%Z]
    /\ Orchestrator.iteration st = 3.
Proof.
  destruct (@run_loop_completes_in_order LoopExamples.two_agents
              PlanShape.echo (fun _ => "(progress)" : str) "0.0" "goal"
              PlanShape.three_tasks)
    as (st & text & R & _ & C & I & _).
  - simpl. tauto.
  - intros n key p i. exists key. reflexivity.
  - intros k t d j Hk Hd Hj E.
    destruct k as [|[|[|k]]]; simpl in Hk;
      try (destruct k; discriminate);
      injection Hk as <-; simpl in Hd;
      repeat (destruct Hd as [<-|Hd]); try contradiction;
      destruct j as [|[|[|j]]]; simpl in Hj; try lia;
      vm_compute in E; discriminate.
  - exists st, text. auto.
Defined.

Lemma run_loop_respects_dependencies_witness :
  exists st text,
    Orchestrator.run_loop LoopExamples.two_agents LoopExamples.always_fail
      (fun _ => "(progress)" : str) "0.0" "goal" LoopExamples.two_tasks
    = Orchestrator.Returned st text
    /\ forall s t,
         In s (Orchestrator.steps (Orchestrator.plan st)) ->
         In t (Orchestrator.steps (Orchestrator.plan st)) ->
         In (str_of_Z (Orchestrator.id t)) (Orchestrator.dependencies s) ->
         Orchestrator.status t = Orchestrator.failed ->
         PlanShape.calls_for (Orchestrator.id s) (Orchestrator.calls st) = 0.
Proof.
  destruct (Orchestrator.run_loop LoopExamples.two_agents
              LoopExamples.always_fail (fun _ => "(progress)" : str)
              "0.0" "goal" LoopExamples.two_tasks)
    as [st text|st msg|] eqn:E.
  - exists st, text. split; [reflexivity|]. intros s t Hs Ht D F.
    exact (proj1 (proj2
             (@run_loop_respects_dependencies LoopExamples.two_agents
                LoopExamples.always_fail _ _ _ _ st text E s t Hs Ht D) F)).
  - vm_compute in E. discriminate.
  - vm_compute in E. discriminate.
Defined.

(* ================================================================== *)
(** * The context handed to a step                                     *)
(* ================================================================== *)

Section StepContextFacts.
Import Py Orchestrator StepContext.

Lemma collected (test : TaskStep -> bool) (val : TaskStep -> str)
  (l : list TaskStep) :
  forall d r,
    r = fold_left
          (fun d p => if test p
                      then dict_set d (str_of_Z (id p)) (val p)
                      else d) l d ->
    (forall k v, In (k, v) r ->
                 In (k, v) d
                 \/ exists p, In p l /\ test p = true
                              /\ k = str_of_Z (id p) /\ v = val p)
    /\ (NoDup (map fst d) -> NoDup (map fst r))
    /\ (forall k, In k (map fst d) -> In k (map fst r))
    /\ (forall p, In p l -> test p = true ->
                  In (str_of_Z (id p)) (map fst r)).
Proof.
  induction l as [|x l IH]; intros d r ->; simpl.
  - split; [auto|]. split; [auto|]. split; [auto|]. intros p [].
  - set (d1 := if test x then dict_set d (str_of_Z (id x)) (val x) else d).
    destruct (IH d1 _ eq_refl) as (I1 & I2 & I3 & I4).
    assert (K : forall k, In k (map fst d) -> In k (map fst d1)).
    { intros k Hk. unfold d1. destruct (test x); [|exact Hk].
      exact (proj2 (dict_set_has_key d (str_of_Z (id x)) (val x)) k Hk). }
    split; [|split; [|split]].
    + intros k v H. destruct (I1 k v H) as [H1|(p & Hp & T & E1 & E2)].
      * unfold d1 in H1. destruct (test x) eqn:T; [|auto].
        apply dict_set_In in H1. destruct H1 as [[-> ->]|H1]; [|auto].
        right. exists x. auto.
      * right. exists p. auto.
    + intro ND. apply I2. unfold d1. destruct (test x); [|exact ND].
      now apply dict_set_NoDup.
    + intros k Hk. apply I3, K, Hk.
    + intros p [<-|Hp] T; [|now apply I4].
      apply I3. unfold d1. rewrite T.
      exact (proj1 (dict_set_has_key d (str_of_Z (id x)) (val x))).
Qed.

(** X12.  The context [run_loop] hands to a step.  Every entry of
    [required_infos] is the result of a completed step of the plan,
    under the text of its id.  Either all entries are for dependencies
    of the step, each cut to 500 characters, and every completed
    dependency has an entry; or no dependency of the step is completed
    and the entries are for the completed steps with a smaller id, each
    cut to 300 characters.  No key is listed twice. *)
Theorem required_infos_are_completed_results (plan : ExecutionPlan)
  (step : TaskStep) :
  let infos := required_infos plan step in
  let is_dep (p : TaskStep) :=
    existsb (Text.eqb (str_of_Z (id p))) (dependencies step)
    && status_eqb (status p) completed in
  NoDup (map fst infos)
  /\ ((Forall (fun kv =>
                 exists p,
                   In p (steps plan) /\ status p = completed
                   /\ In (str_of_Z (id p)) (dependencies step)
                   /\ fst kv = str_of_Z (id p)
                   /\ snd kv = firstn 500 (result p))
         infos
       /\ forall p, In p (steps plan) -> is_dep p = true ->
                    In (str_of_Z (id p)) (map fst infos))
      \/ (Forall (fun kv =>
                    exists p,
                      In p (steps plan) /\ status p = completed
                      /\ (id p < id step)%Z
                      /\ fst kv = str_of_Z (id p)
                      /\ snd kv = firstn 300 (result p))
            infos
          /\ (forall p, In p (steps plan) -> is_dep p = false)
          /\ forall p, In p (steps plan) -> status p = completed ->
                       (id p < id step)%Z ->
                       In (str_of_Z (id p)) (map fst infos))).
Proof.
  cbv zeta. unfold required_infos. cbv zeta.
  match goal with
  | |- context [match ?t with [] => ?e | _ :: _ => _ end] =>
      set (deps := t); set (early := e)
  end.
  destruct (@collected
              (fun p => existsb (Text.eqb (str_of_Z (id p)))
                          (dependencies step)
                        && status_eqb (status p) completed)
              (fun p => firstn 500 (result p)) (steps plan) [] deps eq_refl)
    as (A1 & A2 & _ & A4).
  destruct (@collected
              (fun p => (id p <? id step)%Z
                        && status_eqb (status p) completed)
              (fun p => firstn 300 (result p)) (steps plan) [] early eq_refl)
    as (B1 & B2 & _ & B4).
  cbv beta in A1, A4, B1, B4.
  destruct deps as [|kv rest] eqn:D.
  - split; [apply B2; constructor|]. right. split; [|split].
    + apply Forall_forall. intros [k v] H.
      destruct (B1 k v H) as [[]|(p & Hp & T & -> & ->)].
      apply andb_true_iff in T. destruct T as [T1 T2].
      apply Z.ltb_lt in T1. apply status_eqb_eq in T2.
      exists p. auto.
    + intros p Hp.
      destruct (existsb (Text.eqb (str_of_Z (id p))) (dependencies step)
                && status_eqb (status p) completed) eqn:T; [|reflexivity].
      destruct (A4 p Hp T).
    + intros p Hp C L. apply B4; [exact Hp|].
      apply andb_true_iff. split.
      * now apply Z.ltb_lt.
      * now apply status_eqb_eq.
  - split; [apply A2; constructor|]. left. split.
    + apply Forall_forall. intros [k v] H.
      destruct (A1 k v H) as [[]|(p & Hp & T & -> & ->)].
      apply andb_true_iff in T. destruct T as [T1 T2].
      apply existsb_exists in T1. destruct T1 as (d & Hd & E).
      apply text_eqb_eq in E. subst d. apply status_eqb_eq in T2.
      exists p. auto.
    + exact A4.
Qed.

End StepContextFacts.

(* ================================================================== *)
(** * The sandbox: results, history and the processes of a run         *)
(* ================================================================== *)

Section ResultFacts.
Import Sandbox SandboxReport ResultSpec.
Variable world : World.

Lemma run_code_subprocess_facts (self : SafeExecutor) (code language : str)
  (config : LangConfig) (tr : list Event) :
  exists o,
    _run_code_subprocess world self code language config tr
    = (o, tr ++ [RunFile language code])
    /\ (forall r, o = Ok r ->
                  well_formed r /\ Sandbox.language r = language)
    /\ (forall out t,
           world tr (RunFile language code) = TimedOut out t ->
           o = Ok {| success := false; output := out;
                     errors := timeout_message self;
                     execution_time := t; language := language;
                     timed_out := true; blocked := false;
                     blocked_reason := []; truncated := false |}).
Proof.
  unfold _run_code_subprocess, bind, request.
  destruct (world tr (RunFile language code)) as [rc out err t|out t|msg t].
  - destruct (_truncate_output out) as [text cut].
    eexists. split; [reflexivity|]. split; [|discriminate].
    intros r H. injection H as <-. unfold well_formed. simpl.
    repeat split; discriminate.
  - eexists. split; [reflexivity|]. split.
    + intros r H. injection H as <-. unfold well_formed. simpl.
      repeat split; discriminate.
    + intros out' t' H. injection H as <- <-. reflexivity.
  - eexists. split; [reflexivity|]. split; discriminate.
Qed.

Lemma shell_result_well_formed (self : SafeExecutor) (o : ProcOutcome) :
  well_formed (ShellSpec.shell_result self o)
  /\ language (ShellSpec.shell_result self o) = ("bash" : str).
Proof.
  destruct o; unfold well_formed, ShellSpec.shell_result, mkResult;
    cbn [success timed_out truncated blocked output errors blocked_reason
         language];
    repeat split; discriminate.
Qed.

Lemma try_auto_install_facts (error_text : str) (tr : list Event) :
  exists installed evs,
    _try_auto_install world error_text tr = (Ok installed, tr ++ evs)
    /\ (evs = [] \/ exists pkg, evs = [PipInstall pkg]).
Proof.
  unfold _try_auto_install.
  destruct (re_search module_name_pattern error_text) as [m|].
  - unfold bind, request.
    match goal with
    | |- context [world tr ?e] => destruct (world tr e)
    end; do 2 eexists; (split; [reflexivity|]); right; eauto.
  - exists false, []. unfold ret. rewrite app_nil_r. auto.
Qed.

Lemma execute_shell_facts (self : SafeExecutor) (command : str)
  (tr : list Event) :
  exists r evs,
    _execute_shell world self command tr = (Ok r, tr ++ evs)
    /\ well_formed r /\ language r = ("bash" : str)
    /\ (evs = [] \/ exists c, evs = [RunShell c]).
Proof.
  unfold _execute_shell.
  destruct (_is_system_install command).
  - eexists. exists []. unfold ret. rewrite app_nil_r.
    split; [reflexivity|]. unfold well_formed, mkResult. simpl.
    repeat split; auto; discriminate.
  - destruct (_is_allowed_install command).
    + rewrite execute_shell_raw_runs. do 2 eexists.
      split; [reflexivity|].
      destruct (shell_result_well_formed self
                  (world tr (RunShell (replace command
                                         " --break-system-packages" []))))
        as [W L].
      split; [exact W|]. split; [exact L|]. right. eauto.
    + destruct (validate_bash self command) as [[|] reason]; cbn [negb].
      * rewrite execute_shell_raw_runs. do 2 eexists.
        split; [reflexivity|].
        destruct (shell_result_well_formed self
                    (world tr (RunShell command))) as [W L].
        split; [exact W|]. split; [exact L|]. right. eauto.
      * eexists. exists []. unfold ret. rewrite app_nil_r.
        split; [reflexivity|]. unfold well_formed, blocked_result. simpl.
        repeat split; auto; discriminate.
Qed.

Lemma run_facts_quiet (lang : str) (tr : list Event) (r : SandboxResult) :
  well_formed r -> language r = lang -> run_facts lang tr (Ok r) tr.
Proof.
  intros W L. exists []. rewrite app_nil_r. simpl.
  split; [reflexivity|]. split; [lia|]. split; [lia|].
  split; [constructor|]. split; [lia|]. split; [eauto|].
  intros r' H. injection H as <-. auto.
Qed.

Lemma run_facts_events (lang : str) (tr : list Event)
  (o : outcome SandboxResult) (evs : list Event) :
  length evs <= 3 -> length (filter is_pip evs) <= 1 ->
  Forall (event_of lang) evs ->
  (lang <> ("python" : str) -> length evs <= 1) ->
  lang <> ("bash" : str) ->
  (forall r, o = Ok r -> well_formed r /\ language r = lang) ->
  run_facts lang tr o (tr ++ evs).
Proof.
  intros. exists evs. split; [reflexivity|].
  repeat (split; [assumption|]). split; [intro; contradiction|assumption].
Qed.

(** Everything one call of [_execute_code] can do. *)
Lemma execute_code_facts (self : SafeExecutor) (code language : str)
  (tr : list Event) (o : outcome SandboxResult) (tr' : list Event) :
  _execute_code world self code language tr = (o, tr') ->
  run_facts language tr o tr'.
Proof.
  unfold _execute_code.
  destruct (Text.eqb language "python" && _is_server_code code).
  { intro H. injection H as <- <-. apply run_facts_quiet; [|reflexivity].
    unfold well_formed, server_code_result, mkResult. simpl.
    split; [discriminate|]. split; [discriminate|reflexivity]. }
  destruct (validate_code self (_strip_server_start code language) language)
    as [[|] reason]; cbn [negb].
  2:{ intro H. injection H as <- <-. apply run_facts_quiet; [|reflexivity].
      unfold well_formed, blocked_result. simpl.
      split; [auto 6|]. split; discriminate. }
  destruct (dict_get LANGUAGE_CONFIG language) as [config|].
  2:{ intro H. injection H as <- <-. apply run_facts_quiet; [|reflexivity].
      unfold well_formed, mkResult. simpl.
      split; [discriminate|]. split; [discriminate|reflexivity]. }
  destruct (Text.eqb language "bash") eqn:B.
  - apply text_eqb_eq in B.
    destruct (execute_shell_facts self (_strip_server_start code language)
                tr) as (r & evs & E & W & L & S).
    rewrite E. intro H. injection H as <- <-. exists evs.
    split; [reflexivity|].
    assert (Len : length evs <= 1)
      by (destruct S as [->|[c ->]]; simpl; lia).
    split; [lia|]. split.
    + destruct S as [->|[c ->]]; simpl; lia.
    + split; [destruct S as [->|[c ->]]; repeat constructor; exact B|].
      split; [auto|]. split; [eauto|].
      intros r' H. injection H as <-. split; [exact W|congruence].
  - apply text_eqb_neq in B.
    set (code' := _strip_server_start code language).
    set (e := RunFile language code').
    assert (Ev : event_of language e) by (split; [reflexivity|exact B]).
    destruct (run_code_subprocess_facts self code' language config tr)
      as (o1 & E1 & W1 & _).
    fold e in E1. unfold bind at 1. rewrite E1.
    assert (One : forall o, (forall r, o = Ok r ->
                                       well_formed r
                                       /\ Sandbox.language r = language) ->
                            run_facts language tr o (tr ++ [e])).
    { intros o0 W0. apply run_facts_events; simpl; auto. }
    destruct o1 as [r1|msg].
    2:{ intro H. injection H as <- <-. apply One. discriminate. }
    destruct (success r1);
      [intro H; injection H as <- <-; now apply One|].
    destruct (Text.eqb language "python"
              && contains "No module named" (errors r1)) eqn:C;
      [|intro H; injection H as <- <-; now apply One].
    apply andb_true_iff in C. destruct C as [Py _].
    apply text_eqb_eq in Py.
    destruct (try_auto_install_facts (errors r1) (tr ++ [e]))
      as (installed & evs2 & E2 & S2).
    unfold bind. rewrite E2.
    assert (Pip : Forall (event_of language) evs2
                  /\ length evs2 <= 1
                  /\ length (filter is_pip evs2) <= 1).
    { destruct S2 as [->|[pkg ->]]; simpl; repeat split; auto;
        repeat constructor; exact Py. }
    destruct Pip as (Pip & Len2 & Len2').
    destruct installed.
    + destruct (run_code_subprocess_facts self code' language config
                  ((tr ++ [e]) ++ evs2)) as (o3 & E3 & W3 & _).
      fold e in E3. rewrite E3. intro H. injection H as <- <-.
      rewrite <- !app_assoc.
      apply run_facts_events; auto; try (intro; contradiction);
        try (repeat (apply Forall_app; split); now auto);
        rewrite ?filter_app, ?length_app; simpl; lia.
    + intro H. injection H as <- <-.
      rewrite <- !app_assoc.
      apply run_facts_events; auto; try (intro; contradiction);
        try (repeat (apply Forall_app; split); now auto);
        rewrite ?filter_app, ?length_app; simpl; lia.
Qed.

Lemma execute_shell_run_facts (self : SafeExecutor) (command : str)
  (tr : list Event) (o : outcome SandboxResult) (tr' : list Event) :
  _execute_shell world self command tr = (o, tr') ->
  run_facts "bash" tr o tr'.
Proof.
  destruct (execute_shell_facts self command tr)
    as (r & evs & E & W & L & S).
  rewrite E. intro H. injection H as <- <-. exists evs.
  split; [reflexivity|].
  assert (Len : length evs <= 1)
    by (destruct S as [->|[c ->]]; simpl; lia).
  split; [lia|]. split; [destruct S as [->|[c ->]]; simpl; lia|].
  split; [destruct S as [->|[c ->]]; repeat constructor|].
  split; [auto|]. split; [eauto|].
  intros r' H. injection H as <-. auto.
Qed.

(** [Sandbox.run] by the canonical name of the language. *)
Lemma run_cases (self : SandboxObj) (code language : str)
  (tr : list Event) :
  run world self code language tr
  = match canonical (strip (lower language)) with
    | Some c =>
        match (if Text.eqb c "bash"
               then _execute_shell world (executor self) code
               else _execute_code world (executor self) code c) tr
        with
        | (Ok r, tr') => (Ok (r, record self c r), tr')
        | (Raise msg, tr') => (Raise msg, tr')
        end
    | None =>
        (Ok (mkResult false []
               ("Unsupported language: " ++ strip (lower language)
                  ++ ". Supported: " ++ join ", " supported_languages)
               0 (strip (lower language)), self), tr)
    end.
Proof.
  unfold run, canonical, lang_map. cbv zeta.
  generalize (strip (lower language)) as l. intro l.
  cbn [dict_get].
  repeat match goal with
         | |- context [Text.eqb ?a l] => destruct (Text.eqb a l)
         end; reflexivity.
Qed.

Lemma run_is_run_facts (self : SandboxObj) (code language : str)
  (tr : list Event) (o : outcome (SandboxResult * SandboxObj))
  (tr' : list Event) :
  run world self code language tr = (o, tr') ->
  match canonical (strip (lower language)) with
  | Some c =>
      exists o1,
        run_facts c tr o1 tr'
        /\ o = match o1 with
               | Ok r => Ok (r, record self c r)
               | Raise msg => Raise msg
               end
  | None =>
      tr' = tr
      /\ o = Ok (mkResult false []
                   ("Unsupported language: " ++ strip (lower language)
                      ++ ". Supported: " ++ join ", " supported_languages)
                   0 (strip (lower language)), self)
  end.
Proof.
  rewrite run_cases.
  destruct (canonical (strip (lower language))) as [c|].
  - destruct ((if Text.eqb c "bash"
               then _execute_shell world (executor self) code
               else _execute_code world (executor self) code c) tr)
      as [o1 tr1] eqn:E.
    assert (F : run_facts c tr o1 tr1).
    { destruct (Text.eqb c "bash") eqn:B.
      - apply text_eqb_eq in B. subst c.
        now apply (execute_shell_run_facts (executor self) code).
      - now apply (execute_code_facts (executor self) code). }
    destruct o1 as [r|msg]; intro H; injection H as <- <-;
      eexists; (split; [exact F|reflexivity]).
  - intro H. injection H as <- <-. auto.
Qed.

(** X13.  Whatever the language, the snippet and the processes do, the
    flags of a result of [Sandbox.run] agree: a blocked result is a
    failure that ran nothing (no output, not timed out, not truncated)
    and whose error text is the reason; a timed-out result is a failure,
    not blocked and not truncated; a result that is not blocked carries
    no reason. *)
Theorem run_results_are_well_formed (self : SandboxObj)
  (code language : str) (tr : list Event) (r : SandboxResult)
  (self' : SandboxObj) (tr' : list Event) :
  run world self code language tr = (Ok (r, self'), tr') ->
  well_formed r.
Proof.
  intro H. pose proof (run_is_run_facts _ _ _ _ H) as F.
  destruct (canonical (strip (lower language))) as [c|].
  - destruct F as (o1 & (evs & _ & _ & _ & _ & _ & _ & W) & E).
    destruct o1 as [r1|msg]; [|discriminate].
    injection E as -> _. exact (proj1 (W r1 eq_refl)).
  - destruct F as (_ & E). injection E as -> _.
    unfold well_formed, mkResult. simpl.
    split; [discriminate|]. split; [discriminate|reflexivity].
Qed.

Lemma canonical_names (language c : str) :
  canonical language = Some c ->
  In c ["python" : str; "bash" : str; "javascript" : str; "go" : str]
  /\ canonical c = Some c /\ strip (lower c) = c.
Proof.
  unfold canonical. cbn [dict_get].
  repeat match goal with
         | |- context [Text.eqb ?a language] =>
             destruct (Text.eqb a language)
         end;
    intro H; try discriminate; injection H as <-;
    (split; [simpl; tauto|split; vm_compute; reflexivity]).
Qed.

(** X14.  A call of [Sandbox.run] that returns for a supported language
    appends exactly one entry to the history, and nothing else changes
    in the sandbox.  The entry holds the result returned, under the name
    of the language the result itself carries: [javascript] for [js],
    [node] and [nodejs], [go] for [golang].  The name of the language is
    read without regard to case and surrounding white space, and an
    alias behaves exactly as the language it stands for.  For any other
    language nothing is recorded and no process is started. *)
Theorem run_records_one_entry (self : SandboxObj) (code language : str)
  (tr : list Event) (r : SandboxResult) (self' : SandboxObj)
  (tr' : list Event) :
  run world self code language tr = (Ok (r, self'), tr') ->
  match canonical (strip (lower language)) with
  | Some c =>
      execution_history self' = execution_history self ++ [(c, r)]
      /\ executor self' = executor self
      /\ Sandbox.language r = c
      /\ run world self code c tr = (Ok (r, self'), tr')
  | None => self' = self /\ tr' = tr
  end.
Proof.
  intro H. pose proof (run_is_run_facts _ _ _ _ H) as F.
  destruct (canonical (strip (lower language))) as [c|] eqn:C.
  - destruct F as (o1 & (evs & _ & _ & _ & _ & _ & _ & W) & E).
    destruct o1 as [r1|msg]; [|discriminate].
    injection E as -> ->. split; [reflexivity|]. split; [reflexivity|].
    split; [exact (proj2 (W r1 eq_refl))|].
    destruct (canonical_names _ C) as (_ & Cc & Sc).
    rewrite run_cases in H |- *. rewrite Sc, Cc. rewrite C in H. exact H.
  - destruct F as (-> & E). injection E as _ ->. auto.
Qed.

(** X15.  The processes of one call of [Sandbox.run].  A call starts at
    most three processes, and at most one of them is a [pip install].
    Every one belongs to the language of the call: interpreter runs for
    python, javascript and go, one shell for bash, and [pip install]
    only for python.  A call for javascript, go or bash starts at most
    one process, so only python code is ever run a second time.  A call
    for bash always returns a result: what goes wrong when the shell is
    started is reported in the result.  An unsupported language starts
    nothing. *)
Theorem run_process_budget (self : SandboxObj) (code language : str)
  (tr : list Event) (o : outcome (SandboxResult * SandboxObj))
  (tr' : list Event) :
  run world self code language tr = (o, tr') ->
  exists evs,
    tr' = tr ++ evs
    /\ length evs <= 3
    /\ length (filter is_pip evs) <= 1
    /\ match canonical (strip (lower language)) with
       | Some c =>
           Forall (event_of c) evs
           /\ (c <> ("python" : str) -> length evs <= 1)
           /\ (c = ("bash" : str) -> exists x, o = Ok x)
       | None => evs = []
       end.
Proof.
  intro H. pose proof (run_is_run_facts _ _ _ _ H) as F.
  destruct (canonical (strip (lower language))) as [c|].
  - destruct F as (o1 & (evs & E1 & L & P & Ev & One & B & _) & E).
    exists evs. do 3 (split; [assumption|]).
    split; [assumption|]. split; [assumption|].
    intro Hc. destruct (B Hc) as [r Hr]. subst o o1.
    eexists. reflexivity.
  - destruct F as (-> & _). exists []. rewrite app_nil_r. simpl.
    repeat split; lia.
Qed.

Lemma count_results_app (flag : SandboxResult -> bool)
  (a b : list (str * SandboxResult)) :
  count_results flag (a ++ b)
  = (count_results flag a + count_results flag b)%Z.
Proof.
  unfold count_results. rewrite filter_app, length_app. lia.
Qed.

Lemma counts_of_well_formed (h : list (str * SandboxResult)) :
  Forall (fun entry => well_formed (snd entry)) h ->
  (0 <= count_results success h)%Z
  /\ (0 <= count_results blocked h)%Z
  /\ (0 <= count_results timed_out h)%Z
  /\ (count_results success h + count_results blocked h
      + count_results timed_out h <= Z.of_nat (length h))%Z.
Proof.
  unfold count_results.
  induction 1 as [|[l r] h (Wb & Wt & _) _ IH]; [simpl; lia|].
  cbn [filter snd] in *. destruct (blocked r) eqn:B.
  - destruct (Wb eq_refl) as (-> & -> & _). cbn [length]. lia.
  - destruct (timed_out r) eqn:T.
    + destruct (Wt eq_refl) as (-> & _). cbn [length]. lia.
    + destruct (success r); cbn [length]; lia.
Qed.

(** X16.  The statistics of a sandbox are consistent.  Every result a
    sandbox records through [Sandbox.run] has flags that agree, a
    property each further call keeps; and for such a history the
    counters of [get_stats] add up: successful plus failed is the total,
    and the blocked and the timed-out executions are different ones,
    all counted among the failed. *)
Theorem sandbox_statistics_add_up (self : SandboxObj) (code language : str)
  (tr : list Event) (r : SandboxResult) (self' : SandboxObj)
  (tr' : list Event) :
  Forall (fun entry => well_formed (snd entry)) (execution_history self) ->
  run world self code language tr = (Ok (r, self'), tr') ->
  Forall (fun entry => well_formed (snd entry)) (execution_history self')
  /\ exists total successful failed blocked_ timed_out_,
       get_stats self'
       = [ ("total_executions" : str, total);
           ("successful" : str, successful);
           ("failed" : str, failed);
           ("blocked" : str, blocked_);
           ("timed_out" : str, timed_out_) ]
       /\ total = Z.of_nat (length (get_history self'))
       /\ (successful + failed = total)%Z
       /\ (blocked_ + timed_out_ <= failed)%Z
       /\ (0 <= successful)%Z /\ (0 <= blocked_)%Z /\ (0 <= timed_out_)%Z.
Proof.
  intros W H.
  assert (W' : Forall (fun entry => well_formed (snd entry))
                 (execution_history self')).
  { pose proof (run_is_run_facts _ _ _ _ H) as F.
    destruct (canonical (strip (lower language))) as [c|].
    - destruct F as (o1 & (evs & _ & _ & _ & _ & _ & _ & Wr) & E).
      destruct o1 as [r1|msg]; [|discriminate].
      injection E as -> ->. simpl. apply Forall_app. split; [exact W|].
      constructor; [|constructor]. exact (proj1 (Wr r1 eq_refl)).
    - destruct F as (_ & E). injection E as _ ->. exact W. }
  split; [exact W'|].
  destruct (counts_of_well_formed W') as (A & B & C & D).
  unfold get_stats, get_history. cbv zeta.
  do 5 eexists. split; [reflexivity|].
  repeat split; try assumption; lia.
Qed.

End ResultFacts.

(* ================================================================== *)
(** * The sandbox: restricted paths, plain code, timeouts              *)
(* ================================================================== *)

Section PathsAndTimeouts.
Import Sandbox SandboxReport ResultSpec DenylistSpec.
Variable world : World.

Lemma check_path_restricted (self : SafeExecutor) (code p : str) :
  In p RESTRICTED_PATHS -> contains p code = true ->
  exists q,
    In q RESTRICTED_PATHS /\ contains q code = true
    /\ _check_path_safety self code
       = (false, "Access to restricted path blocked: " ++ q).
Proof.
  intros Hin Hc. unfold _check_path_safety.
  destruct (find (fun restricted => contains restricted code)
              RESTRICTED_PATHS) as [q|] eqn:F.
  - apply find_some in F. destruct F as [Hq Cq]. exists q. auto.
  - pose proof (find_none _ _ F p Hin) as N. simpl in N. congruence.
Qed.

Lemma validate_code_restricted (self : SafeExecutor) (code language p : str) :
  In p RESTRICTED_PATHS -> contains p code = true ->
  exists q,
    In q RESTRICTED_PATHS /\ contains q code = true
    /\ validate_code self code language
       = (false, "Access to restricted path blocked: " ++ q).
Proof.
  intros Hin Hc.
  destruct (@check_path_restricted self code p Hin Hc) as (q & Hq & Cq & E).
  exists q. unfold validate_code. rewrite E. auto.
Qed.

Lemma restricted_paths_are_tokens (p : str) :
  In p RESTRICTED_PATHS -> token p.
Proof.
  unfold RESTRICTED_PATHS. intro H.
  repeat (destruct H as [<-|H]; [split; [discriminate|reflexivity]|]).
  contradiction.
Qed.

Lemma contains_occurs (w s : str) :
  contains w s = true <-> occurs anything w anything s.
Proof.
  rewrite contains_iff. unfold occurs, anything. split.
  - intros (a & b & E). exists a, b. auto.
  - intros (a & b & E & _). eauto.
Qed.

(** A restricted path of the snippet is still in the code that is
    validated. *)
Lemma restricted_path_survives (code language p : str) :
  In p RESTRICTED_PATHS -> contains p code = true ->
  contains p (_strip_server_start code language) = true.
Proof.
  intros Hin Hc. unfold _strip_server_start.
  destruct (Text.eqb language "python") eqn:L; cbn [negb]; [|exact Hc].
  pose proof (strip_server_start_keeps anything anything p code
                (@restricted_paths_are_tokens p Hin)
                blind_anything blind_anything
                (proj1 (contains_occurs p code) Hc)) as K.
  unfold _strip_server_start in K. rewrite text_eqb_refl in K.
  cbn [negb] in K. now apply contains_occurs.
Qed.

(** X17.  A snippet that names one of the restricted paths is never
    run.  For python (unless the snippet is taken for server code),
    javascript and go, and for a shell command that is not a package
    installation, [Sandbox.run] starts no process and returns a blocked
    result whose reason names a restricted path. *)
Theorem restricted_path_is_blocked (self : SandboxObj)
  (code language c p : str) (tr : list Event) :
  In p RESTRICTED_PATHS -> contains p code = true ->
  canonical (strip (lower language)) = Some c ->
  (c = ("python" : str) -> _is_server_code code = false) ->
  (c = ("bash" : str) ->
   _is_system_install code = false /\ _is_allowed_install code = false) ->
  exists q,
    In q RESTRICTED_PATHS
    /\ run world self code language tr
       = (Ok (blocked_result ("Access to restricted path blocked: " ++ q) c,
              record self c
                (blocked_result
                   ("Access to restricted path blocked: " ++ q) c)),
          tr).
Proof.
  intros Hin Hc C Py Sh. rewrite run_cases, C.
  destruct (Text.eqb c "bash") eqn:B.
  - apply text_eqb_eq in B. destruct (Sh B) as [S1 S2].
    destruct (@validate_code_restricted (executor self) code "bash" p Hin Hc)
      as (q & Hq & _ & V).
    exists q. split; [exact Hq|].
    unfold _execute_shell, validate_bash. rewrite S1, S2, V. cbn [negb].
    unfold ret. now subst c.
  - destruct (@validate_code_restricted (executor self)
                (_strip_server_start code c) c p Hin
                (@restricted_path_survives code c p Hin Hc))
      as (q & Hq & _ & V).
    exists q. split; [exact Hq|].
    unfold _execute_code.
    assert (S : Text.eqb c "python" && _is_server_code code = false).
    { destruct (Text.eqb c "python") eqn:P; [|reflexivity].
      apply text_eqb_eq in P. now rewrite (Py P). }
    rewrite S, V. cbn [negb]. reflexivity.
Qed.

(** ** Plain code is run as it is *)

Lemma strip_lines_plain (lines : list str) :
  Forall plain_line lines -> strip_lines false lines = lines.
Proof.
  induction 1 as [|line lines [P1 P2] _ IH]; [reflexivity|].
  cbn [strip_lines]. cbv zeta. rewrite P1, P2, IH. reflexivity.
Qed.











Lemma python_config :
  dict_get LANGUAGE_CONFIG "python"
  = Some {| extension := ".py"; command := ["python3" : str];
            patterns := DANGEROUS_PATTERNS |}.
Proof. reflexivity. Qed.

(** X19.  Code without server idioms is run as it was written.  If no
    line of a python snippet matches a server-start pattern or opens a
    main block, [_strip_server_start] returns the snippet unchanged, and
    when the snippet passes validation the interpreter is started on
    exactly the text submitted. *)
Theorem plain_code_is_run_unchanged (self : SafeExecutor) (code : str)
  (tr : list Event) :
  Forall plain_line (split_lines code) ->
  _strip_server_start code "python" = code
  /\ (_is_server_code code = false ->
      fst (validate_code self code "python") = true ->
      exists rest,
        snd (_execute_code world self code "python" tr)
        = tr ++ RunFile "python" code :: rest).
Proof.
  intro P.
  assert (E : _strip_server_start code "python" = code).
  { unfold _strip_server_start. rewrite text_eqb_refl. cbn [negb].
    rewrite (strip_lines_plain P). apply join_split_lines. }
  split; [exact E|]. intros S V.
  destruct (_execute_code world self code "python" tr) as [o tr'] eqn:X.
  cbn [snd]. revert X. unfold _execute_code.
  rewrite S, andb_false_r, E.
  destruct (validate_code self code "python") as [ok reason].
  cbn [fst] in V. subst ok. cbn [negb]. rewrite python_config.
  change (Text.eqb "python" "bash") with false. cbv iota.
  destruct (run_code_subprocess_facts world self code "python"
              {| extension := ".py"; command := ["python3" : str];
                 patterns := DANGEROUS_PATTERNS |} tr)
    as (o1 & E1 & _).
  unfold bind at 1. rewrite E1.
  destruct o1 as [r1|msg].
  2:{ intro H. injection H as _ <-. exists []. reflexivity. }
  destruct (success r1);
    [intro H; injection H as _ <-; exists []; reflexivity|].
  destruct (Text.eqb "python" "python"
            && contains "No module named" (errors r1));
    [|intro H; injection H as _ <-; exists []; reflexivity].
  destruct (try_auto_install_facts world (errors r1)
              (tr ++ [RunFile "python" code]))
    as (installed & evs2 & E2 & _).
  unfold bind. rewrite E2.
  destruct installed.
  - destruct (run_code_subprocess_facts world self code "python"
                {| extension := ".py"; command := ["python3" : str];
                   patterns := DANGEROUS_PATTERNS |}
                ((tr ++ [RunFile "python" code]) ++ evs2))
      as (o3 & E3 & _).
    rewrite E3. intro H. injection H as _ <-.
    exists (evs2 ++ [RunFile "python" code]).
    now rewrite <- !app_assoc.
  - intro H. injection H as _ <-. exists evs2. now rewrite <- app_assoc.
Qed.

(** ** Timeouts *)

Lemma contains_head (w s : str) (c : ascii) :
  contains (c :: w) s = true -> In c s.
Proof.
  intro H. apply contains_iff in H. destruct H as (a & b & ->).
  apply in_or_app. right. now left.
Qed.

Lemma digits_of_uint (d : Decimal.uint) :
  Forall (fun c => c <> "N"%char)
    (list_ascii_of_string (NilEmpty.string_of_uint d)).
Proof.
  induction d; simpl; constructor; auto; discriminate.
Qed.

Lemma str_of_Z_digits (z : Z) : Forall (fun c => c <> "N"%char) (str_of_Z z).
Proof.
  unfold str_of_Z. destruct (Z.to_int z) as [d|d]; simpl.
  - apply digits_of_uint.
  - constructor; [discriminate|apply digits_of_uint].
Qed.

Lemma timeout_message_is_no_import_error (self : SafeExecutor) :
  contains "No module named" (timeout_message self) = false.
Proof.
  destruct (contains "No module named" (timeout_message self)) eqn:C;
    [|reflexivity].
  exfalso. apply contains_head in C. unfold timeout_message in C.
  assert (F : Forall (fun c => c <> "N"%char)
                ("Execution timed out after " ++ str_of_Z (timeout self)
                   ++ " seconds")).
  { apply Forall_app. split; [repeat constructor; discriminate|].
    apply Forall_app. split; [apply str_of_Z_digits|].
    repeat constructor; discriminate. }
  rewrite Forall_forall in F. exact (F _ C eq_refl).
Qed.

(** X20.  A timeout is reported as a timeout, and the code is not run
    again.  When the interpreter of a python, javascript or go snippet
    does not finish within the timeout, [Sandbox.run] returns a result
    with [timed_out] true and [success] false, the partial output as it
    is, and the message with the configured number of seconds; this is
    the only process of the call, and the result is recorded in the
    history. *)
Theorem timeout_is_reported_once (self : SandboxObj)
  (code language c reason out : str) (t : Q) (tr : list Event) :
  canonical (strip (lower language)) = Some c ->
  c <> ("bash" : str) ->
  (c = ("python" : str) -> _is_server_code code = false) ->
  validate_code (executor self) (_strip_server_start code c) c
  = (true, reason) ->
  world tr (RunFile c (_strip_server_start code c)) = TimedOut out t ->
  run world self code language tr
  = (Ok (timeout_result (executor self) c out t,
         record self c (timeout_result (executor self) c out t)),
     tr ++ [RunFile c (_strip_server_start code c)]).
Proof.
  intros C B Py V T. rewrite run_cases, C.
  rewrite (proj2 (text_eqb_neq c "bash") B).
  unfold _execute_code.
  assert (S : Text.eqb c "python" && _is_server_code code = false).
  { destruct (Text.eqb c "python") eqn:P; [|reflexivity].
    apply text_eqb_eq in P. now rewrite (Py P). }
  rewrite S, V. cbn [negb].
  assert (D : exists config, dict_get LANGUAGE_CONFIG c = Some config).
  { destruct (canonical_names _ C) as (Hc & _).
    simpl in Hc. destruct Hc as [<-|[<-|[<-|[<-|[]]]]];
      eexists; reflexivity. }
  destruct D as [config ->].
  rewrite (proj2 (text_eqb_neq c "bash") B).
  destruct (run_code_subprocess_facts world (executor self)
              (_strip_server_start code c) c config tr)
    as (o1 & E1 & _ & T1).
  unfold bind. rewrite E1, (T1 _ _ T). cbn [success errors].
  rewrite timeout_message_is_no_import_error, andb_false_r.
  reflexivity.
Qed.

End PathsAndTimeouts.

(* ================================================================== *)
(** * The coding agent's use of the sandbox                            *)
(* ================================================================== *)

Section AgentFeedback.
Import Sandbox SandboxReport ResultSpec DenylistSpec.
Variable world : World.
Variable two_decimals : Q -> str.

Lemma format_blocked (r : SandboxResult) (lang : str) :
  blocked r = true -> language r = lang -> lang <> [] ->
  format_result two_decimals r
  = "[blocked (" ++ lang ++ ")] " ++ blocked_reason r.
Proof.
  intros B L N. unfold format_result. rewrite B, L.
  destruct lang as [|c lang]; [congruence|].
  cbv zeta. rewrite <- !app_assoc. reflexivity.
Qed.

(** X21.  What the coding agent gets from the sandbox.
    [sandbox_execute] sends only [python] and [bash] to the sandbox, and
    compares the name as it is written: for any other name, also
    [Python] or [js], and for an agent without a sandbox, nothing is
    run, nothing is recorded and the answer is [(None, None)].  For a
    python snippet that is not server code and calls a process spawn,
    the agent is told of a failure with the feedback
    [[blocked (python)]] followed by the reason, and no process was
    started. *)
Theorem sandbox_execute_feedback :
  (forall code language tr,
      sandbox_execute two_decimals world None code language tr
      = (Ok (None, None), tr))
  /\ (forall sb code language tr,
         language <> ("python" : str) -> language <> ("bash" : str) ->
         sandbox_execute two_decimals world (Some sb) code language tr
         = (Ok (None, Some sb), tr))
  /\ (forall sb code tr p,
         _is_server_code code = false ->
         In p spawn_patterns -> matches p code = true ->
         exists r,
           sandbox_execute two_decimals world (Some sb) code "python" tr
           = (Ok (Some (false,
                        "[blocked (python)] " ++ blocked_reason r),
                  Some (record sb "python" r)), tr)
           /\ blocked r = true /\ errors r = blocked_reason r).
Proof.
  split; [reflexivity|]. split.
  - intros sb code language tr P B. unfold sandbox_execute.
    cbn [existsb].
    rewrite (proj2 (text_eqb_neq language "python") P),
            (proj2 (text_eqb_neq language "bash") B).
    reflexivity.
  - intros sb code tr p S Hin Hm.
    destruct (@blocked_python_run world sb code tr p S Hin Hm)
      as (r & R & B & F).
    assert (R' : run world sb code "python" tr
                 = (Ok (r, record sb "python" r), tr)).
    { rewrite <- R. now apply run_python_unfold. }
    pose proof (@run_is_run_facts world sb code "python" tr _ _ R') as X.
    change (canonical (strip (lower "python")))
      with (Some ("python" : str)) in X.
    destruct X as (o1 & (evs & _ & _ & _ & _ & _ & _ & W) & E).
    destruct o1 as [r1|msg]; [|discriminate].
    injection E as <-. destruct (W r eq_refl) as [(Wb & _) L].
    destruct (Wb B) as (_ & _ & _ & _ & Er).
    exists r. split; [|auto].
    unfold sandbox_execute. cbn [existsb].
    change (Text.eqb "python" "python") with true. cbn [orb negb].
    unfold bind. rewrite R'. unfold ret.
    rewrite (@format_blocked r "python" B L), F; [reflexivity|discriminate].
Qed.

End AgentFeedback.

Lemma run_results_are_well_formed_witness :
  exists r self' tr',
    Sandbox.run SandboxSpec.quiet_world SandboxSpec.fresh_sandbox
      "print(1)" "python" []
    = (Sandbox.Ok (r, self'), tr')
    /\ ResultSpec.well_formed r.
Proof.
  destruct (Sandbox.run SandboxSpec.quiet_world SandboxSpec.fresh_sandbox
              "print(1)" "python" [])
    as [[[r self']|msg] tr'] eqn:E.
  - exists r, self', tr'. split; [reflexivity|].
    exact (@run_results_are_well_formed SandboxSpec.quiet_world
             SandboxSpec.fresh_sandbox "print(1)" "python" [] r self' tr' E).
  - vm_compute in E. discriminate.
Defined.

Lemma run_records_one_entry_witness :
  exists r self' tr',
    Sandbox.run SandboxSpec.quiet_world SandboxSpec.fresh_sandbox
      "console.log(1)" " JS " []
    = (Sandbox.Ok (r, self'), tr')
    /\ Sandbox.execution_history self' = [("javascript" : str, r)]
    /\ Sandbox.language r = ("javascript" : str).
Proof.
  destruct (Sandbox.run SandboxSpec.quiet_world SandboxSpec.fresh_sandbox
              "console.log(1)" " JS " [])
    as [[[r self']|msg] tr'] eqn:E.
  - exists r, self', tr'. split; [reflexivity|].
    pose proof (@run_records_one_entry SandboxSpec.quiet_world
                  SandboxSpec.fresh_sandbox "console.log(1)" " JS " []
                  r self' tr' E) as H.
    assert (C : ResultSpec.canonical (strip (lower " JS "))
                = Some ("javascript" : str)) by reflexivity.
    rewrite C in H. destruct H as (H1 & _ & H3 & _). auto.
  - vm_compute in E. discriminate.
Defined.

Lemma run_process_budget_witness :
  exists evs,
    snd (Sandbox.run SandboxSpec.failing_world SandboxSpec.fresh_sandbox
           "import numpy" "python" [])
    = [] ++ evs
    /\ length evs <= 3
    /\ length (filter ResultSpec.is_pip evs) <= 1.
Proof.
  destruct (@run_process_budget SandboxSpec.failing_world
              SandboxSpec.fresh_sandbox "import numpy" "python" []
              (fst (Sandbox.run SandboxSpec.failing_world
                      SandboxSpec.fresh_sandbox "import numpy" "python" []))
              (snd (Sandbox.run SandboxSpec.failing_world
                      SandboxSpec.fresh_sandbox "import numpy" "python" [])))
    as (evs & E & L & P & _).
  - apply surjective_pairing.
  - exists evs. auto.
Defined.

Lemma sandbox_statistics_add_up_witness :
  exists r self' tr',
    Sandbox.run SandboxSpec.failing_world SandboxSpec.fresh_sandbox
      "rm -rf /" "bash" []
    = (Sandbox.Ok (r, self'), tr')
    /\ Forall (fun entry => ResultSpec.well_formed (snd entry))
         (Sandbox.execution_history self').
Proof.
  destruct (Sandbox.run SandboxSpec.failing_world SandboxSpec.fresh_sandbox
              "rm -rf /" "bash" [])
    as [[[r self']|msg] tr'] eqn:E.
  - exists r, self', tr'. split; [reflexivity|].
    apply (@sandbox_statistics_add_up SandboxSpec.failing_world
             SandboxSpec.fresh_sandbox "rm -rf /" "bash" [] r self' tr').
    + constructor.
    + exact E.
  - vm_compute in E. discriminate.
Defined.

Lemma restricted_path_is_blocked_witness :
  exists q,
    In q Sandbox.RESTRICTED_PATHS
    /\ Sandbox.run SandboxSpec.quiet_world SandboxSpec.fresh_sandbox
         "print(open('/root/notes').read())" "Python" []
       = (Sandbox.Ok
            (Sandbox.blocked_result
               ("Access to restricted path blocked: " ++ q) "python",
             Sandbox.record SandboxSpec.fresh_sandbox "python"
               (Sandbox.blocked_result
                  ("Access to restricted path blocked: " ++ q) "python")),
          []).
Proof.
  apply (@restricted_path_is_blocked SandboxSpec.quiet_world
           SandboxSpec.fresh_sandbox "print(open('/root/notes').read())"
           "Python" "python" "/root" []).
  - simpl. tauto.
  - vm_compute. reflexivity.
  - reflexivity.
  - intros _. vm_compute. reflexivity.
  - intro H. vm_compute in H. discriminate.
Defined.

Lemma plain_code_is_run_unchanged_witness :
  Sandbox._strip_server_start ("x = 1" ++ Sandbox.nl ++ "print(x)") "python"
  = "x = 1" ++ Sandbox.nl ++ "print(x)".
Proof.
  apply (@plain_code_is_run_unchanged SandboxSpec.quiet_world
           SandboxSpec.default_executor
           ("x = 1" ++ Sandbox.nl ++ "print(x)") []).
  assert (E : split_lines ("x = 1" ++ Sandbox.nl ++ "print(x)")
              = ["x = 1" : str; "print(x)" : str])
    by (vm_compute; reflexivity).
  rewrite E. repeat constructor; vm_compute; reflexivity.
Defined.

Lemma timeout_is_reported_once_witness :
  Sandbox.run ResultSpec.hanging_world SandboxSpec.fresh_sandbox
    "while True: pass" "python" []
  = (Sandbox.Ok
       (ResultSpec.timeout_result SandboxSpec.default_executor "python"
          "partial" 60,
        Sandbox.record SandboxSpec.fresh_sandbox "python"
          (ResultSpec.timeout_result SandboxSpec.default_executor "python"
             "partial" 60)),
     [] ++ [Sandbox.RunFile "python"
              (Sandbox._strip_server_start "while True: pass" "python")]).
Proof.
  apply (@timeout_is_reported_once ResultSpec.hanging_world
           SandboxSpec.fresh_sandbox "while True: pass" "python" "python"
           [] "partial" 60 []).
  - reflexivity.
  - intro H. vm_compute in H. discriminate.
  - intros _. vm_compute. reflexivity.
  - vm_compute. reflexivity.
  - reflexivity.
Defined.

Lemma sandbox_execute_feedback_witness :
  exists r,
    SandboxReport.sandbox_execute ResultSpec.whole_seconds
      SandboxSpec.quiet_world (Some SandboxSpec.fresh_sandbox)
      ("import os" ++ Sandbox.nl ++ "os.system('ls')") "python" []
    = (Sandbox.Ok
         (Some (false, "[blocked (python)] " ++ Sandbox.blocked_reason r),
          Some (Sandbox.record SandboxSpec.fresh_sandbox "python" r)), [])
    /\ Sandbox.blocked r = true
    /\ Sandbox.errors r = Sandbox.blocked_reason r.
Proof.
  apply (proj2 (proj2 (@sandbox_execute_feedback SandboxSpec.quiet_world
                         ResultSpec.whole_seconds))
           SandboxSpec.fresh_sandbox
           ("import os" ++ Sandbox.nl ++ "os.system('ls')") []
           (Sandbox.word "os.system")).
  - vm_compute. reflexivity.
  - simpl. tauto.
  - vm_compute. reflexivity.
Defined.

(* ================================================================== *)
(** * The persistent memory                                            *)
(* ================================================================== *)

Section MemoryFacts.
Import Py PersistentMemory MemorySpec.

(** X22.  The store keeps the latest 500 facts and the latest 100
    projects.  [store_fact] and [store_project] put the new entry last
    and, when the collection has grown beyond its cap, drop entries from
    the front: what is kept is the end of the old collection followed by
    the new entry, in the same order, and nothing else of the store
    changes.  This holds for a collection of any size, also one that was
    loaded with more entries than the cap. *)
Theorem store_keeps_the_latest (self : Store) :
  (forall category content source now,
      let fact := {| fact_category := category; fact_content := content;
                     fact_source := source; fact_timestamp := now |} in
      let self' := store_fact self category content source now in
      length (facts self') = Nat.min (S (length (facts self))) 500
      /\ (exists dropped,
             facts self ++ [fact] = dropped ++ facts self'
             /\ length dropped = S (length (facts self)) - 500)
      /\ last (facts self') fact = fact
      /\ skills self' = skills self
      /\ preferences self' = preferences self
      /\ project_history self' = project_history self)
  /\ (forall name project_type path description status now,
         let project :=
           {| project_name := name; project_type := project_type;
              project_path := path; project_description := description;
              project_status := status; project_created_at := now |} in
         let self' :=
           store_project self name project_type path description status
             now in
         length (project_history self')
         = Nat.min (S (length (project_history self))) 100
         /\ (exists dropped,
                project_history self ++ [project]
                = dropped ++ project_history self'
                /\ length dropped = S (length (project_history self)) - 100)
         /\ last (project_history self') project = project
         /\ facts self' = facts self
         /\ skills self' = skills self
         /\ preferences self' = preferences self).
Proof.
  assert (G : forall (A : Type) (n : nat) (l : list A) (x : A),
             0 < n ->
             let kept := if n <? length (l ++ [x])
                         then slice_from (- Z.of_nat n) (l ++ [x])
                         else l ++ [x] in
             length kept = Nat.min (S (length l)) n
             /\ (exists dropped,
                    l ++ [x] = dropped ++ kept
                    /\ length dropped = S (length l) - n)
             /\ last kept x = x).
  { intros A n l x Hn. cbv zeta.
    destruct (@keep_last A n (l ++ [x]) Hn) as (L & dropped & E & Ld).
    cbv zeta in L, E.
    set (kept := if n <? length (l ++ [x])
                 then slice_from (- Z.of_nat n) (l ++ [x])
                 else l ++ [x]) in *.
    rewrite length_app in L, Ld. simpl in L, Ld.
    rewrite Nat.add_1_r in L, Ld.
    split; [exact L|]. split; [exists dropped; auto|].
    destruct kept as [|k kept'] eqn:K; [reflexivity|].
    assert (Hl : last (l ++ [x]) x = x) by apply last_last.
    rewrite E, last_app_nonempty in Hl; [exact Hl|discriminate]. }
  split.
  - intros category content source now. cbv zeta.
    unfold store_fact. cbn [facts skills preferences project_history].
    destruct (G Fact 500 (facts self)
                {| fact_category := category; fact_content := content;
                   fact_source := source; fact_timestamp := now |})
      as (A1 & A2 & A3); [lia|].
    cbv zeta in A1, A2, A3. auto 10.
  - intros name project_type path description status now. cbv zeta.
    unfold store_project. cbn [facts skills preferences project_history].
    destruct (G Project 100 (project_history self)
                {| project_name := name; project_type := project_type;
                   project_path := path; project_description := description;
                   project_status := status; project_created_at := now |})
      as (A1 & A2 & A3); [lia|].
    cbv zeta in A1, A2, A3. auto 10.
Qed.

(** X23.  [store_skill] keeps one skill for each name.  After the
    call the store has exactly one skill of the given name, the new one,
    and it is the last; the skills of other names are kept, in their
    order; names that were pairwise different stay so.  The code example
    is cut to 2000 characters, and absent tags are stored as the empty
    list. *)
Theorem store_skill_replaces_by_name (self : Store)
  (name description code_example : str) (tags : option (list str))
  (now : str) :
  let self' := store_skill self name description code_example tags now in
  exists skill,
    skill_name skill = name
    /\ skill_description skill = description
    /\ skill_tags skill = match tags with Some l => l | None => [] end
    /\ (exists cut, code_example = skill_code_example skill ++ cut)
    /\ length (skill_code_example skill) <= 2000
    /\ skills self'
       = filter (fun s => negb (Text.eqb (skill_name s) name)) (skills self)
           ++ [skill]
    /\ filter (fun s => Text.eqb (skill_name s) name) (skills self')
       = [skill]
    /\ (NoDup (map skill_name (skills self)) ->
        NoDup (map skill_name (skills self')))
    /\ facts self' = facts self
    /\ preferences self' = preferences self
    /\ project_history self' = project_history self.
Proof.
  cbv zeta. unfold store_skill.
  cbn [skills facts preferences project_history].
  exists {| skill_name := name; skill_description := description;
            skill_code_example := slice_to 2000 code_example;
            skill_tags := match tags with
                          | Some l => l
                          | None => []
                          end;
            skill_timestamp := now |}.
  cbn [skill_name skill_description skill_tags skill_code_example].
  split; [reflexivity|]. split; [reflexivity|].
  split; [reflexivity|].
  split; [apply slice_to_prefix|].
  split; [apply (@length_slice_to ascii 2000 code_example); lia|].
  split; [reflexivity|].
  assert (F : forall l,
             filter (fun s => Text.eqb (skill_name s) name)
               (filter (fun s => negb (Text.eqb (skill_name s) name)) l)
             = []).
  { induction l as [|s l IH]; [reflexivity|]. simpl.
    destruct (Text.eqb (skill_name s) name) eqn:E; simpl; [exact IH|].
    now rewrite E. }
  split.
  - rewrite filter_app, F. simpl. now rewrite text_eqb_refl.
  - split; [|auto]. intro ND. rewrite map_app. simpl.
    apply NoDup_app.
    + clear F. induction (skills self) as [|s l IH]; [constructor|].
      simpl in ND. inversion ND as [|? ? Hs ND']; subst.
      simpl. destruct (Text.eqb (skill_name s) name); simpl; [auto|].
      constructor; [|auto]. intro Hin. apply Hs.
      apply in_map_iff in Hin. destruct Hin as (s' & E & Hs').
      apply filter_In in Hs'. apply in_map_iff. exists s'. tauto.
    + repeat constructor. intros [].
    + intros n Hn [<-|[]]. apply in_map_iff in Hn.
      destruct Hn as (s & E & Hs). apply filter_In in Hs.
      destruct Hs as [_ Hs]. apply negb_true_iff, text_eqb_neq in Hs.
      congruence.
Qed.

(** ** Searching the facts *)

Lemma insert_by_score_In (A : Type) (x y : nat * A) (l : list (nat * A)) :
  In y (insert_by_score x l) <-> y = x \/ In y l.
Proof.
  induction l as [|z l IH]; simpl; [intuition congruence|].
  destruct (fst z <=? fst x); simpl; [intuition congruence|].
  rewrite IH. intuition congruence.
Qed.

Lemma sort_by_score_In (A : Type) (y : nat * A) (l : list (nat * A)) :
  In y (sort_by_score l) <-> In y l.
Proof.
  induction l as [|x l IH]; simpl; [tauto|].
  rewrite insert_by_score_In, IH. intuition congruence.
Qed.

Lemma length_insert_by_score (A : Type) (x : nat * A) (l : list (nat * A)) :
  length (insert_by_score x l) = S (length l).
Proof.
  induction l as [|z l IH]; simpl; [reflexivity|].
  destruct (fst z <=? fst x); simpl; auto.
Qed.

Lemma length_sort_by_score (A : Type) (l : list (nat * A)) :
  length (sort_by_score l) = length l.
Proof.
  induction l as [|x l IH]; simpl; [reflexivity|].
  now rewrite length_insert_by_score, IH.
Qed.

Lemma insert_by_score_descending (A : Type) (x : nat * A)
  (l : list (nat * A)) :
  descending (map fst l) -> descending (map fst (insert_by_score x l)).
Proof.
  induction l as [|z l IH]; simpl; [auto|]. intros [Hz Hl].
  destruct (Nat.leb_spec (fst z) (fst x)) as [H|H]; simpl.
  - split; [|auto]. constructor; [exact H|].
    eapply Forall_impl; [|exact Hz]. intros a Ha. simpl in Ha. lia.
  - split; [|auto].
    apply Forall_forall. intros a Ha. apply in_map_iff in Ha.
    destruct Ha as (p & <- & Hp). apply insert_by_score_In in Hp.
    destruct Hp as [->|Hp]; [lia|].
    rewrite Forall_forall in Hz. apply Hz. now apply in_map.
Qed.

Lemma sort_by_score_descending (A : Type) (l : list (nat * A)) :
  descending (map fst (sort_by_score l)).
Proof.
  induction l as [|x l IH]; simpl; [exact I|].
  now apply insert_by_score_descending.
Qed.

Lemma descending_prefix (a b : list nat) :
  descending (a ++ b) -> descending a.
Proof.
  induction a as [|x a IH]; simpl; [auto|]. intros [H1 H2].
  split; [|auto]. apply Forall_app in H1. tauto.
Qed.

(** X24.  What [search_facts] returns.  Every fact returned is a
    stored fact whose content contains, without regard to case, at least
    one word of the query; the facts come by falling score (the number
    of query words the content contains); at most [limit] facts are
    returned; when no more than [limit] facts match, every matching fact
    is returned; and a query without a word (empty or white space)
    finds nothing. *)
Theorem search_facts_returns_matching_facts (self : Store) (query : str)
  (limit : Z) :
  let found := search_facts self query limit in
  (forall f, In f found -> In f (facts self) /\ mentions query f)
  /\ descending (map (score (lower query)) found)
  /\ ((0 <= limit)%Z -> length found <= Z.to_nat limit)
  /\ ((Z.of_nat (length (filter (fun f => (0 <? score (lower query) f)%nat)
                           (facts self))) <= limit)%Z ->
      forall f, In f (facts self) -> mentions query f -> In f found)
  /\ (split (lower query) = [] -> found = []).
Proof.
  cbv zeta. unfold search_facts. cbv zeta.
  set (q := lower query).
  set (scored := flat_map (fun fact => if 0 <? score q fact
                                       then [(score q fact, fact)] else [])
                   (facts self)).
  assert (S1 : forall p, In p scored <->
                         In (snd p) (facts self) /\ fst p = score q (snd p)
                         /\ 0 < fst p).
  { intros [s f]. unfold scored. rewrite in_flat_map. simpl. split.
    - intros (g & Hg & Hin).
      destruct (Nat.ltb_spec 0 (score q g)) as [P|P]; [|contradiction].
      destruct Hin as [E|[]]. injection E as <- <-. auto.
    - intros (Hf & -> & P). exists f. split; [exact Hf|].
      apply Nat.ltb_lt in P. rewrite P. now left. }
  assert (M : forall f, 0 < score q f <-> mentions query f).
  { intro f. unfold score, mentions. fold q. cbv zeta. split.
    - intro P.
      destruct (filter (fun word => contains word (lower (fact_content f)))
                  (split q)) as [|w ws] eqn:F; [simpl in P; lia|].
      assert (Hw : In w (filter (fun word =>
                                   contains word (lower (fact_content f)))
                           (split q))) by (rewrite F; now left).
      apply filter_In in Hw. exists w. exact Hw.
    - intros (w & Hw & Cw).
      assert (Hin : In w (filter (fun word =>
                                    contains word (lower (fact_content f)))
                            (split q))) by (apply filter_In; auto).
      destruct (filter _ (split q)); [contradiction|simpl; lia]. }
  destruct (slice_to_prefix limit (sort_by_score scored)) as [rest R].
  assert (Sub : forall p, In p (slice_to limit (sort_by_score scored)) ->
                          In p scored).
  { intros p Hp. apply sort_by_score_In. rewrite R.
    apply in_or_app. now left. }
  split; [|split; [|split; [|split]]].
  - intros f Hf. apply in_map_iff in Hf. destruct Hf as ([s g] & <- & Hp).
    apply Sub, S1 in Hp. simpl in Hp. destruct Hp as (Hg & -> & P).
    split; [exact Hg|]. now apply M.
  - rewrite map_map.
    assert (E : map (fun p => score q (snd p))
                  (slice_to limit (sort_by_score scored))
                = map fst (slice_to limit (sort_by_score scored))).
    { apply map_ext_in. intros p Hp. apply Sub, S1 in Hp.
      symmetry. tauto. }
    rewrite E. apply descending_prefix with (b := map fst rest).
    rewrite <- map_app, <- R. apply sort_by_score_descending.
  - intro L. rewrite length_map. now apply length_slice_to.
  - intros L f Hf Mf.
    assert (Len : length scored
                  = length (filter (fun f => 0 <? score q f) (facts self))).
    { unfold scored. clear. induction (facts self) as [|g l IH];
        [reflexivity|].
      simpl. destruct (0 <? score q g); simpl; now rewrite IH. }
    assert (All : slice_to limit (sort_by_score scored)
                  = sort_by_score scored).
    { unfold slice_to. destruct (Z.ltb_spec limit 0); [lia|].
      apply firstn_all2. rewrite length_sort_by_score, Len. lia. }
    rewrite All. apply in_map_iff. exists (score q f, f).
    split; [reflexivity|]. apply sort_by_score_In, S1. simpl.
    split; [exact Hf|]. split; [reflexivity|]. now apply M.
  - intro E.
    assert (Z0 : scored = []).
    { unfold scored. clear - E. induction (facts self) as [|g l IH];
        [reflexivity|].
      simpl. unfold score at 1. fold q. cbv zeta. rewrite E. simpl.
      exact IH. }
    rewrite Z0. simpl. unfold slice_to.
    destruct (limit <? 0)%Z; [reflexivity|]. now rewrite firstn_nil.
Qed.

(** X25.  [get_recent_projects] returns the last [limit] projects, in
    their order, for a positive [limit]; the whole history when it has
    fewer.  For [limit = 0] it returns the whole history, not the empty
    list: the slice [history[-0:]] starts at the front. *)
Theorem get_recent_projects_returns_the_tail (self : Store) :
  get_recent_projects self 0 = project_history self
  /\ forall limit,
       (0 < limit)%Z ->
       length (get_recent_projects self limit)
       = Nat.min (Z.to_nat limit) (length (project_history self))
       /\ exists older,
            project_history self = older ++ get_recent_projects self limit.
Proof.
  split; [reflexivity|]. intros limit H.
  unfold get_recent_projects, slice_from.
  destruct (Z.ltb_spec (- limit) 0); [|lia].
  rewrite Z.opp_involutive. split.
  - rewrite length_skipn. lia.
  - eexists. symmetry. apply firstn_skipn.
Qed.

(** X26.  A stored preference is read back.  After
    [store_preference key value], [get_preferences] gives [value] for
    [key] and what it gave before for every other key; a key that was
    already there keeps its place and no key is listed twice. *)
Theorem store_preference_is_read_back (self : Store) (key value now : str) :
  let self' := store_preference self key value now in
  Py.dict_get (get_preferences self') key = Some value
  /\ (forall k, k <> key ->
                Py.dict_get (get_preferences self') k
                = Py.dict_get (get_preferences self) k)
  /\ map fst (get_preferences self')
     = (if existsb (fun k => Text.eqb k key) (map fst (get_preferences self))
        then map fst (get_preferences self)
        else map fst (get_preferences self) ++ [key])
  /\ facts self' = facts self /\ skills self' = skills self
  /\ project_history self' = project_history self.
Proof.
  cbv zeta. unfold get_preferences, store_preference.
  cbn [preferences facts skills project_history].
  split; [|split; [|split; [|auto]]].
  - now rewrite dict_get_map, dict_get_set_same.
  - intros k N. now rewrite !dict_get_map, dict_get_set_other.
  - rewrite !map_map. cbn [fst].
    change (fun x : str * Preference => fst x) with (@fst str Preference).
    apply dict_set_keys.
Qed.

(** ** A stored skill is found by its name *)

Lemma is_space_lower_char (c : ascii) :
  is_space (lower_char c) = is_space c.
Proof.
  destruct c as [[] [] [] [] [] [] [] []]; reflexivity.
Qed.

Lemma split_from_word (s word : str) :
  forallb (fun c => negb (is_space c)) s = true ->
  word ++ s <> [] ->
  split_from word s = [word ++ s].
Proof.
  revert word. induction s as [|c s IH]; intros word F N; simpl.
  - rewrite app_nil_r in *. destruct word; [congruence|reflexivity].
  - simpl in F. apply andb_true_iff in F. destruct F as [Fc Fs].
    apply negb_true_iff in Fc. rewrite Fc.
    rewrite IH; [now rewrite <- app_assoc|exact Fs|].
    rewrite <- app_assoc. simpl. destruct word; discriminate.
Qed.

Lemma split_token (w : str) :
  w <> [] -> forallb (fun c => negb (is_space c)) w = true ->
  split (lower w) = [lower w].
Proof.
  intros N F. unfold split. apply split_from_word.
  - unfold lower. rewrite forallb_forall in *. intros c Hc.
    apply in_map_iff in Hc. destruct Hc as (d & <- & Hd).
    rewrite is_space_lower_char. now apply F.
  - simpl. destruct w; [congruence|discriminate].
Qed.

(** X27.  A stored skill can be found by its name.  After
    [store_skill] with a name that is one word, [search_skills] for that
    name, in any mix of upper and lower case, returns the stored skill,
    provided [limit] is more than the number of skills there were: the
    matches come oldest first and are cut after [limit], so with a
    smaller limit older matches may hide the new one. *)
Theorem stored_skill_is_found (self : Store)
  (name description code_example : str) (tags : option (list str))
  (now query : str) (limit : Z) :
  name <> [] ->
  forallb (fun c => negb (is_space c)) name = true ->
  lower query = lower name ->
  (Z.of_nat (length (skills self)) < limit)%Z ->
  exists skill,
    In skill
      (search_skills
         (store_skill self name description code_example tags now)
         query limit)
    /\ skill_name skill = name /\ skill_description skill = description.
Proof.
  intros N F Q L.
  set (skill := {| skill_name := name; skill_description := description;
                   skill_code_example := slice_to 2000 code_example;
                   skill_tags := match tags with
                                 | Some l => l
                                 | None => []
                                 end;
                   skill_timestamp := now |}).
  exists skill. split; [|split; reflexivity].
  unfold search_skills, store_skill. cbn [skills]. cbv zeta.
  fold skill. rewrite Q, (split_token N F).
  set (keep := fun s : Skill =>
                 existsb (fun w => contains w (lower (skill_name s))
                                   || contains w (lower (skill_description s))
                                   || contains w
                                        (lower (join " " (skill_tags s))))
                   [lower name]).
  set (all := filter (fun s => negb (Text.eqb (skill_name s) name))
                (skills self) ++ [skill]).
  assert (Hk : keep skill = true).
  { unfold keep. cbn [existsb skill skill_name].
    assert (C : contains (lower name) (lower name) = true).
    { apply contains_iff. exists [], []. now rewrite app_nil_r. }
    now rewrite C. }
  assert (Hin : In skill (filter keep all)).
  { apply filter_In. split; [|exact Hk].
    unfold all. apply in_or_app. right. now left. }
  assert (Len : length (filter keep all) <= S (length (skills self))).
  { etransitivity; [apply filter_length_le|].
    unfold all. rewrite length_app. simpl.
    pose proof (filter_length_le
                  (fun s => negb (Text.eqb (skill_name s) name))
                  (skills self)).
    lia. }
  unfold slice_to. destruct (Z.ltb_spec limit 0); [lia|].
  rewrite firstn_all2 by lia. exact Hin.
Qed.

End MemoryFacts.

Lemma stored_skill_is_found_witness :
  exists skill,
    In skill
      (PersistentMemory.search_skills
         (PersistentMemory.store_skill MemorySpec.two_skills "plot"
            "draw a better chart" "import seaborn" None "t3")
         "PLOT" 3)
    /\ PersistentMemory.skill_name skill = ("plot" : str)
    /\ PersistentMemory.skill_description skill
       = ("draw a better chart" : str).
Proof.
  apply (@stored_skill_is_found MemorySpec.two_skills "plot"
           "draw a better chart" "import seaborn" None "t3" "PLOT" 3).
  - discriminate.
  - reflexivity.
  - reflexivity.
  - vm_compute. reflexivity.
Defined.
